(** * Learning Lanes: progress tracking, badge engine and lane generation

    A shallow embedding of the core of the Learning Lanes web application
    and the proofs of its specified properties:

    - [src/lib/firestore.ts]: [updateWatchProgress], [awardBadge] and
      [checkAndAwardBadges]; the readers [getWatchRecord],
      [getWatchHistory], [getCompletedItemIds], [getWatchProgressMap] and
      [getEarnedBadges]; [clearWatchHistoryForProfile] and
      [clearBadgesForProfile]; the lanes and items of the catalogue
      ([getLanesForProfile], [getLaneWithItems], [createLane],
      [updateLane], [deleteLane], [getItemsForLane], [createItem],
      [deleteItem]); and [extractYouTubeVideoId];
    - [src/stores/progressStore.ts] and the content modal:
      [saveWatchProgress], the computed atoms, [getItemProgress],
      [clearProgress] and [saveProgress];
    - [src/lib/laneGenerator.ts]: the search step and the assembly step of
      [LaneGenerator.generate];
    - the Gemini provider's [generateJSON] and [src/lib/youtube.ts]'s
      [parseDuration] and [formatDuration].

    Conventions.  A JavaScript [number] that can hold an arbitrary value
    (a playback position, a duration, a percentage, an index or a score
    read from a JSON response) is an IEEE-754 binary64 value, Rocq's
    primitive [float], and the arithmetic on it is the processor's; so
    are the durations that [parseDuration] returns and [formatDuration]
    prints.  A [Date] is its number of milliseconds since the epoch;
    [toISOString] followed by [new Date(iso)] is the identity on it.  A
    Firestore collection is a finite map from document ids to documents; a
    call to it fails only where Firestore rejects it ([updateDoc] on a
    missing document).  Identifiers, titles and durations are strings of
    8-bit characters; the text of a Generation Service response, in which
    the white space of the whole character set matters, is a sequence of
    UTF-16 code units.

    The file has two parts: the embedding (the data model, the effects,
    the operations, then the notions the statements use), and the proofs,
    component by component: first the specified properties of the core,
    then further properties of the code around it. *)

From Stdlib Require Import ZArith NArith List String Ascii Bool Lia Floats DecimalString.
From Stdlib Require DecimalPos DecimalN.
From Stdlib Require Import Sorted.
From stdpp Require Import gmap strings list fin_maps.
Import ListNotations.

Local Open Scope string_scope.
Set Warnings "-clear-no-such-hyp".

(* ================================================================== *)
(** * JavaScript numbers *)
(* ================================================================== *)

Abbreviation number := float.

(** The Number nearest to an integer (round to nearest, ties to even). *)
Definition Z2F (z : Z) : float :=
  SF2Prim (binary_normalize prec emax z 0 false).

(** [Math.round]: a value that is not finite, or that is integral already,
    is returned as it is; otherwise the result is the integer closest to
    [x], the one towards +infinity on a tie, and [-0] when that integer is
    0 and [x] is negative.  A finite double is [(-1)^s * m * 2^e]; it is
    integral as soon as [0 <= e], and otherwise [floor (x + 1/2)] is
    [(2 * (+-m) + 2^(-e)) / 2^(1 - e)], rounded down. *)
Definition Math_round (x : float) : float :=
  match Prim2SF x with
  | S754_finite s m e =>
      if (0 <=? e)%Z then x
      else
        let sm := if s then Z.neg m else Z.pos m in
        let n := Z.shiftr (2 * sm + Z.shiftl 1 (- e)) (1 - e) in
        if (n =? 0)%Z then (if s then neg_zero else zero) else Z2F n
  | _ => x
  end.

(** The integer a Number denotes, when it denotes one ([-0] denotes 0). *)
Definition integerValue (x : float) : option Z :=
  match Prim2SF x with
  | S754_zero _ => Some 0%Z
  | S754_finite s m e =>
      let sm := if s then Z.neg m else Z.pos m in
      if (0 <=? e)%Z then Some (Z.shiftl sm e)
      else if (Z.land (Z.pos m) (Z.ones (- e)) =? 0)%Z
           then Some (Z.shiftr sm (- e)) else None
  | _ => None
  end.

(** [Math.floor]: a value that is not finite, or that is integral already,
    is returned as it is; otherwise the greatest integer below it. *)
Definition Math_floor (x : float) : float :=
  match Prim2SF x with
  | S754_finite s m e =>
      if (0 <=? e)%Z then x
      else
        let sm := if s then Z.neg m else Z.pos m in
        let n := Z.shiftr sm (- e) in
        if (n =? 0)%Z then zero else Z2F n
  | _ => x
  end.

(** [x % y]: [NaN] when [x] is not finite or [y] is zero, [x] when [y] is
    infinite or [x] is zero; otherwise the exact remainder of the truncated
    division, with the sign of [x].  Both operands are brought to the
    smaller of the two exponents, where they are integers. *)
Definition Number_rem (x y : float) : float :=
  match Prim2SF x, Prim2SF y with
  | S754_nan, _ | _, S754_nan => nan
  | S754_infinity _, _ => nan
  | _, S754_zero _ => nan
  | S754_zero _, _ => x
  | _, S754_infinity _ => x
  | S754_finite sx mx ex, S754_finite _ my ey =>
      let e := Z.min ex ey in
      let r := Z.rem (Z.shiftl (Z.pos mx) (ex - e)) (Z.shiftl (Z.pos my) (ey - e)) in
      if (r =? 0)%Z then (if sx then neg_zero else zero)
      else SF2Prim (binary_normalize prec emax (if sx then (- r)%Z else r) e false)
  end.

(** ** [Number.prototype.toString] *)

(** The decimal digits of a natural number. *)
Definition toString (n : N) : string := NilEmpty.string_of_uint (N.to_uint n).

(** [2^e] and [10^j] for the exponents that are positive; a comparison of
    [x * 2^e] with [y * 10^j] multiplies each side by the powers with
    negative exponent of the other. *)
Definition scale2 (e : Z) : Z := 2 ^ Z.max e 0.
Definition scale10 (j : Z) : Z := 10 ^ Z.max j 0.

Definition zeros (n : nat) : string := string_of_list_ascii (repeat "0"%char n).

(** The first [n], from a start on, with [m * 2^e < 10^n]. *)
Fixpoint decimalExponent (fuel : nat) (m e n : Z) : Z :=
  match fuel with
  | O => n
  | S fuel' =>
      if (m * scale2 e * scale10 (- n) <? scale10 n * scale2 (- e))%Z then n
      else decimalExponent fuel' m e (n + 1)
  end.

(** An exponent [n] with [10^n <= m * 2^e], to start the search from: the
    double is at least [2^b] for [b] one less than the number of its bits
    plus [e], and [log 2 / log 10] lies between 0.30102 and 0.30103. *)
Definition decimalExponentBelow (m e : Z) : Z :=
  let b := (Z.log2 m + e)%Z in
  ((b * (if (0 <=? b)%Z then 30102 else 30103)) / 100000)%Z.

(** The shortest decimal [s * 10^(n - k)] that reads back as the double
    [m * 2^e].  The numbers that read back as this double are those of
    the interval around it that ends half-way to its two neighbours (the
    ends included when [m] is even; the lower neighbour is nearer when [m]
    is the least mantissa of its exponent).  With [k = 1, 2, ...] digits,
    the two multiples of [10^(n - k)] next to the double are tried, and the
    nearer one that lies in the interval is taken.  All quantities are in
    units of [2^(e - 2) / 10^(n - k)], cleared of denominators. *)
Fixpoint shortestDigits (fuel : nat) (m e n k : Z) : Z * Z :=
  let boundary := (m =? 2 ^ 52)%Z && (- 1074 <? e)%Z in
  let j := (n - k)%Z in
  let P := (scale2 (e - 2) * scale10 (- j))%Z in
  let Q := (scale10 j * scale2 (- (e - 2)))%Z in
  let V := (4 * m * P)%Z in
  let LO := ((4 * m - (if boundary then 1 else 2)) * P)%Z in
  let HI := ((4 * m + 2) * P)%Z in
  let inside s :=
    if Z.even m then (LO <=? s * Q)%Z && (s * Q <=? HI)%Z
    else (LO <? s * Q)%Z && (s * Q <? HI)%Z in
  let lo := (V / Q)%Z in
  let hi := (lo + 1)%Z in
  let pick :=
    match inside lo, inside hi with
    | true, true =>
        let dlo := (V - lo * Q)%Z in
        let dhi := (hi * Q - V)%Z in
        if (dlo <? dhi)%Z then Some lo
        else if (dhi <? dlo)%Z then Some hi
        else Some (if Z.even lo then lo else hi)
    | true, false => Some lo
    | false, true => Some hi
    | false, false => None
    end in
  match pick, fuel with
  | Some s, _ => (s, k)
  | None, O => (lo, k)
  | None, S fuel' => shortestDigits fuel' m e n (k + 1)
  end.

(** Zeros at the end of [s] are no digits of the result. *)
Fixpoint stripZeros (fuel : nat) (s k : Z) : Z * Z :=
  match fuel with
  | O => (s, k)
  | S fuel' =>
      if ((s mod 10 =? 0) && (1 <? k))%Z then stripZeros fuel' (s / 10) (k - 1)
      else (s, k)
  end.

(** The digits [ds] and the decimal exponent [n] (the value is
    [0.ds * 10^n]), laid out as the standard prescribes: plain digits up to
    [10^21], a fraction down to [10^-6], the exponent form otherwise. *)
Definition layout (ds : string) (n : Z) : string :=
  let k := Z.of_nat (String.length ds) in
  if ((k <=? n) && (n <=? 21))%Z then ds ++ zeros (Z.to_nat (n - k))
  else if ((0 <? n) && (n <=? 21))%Z then
    String.substring 0 (Z.to_nat n) ds ++ "."
    ++ String.substring (Z.to_nat n) (Z.to_nat (k - n)) ds
  else if ((- 6 <? n) && (n <=? 0))%Z then "0." ++ zeros (Z.to_nat (- n)) ++ ds
  else
    let exponent := (if (0 <? n - 1)%Z then "+" else "-")
                    ++ toString (Z.to_N (Z.abs (n - 1))) in
    if (k =? 1)%Z then ds ++ "e" ++ exponent
    else String.substring 0 1 ds ++ "." ++ String.substring 1 (Z.to_nat (k - 1)) ds
         ++ "e" ++ exponent.

Definition positiveToString (m : positive) (e : Z) : string :=
  let n := decimalExponent 4 (Z.pos m) e (decimalExponentBelow (Z.pos m) e) in
  let (s0, k0) := shortestDigits 17 (Z.pos m) e n 1 in
  (* the upper neighbour can be [10^k]: one digit more, one place more *)
  let n' := if (s0 =? 10 ^ k0)%Z then (n + 1)%Z else n in
  let k1 := if (s0 =? 10 ^ k0)%Z then (k0 + 1)%Z else k0 in
  let (s, _) := stripZeros 20 s0 k1 in
  layout (toString (Z.to_N s)) n'.

(** [x.toString()], also what a template literal makes of a Number. *)
Definition Number_toString (x : float) : string :=
  match Prim2SF x with
  | S754_nan => "NaN"
  | S754_zero _ => "0"
  | S754_infinity s => (if s then "-" else "") ++ "Infinity"
  | S754_finite s m e => (if s then "-" else "") ++ positiveToString m e
  end.

(** ** JavaScript strings *)

(** A string in which every character counts: its UTF-16 code units. *)
Definition codeUnit := N.
Definition text := list codeUnit.

(** The code units of a string of 8-bit characters. *)
Definition unitsOf (s : string) : text := map N_of_ascii (list_ascii_of_string s).

(** A [Date], in milliseconds since the epoch. *)
Definition Date := Z.

(* ================================================================== *)
(** * Data model ([src/types.ts]) *)
(* ================================================================== *)

Inductive LaneCategory :=
  | School | Music | Fun | Creativity | Learning
  | Entertainment | Science | Math | Reading | Other.

Inductive ContentType := youtube_video | web_link | static_image.

Inductive BadgeType :=
  | first_watch | lane_master | explorer
  | five_videos | ten_videos | twenty_five_videos.

Definition BadgeType_string (b : BadgeType) : string :=
  match b with
  | first_watch => "first_watch"
  | lane_master => "lane_master"
  | explorer => "explorer"
  | five_videos => "five_videos"
  | ten_videos => "ten_videos"
  | twenty_five_videos => "twenty_five_videos"
  end.

#[export] Instance LaneCategory_eq_dec : EqDecision LaneCategory.
Proof. solve_decision. Defined.

#[export] Instance BadgeType_eq_dec : EqDecision BadgeType.
Proof. solve_decision. Defined.

Definition LaneCategory_code (c : LaneCategory) : nat :=
  match c with
  | School => 0 | Music => 1 | Fun => 2 | Creativity => 3 | Learning => 4
  | Entertainment => 5 | Science => 6 | Math => 7 | Reading => 8 | Other => 9
  end.

Definition LaneCategory_decode (n : nat) : option LaneCategory :=
  match n with
  | 0 => Some School | 1 => Some Music | 2 => Some Fun | 3 => Some Creativity
  | 4 => Some Learning | 5 => Some Entertainment | 6 => Some Science
  | 7 => Some Math | 8 => Some Reading | 9 => Some Other | _ => None
  end.

#[export] Program Instance LaneCategory_countable : Countable LaneCategory :=
  inj_countable LaneCategory_code LaneCategory_decode _.
Next Obligation. by intros []. Qed.

Module WatchRecord.
Record t := mk {
  id : string;
  profileId : string;
  laneId : string;
  itemId : string;
  lastPosition : number;
  duration : number;
  progressPercent : number;
  completed : bool;
  startedAt : Date;
  updatedAt : Date;
  completedAt : option Date
}.
End WatchRecord.

Module EarnedBadge.
Record t := mk {
  id : string;
  profileId : string;
  badgeType : BadgeType;
  earnedAt : Date;
  metadata : option (list (string * string))
}.
End EarnedBadge.

Module LaneItem.
Record t := mk {
  id : string;
  title : string;
  thumbnailUrl : string;
  type : ContentType
}.
End LaneItem.

Module LaneWithItems.
Record t := mk {
  id : string;
  profileId : string;
  title : string;
  category : LaneCategory;
  isActive : bool;
  sortOrder : number;
  items : list LaneItem.t
}.
End LaneWithItems.

(* ================================================================== *)
(** * The persistence store and the effects of the core *)
(* ================================================================== *)

(** The client-side atoms of [src/stores/progressStore.ts]:
    [$watchHistory], [$earnedBadges] and [$newBadges]. *)
Record ProgressStore := mkProgressStore {
  atom_watchHistory : list WatchRecord.t;
  atom_earnedBadges : list EarnedBadge.t;
  atom_newBadges : list EarnedBadge.t
}.

(** The two Firestore collections the core writes, the client's atoms, and
    the clock: [clock n] is what the [n]-th evaluation of [new Date()]
    returns, [ticks] counts the evaluations so far. *)
Record World := mkWorld {
  watchHistory : gmap string WatchRecord.t;
  earnedBadges : gmap string EarnedBadge.t;
  progressStore : ProgressStore;
  clock : nat -> Date;
  ticks : nat
}.

Definition withWatchHistory (h : gmap string WatchRecord.t) (w : World) : World :=
  mkWorld h (earnedBadges w) (progressStore w) (clock w) (ticks w).

Definition withEarnedBadges (b : gmap string EarnedBadge.t) (w : World) : World :=
  mkWorld (watchHistory w) b (progressStore w) (clock w) (ticks w).

Definition withProgressStore (s : ProgressStore) (w : World) : World :=
  mkWorld (watchHistory w) (earnedBadges w) s (clock w) (ticks w).

Definition tick (w : World) : World :=
  mkWorld (watchHistory w) (earnedBadges w) (progressStore w) (clock w)
          (S (ticks w)).

Inductive JsError :=
  | NotFound (docId : string)
  | TypeError
  | SyntaxError
  | Error (message : text).

Inductive Outcome (A : Type) :=
  | Ok (a : A) (w : World)
  | Throw (e : JsError) (w : World).
Arguments Ok {A} a w.
Arguments Throw {A} e w.

Definition M (A : Type) : Type := World -> Outcome A.

Definition ret {A} (a : A) : M A := fun w => Ok a w.

Definition bind {A B} (c : M A) (k : A -> M B) : M B :=
  fun w => match c w with
           | Ok a w' => k a w'
           | Throw e w' => Throw e w'
           end.

Notation "'let*' x ':=' c 'in' k" := (bind c (fun x => k))
  (at level 10, x name, c at level 100, k at level 200, only parsing).
Notation "c ';;;' k" := (bind c (fun _ => k))
  (at level 100, k at level 200, right associativity, only parsing).

(** [try { c } catch (error) { handler }] *)
Definition tryCatch {A} (c : M A) (handler : JsError -> M A) : M A :=
  fun w => match c w with
           | Ok a w' => Ok a w'
           | Throw e w' => handler e w'
           end.

(** [new Date()] *)
Definition newDate : M Date :=
  fun w => Ok (clock w (ticks w)) (tick w).

(** [getDoc(doc(db, 'watchHistory', id))]: [Some] when [exists()]. *)
Definition getWatchDoc (docId : string) : M (option WatchRecord.t) :=
  fun w => Ok (watchHistory w !! docId) w.

(** [setDoc(doc(db, 'watchHistory', id), data)] *)
Definition setWatchDoc (docId : string) (data : WatchRecord.t) : M unit :=
  fun w => Ok tt (withWatchHistory (<[docId := data]> (watchHistory w)) w).

(** [updateDoc(doc(db, 'watchHistory', id), updates)]: the fields of
    [updates] are merged into the stored document; the call is rejected
    when there is no such document. *)
Definition updateWatchDoc (docId : string)
    (updates : WatchRecord.t -> WatchRecord.t) : M unit :=
  fun w => match watchHistory w !! docId with
           | Some d =>
               Ok tt (withWatchHistory (<[docId := updates d]> (watchHistory w)) w)
           | None => Throw (NotFound docId) w
           end.

(** [getDoc(doc(db, 'earnedBadges', id))] *)
Definition getBadgeDoc (docId : string) : M (option EarnedBadge.t) :=
  fun w => Ok (earnedBadges w !! docId) w.

(** [setDoc(doc(db, 'earnedBadges', id), data)] *)
Definition setBadgeDoc (docId : string) (data : EarnedBadge.t) : M unit :=
  fun w => Ok tt (withEarnedBadges (<[docId := data]> (earnedBadges w)) w).

(** Reading and writing the atoms. *)
Definition getStore : M ProgressStore := fun w => Ok (progressStore w) w.

Definition setStore (s : ProgressStore) : M unit :=
  fun w => Ok tt (withProgressStore s w).

(* ================================================================== *)
(** * Progress tracker ([updateWatchProgress]) *)
(* ================================================================== *)

(** [`${profileId}_${itemId}`] *)
Definition watchDocId (profileId itemId : string) : string :=
  profileId ++ "_" ++ itemId.

(** [duration > 0 ? Math.round((currentPosition / duration) * 100) : 0] *)
Definition progressPercentOf (currentPosition duration : number) : number :=
  if (0 <? duration)%float
  then Math_round ((currentPosition / duration) * 100)%float
  else 0%float.

(** [progressPercent >= 90] *)
Definition completedOf (progressPercent : number) : bool :=
  (90 <=? progressPercent)%float.

Arguments progressPercentOf : simpl never.
Arguments completedOf : simpl never.

Definition updateWatchProgress (profileId laneId itemId : string)
    (currentPosition duration : number) : M (WatchRecord.t * bool) :=
  let id := watchDocId profileId itemId in
  let* now := newDate in
  let progressPercent := progressPercentOf currentPosition duration in
  let completed := completedOf progressPercent in
  let* existing := getWatchDoc id in
  match existing with
  | Some existingData =>
      let wasCompleted := WatchRecord.completed existingData || false in
      let newlyCompleted := completed && negb wasCompleted in
      updateWatchDoc id (fun d =>
        WatchRecord.mk (WatchRecord.id d) (WatchRecord.profileId d)
          (WatchRecord.laneId d) (WatchRecord.itemId d)
          currentPosition duration progressPercent completed
          (WatchRecord.startedAt d) now
          (if newlyCompleted then Some now else WatchRecord.completedAt d)) ;;;
      ret (WatchRecord.mk id profileId laneId itemId
             currentPosition duration progressPercent completed
             (WatchRecord.startedAt existingData) now
             (if newlyCompleted then Some now
              else WatchRecord.completedAt existingData),
           newlyCompleted)
  | None =>
      let newlyCompleted := completed in
      let watchRecord :=
        WatchRecord.mk id profileId laneId itemId
          currentPosition duration progressPercent completed
          now now (if completed then Some now else None) in
      setWatchDoc id watchRecord ;;;
      ret (watchRecord, newlyCompleted)
  end.

(* ================================================================== *)
(** * Badge engine ([awardBadge], [checkAndAwardBadges]) *)
(* ================================================================== *)

(** [`${profileId}_${badgeType}`] *)
Definition badgeDocId (profileId : string) (badgeType : BadgeType) : string :=
  profileId ++ "_" ++ BadgeType_string badgeType.

Definition awardBadge (profileId : string) (badgeType : BadgeType)
    (metadata : option (list (string * string))) : M (option EarnedBadge.t) :=
  let id := badgeDocId profileId badgeType in
  let* existing := getBadgeDoc id in
  match existing with
  | Some _ => ret None
  | None =>
      let* now := newDate in
      let badge := EarnedBadge.mk id profileId badgeType now metadata in
      setBadgeDoc id badge ;;;
      ret (Some badge)
  end.

(** [if (badge) newBadges.push(badge)] *)
Definition pushBadge (newBadges : list EarnedBadge.t)
    (badge : option EarnedBadge.t) : list EarnedBadge.t :=
  match badge with
  | Some b => (newBadges ++ [b])%list
  | None => newBadges
  end.

(** [if (cond) { const badge = await awardBadge(profileId, badgeType);
                 if (badge) newBadges.push(badge); }] *)
Definition awardWhen (cond : bool) (profileId : string) (badgeType : BadgeType)
    (newBadges : list EarnedBadge.t) : M (list EarnedBadge.t) :=
  if cond then
    let* badge := awardBadge profileId badgeType None in
    ret (pushBadge newBadges badge)
  else ret newBadges.

(** [lane.items.length > 0 && lane.items.every(item =>
       completedItemIds.has(item.id))] *)
Definition laneFullyCompleted (completedItemIds : gset string)
    (lane : LaneWithItems.t) : bool :=
  (0 <? length (LaneWithItems.items lane))%nat
  && forallb (fun item => bool_decide (LaneItem.id item ∈ completedItemIds))
             (LaneWithItems.items lane).

(** The [for (const lane of lanes)] loop, left at its [break]. *)
Fixpoint laneMasterLoop (profileId : string) (completedItemIds : gset string)
    (lanes : list LaneWithItems.t) (newBadges : list EarnedBadge.t)
    : M (list EarnedBadge.t) :=
  match lanes with
  | [] => ret newBadges
  | lane :: rest =>
      if laneFullyCompleted completedItemIds lane then
        let* badge :=
          awardBadge profileId lane_master
            (Some [("laneId", LaneWithItems.id lane);
                   ("laneTitle", LaneWithItems.title lane)]) in
        ret (pushBadge newBadges badge)
      else laneMasterLoop profileId completedItemIds rest newBadges
  end.

(** [lanes.find(l => l.id === record.laneId)] *)
Definition findLane (lanes : list LaneWithItems.t) (laneId : string)
    : option LaneWithItems.t :=
  List.find (fun l => String.eqb (LaneWithItems.id l) laneId) lanes.

(** The [for (const record of completedRecords)] loop filling
    [categoriesCompleted]. *)
Definition categoriesOf (lanes : list LaneWithItems.t)
    (completedRecords : list WatchRecord.t) : gset LaneCategory :=
  fold_left
    (fun categoriesCompleted record =>
       match findLane lanes (WatchRecord.laneId record) with
       | Some lane => {[ LaneWithItems.category lane ]} ∪ categoriesCompleted
       | None => categoriesCompleted
       end)
    completedRecords ∅.

Definition checkAndAwardBadges (profileId : string)
    (watchHistory : list WatchRecord.t) (lanes : list LaneWithItems.t)
    : M (list EarnedBadge.t) :=
  let newBadges : list EarnedBadge.t := [] in
  let completedRecords := List.filter WatchRecord.completed watchHistory in
  let totalCompleted := length completedRecords in
  let completedItemIds : gset string :=
    list_to_set (map WatchRecord.itemId completedRecords) in
  let* newBadges := awardWhen (1 <=? totalCompleted)%nat profileId first_watch newBadges in
  let* newBadges := awardWhen (5 <=? totalCompleted)%nat profileId five_videos newBadges in
  let* newBadges := awardWhen (10 <=? totalCompleted)%nat profileId ten_videos newBadges in
  let* newBadges := awardWhen (25 <=? totalCompleted)%nat profileId twenty_five_videos newBadges in
  let* newBadges := laneMasterLoop profileId completedItemIds lanes newBadges in
  let categoriesCompleted := categoriesOf lanes completedRecords in
  let* newBadges := awardWhen (4 <=? size categoriesCompleted)%nat profileId explorer newBadges in
  ret newBadges.

(* ================================================================== *)
(** * The client: [saveWatchProgress] and [ContentModal.saveProgress] *)
(* ================================================================== *)

Inductive ProfileRole := admin | child.

Module Profile.
Record t := mk {
  id : string;
  displayName : string;
  avatarUrl : string;
  role : ProfileRole;
  pin : option string
}.
End Profile.

Module ActiveContent.
Record t := mk {
  item : LaneItem.t;
  laneId : string;
  laneTitle : string
}.
End ActiveContent.

(** [array.findIndex(pred)], [None] for [-1]. *)
Fixpoint findIndex {A} (pred : A -> bool) (l : list A) : option nat :=
  match l with
  | [] => None
  | x :: rest => if pred x then Some 0%nat else option_map S (findIndex pred rest)
  end.

Definition saveWatchProgress (profileId laneId itemId : string)
    (currentPosition duration : number) (lanes : list LaneWithItems.t)
    : M (list EarnedBadge.t) :=
  tryCatch
    (let* result := updateWatchProgress profileId laneId itemId
                      currentPosition duration in
     let record := fst result in
     let newlyCompleted := snd result in
     let* store := getStore in
     let currentHistory := atom_watchHistory store in
     let existingIndex :=
       findIndex (fun w => String.eqb (WatchRecord.itemId w) itemId)
                 currentHistory in
     let updatedHistory :=
       match existingIndex with
       | Some i => <[i := record]> currentHistory
       | None => (currentHistory ++ [record])%list
       end in
     setStore (mkProgressStore updatedHistory (atom_earnedBadges store)
                               (atom_newBadges store)) ;;;
     if newlyCompleted then
       let* newBadges := checkAndAwardBadges profileId updatedHistory lanes in
       (if (0 <? length newBadges)%nat then
          let* store := getStore in
          setStore (mkProgressStore (atom_watchHistory store)
                      (atom_earnedBadges store ++ newBadges)%list newBadges)
        else ret tt) ;;;
       ret newBadges
     else ret [])
    (fun _ => ret []).

(** [saveProgress] of the content modal; [position] and [dur] are its
    optional arguments, [currentTime] and [duration] the component's state. *)
Definition saveProgress (activeContent : option ActiveContent.t)
    (currentProfile : option Profile.t) (currentTime duration : number)
    (lanes : list LaneWithItems.t) (position dur : option number) : M unit :=
  match activeContent, currentProfile with
  | Some content, Some profile =>
      match Profile.role profile with
      | child =>
          let pos := default currentTime position in
          let totalDur := default duration dur in
          if (totalDur <=? 0)%float then ret tt
          else
            saveWatchProgress (Profile.id profile)
              (ActiveContent.laneId content)
              (LaneItem.id (ActiveContent.item content))
              pos totalDur lanes ;;;
            ret tt
      | admin => ret tt
      end
  | _, _ => ret tt
  end.

(* ================================================================== *)
(** * Strings and the two regular expressions of the source *)
(* ================================================================== *)

(** [\d] *)
Definition isDigit (c : ascii) : bool :=
  let n := nat_of_ascii c in ((48 <=? n) && (n <=? 57))%nat.

(** [\s] of a code unit: the white space and the line terminators of the
    language.  Tab, line feed, vertical tab, form feed, carriage return and
    space; the no-break space U+00A0; U+1680; U+2000 to U+200A; the line
    and paragraph separators U+2028 and U+2029; U+202F, U+205F, U+3000 and
    the byte order mark U+FEFF. *)
Definition isSpace (c : codeUnit) : bool :=
  (((9 <=? c) && (c <=? 13)) || (c =? 32) || (c =? 160) || (c =? 5760)
   || ((8192 <=? c) && (c <=? 8202)) || (c =? 8232) || (c =? 8233)
   || (c =? 8239) || (c =? 8287) || (c =? 12288) || (c =? 65279))%N.

(** The rest of [s] after the literal [p], when [s] starts with it. *)
Fixpoint stripPrefix (p s : string) : option string :=
  match p with
  | EmptyString => Some s
  | String a p' =>
      match s with
      | String b s' => if Ascii.eqb a b then stripPrefix p' s' else None
      | EmptyString => None
      end
  end.

(** The integer that a string of decimal digits denotes, read from the
    left. *)
Fixpoint parseDigits (acc : N) (ds : string) : N :=
  match ds with
  | EmptyString => acc
  | String c rest => parseDigits (acc * 10 + (N_of_ascii c - 48))%N rest
  end.

(** [parseInt(ds, 10)] of a string of decimal digits: the Number nearest
    to the integer the digits denote (the integer itself below 2^53,
    [Infinity] from about 309 digits on). *)
Definition parseInt10 (ds : string) : number :=
  Z2F (Z.of_N (parseDigits 0 ds)).

(** ** [/PT(?:(\d+)H)?(?:(\d+)M)?(?:(\d+)S)?/] *)

(** [(\d+)c] at the start of [s], by backtracking: the greedy [\d+] takes
    one digit and first tries to extend the run; when the rest does not
    match with a longer run, the run ends at this digit and [c] must
    follow.  The result is the captured digits and the text after [c]. *)
Fixpoint digitsThen (c : ascii) (s : string) : option (string * string) :=
  match s with
  | String d s' =>
      if isDigit d then
        match digitsThen c s' with
        | Some (ds, rest) => Some (String d ds, rest)
        | None =>
            match s' with
            | String c' rest =>
                if Ascii.eqb c' c then Some (String d EmptyString, rest) else None
            | EmptyString => None
            end
        end
      else None
  | EmptyString => None
  end.

(** [(?:(\d+)c)?]: the group when it matches, else nothing is consumed and
    the capture is undefined.  What follows in the pattern is optional too,
    so a successful group is never given up. *)
Definition optionalComponent (c : ascii) (s : string) : option string * string :=
  match digitsThen c s with
  | Some (ds, rest) => (Some ds, rest)
  | None => (None, s)
  end.

(** The pattern anchored at the start of [s]: the three captures. *)
Definition durationAt (s : string)
    : option (option string * option string * option string) :=
  match stripPrefix "PT" s with
  | Some r =>
      let (h, r1) := optionalComponent "H" r in
      let (m, r2) := optionalComponent "M" r1 in
      let (sec, _) := optionalComponent "S" r2 in
      Some (h, m, sec)
  | None => None
  end.

(** [duration.match(...)]: the leftmost position where the pattern matches. *)
Fixpoint durationMatch (s : string)
    : option (option string * option string * option string) :=
  match durationAt s with
  | Some groups => Some groups
  | None =>
      match s with
      | String _ rest => durationMatch rest
      | EmptyString => None
      end
  end.

(** [parseInt(match[k] || '0', 10)] *)
Definition component (capture : option string) : number :=
  parseInt10 (default "0" capture).

Definition parseDuration (duration : string) : number :=
  match durationMatch duration with
  | None => 0%float
  | Some (h, m, s) =>
      let hours := component h in
      let minutes := component m in
      let seconds := component s in
      (hours * 3600 + minutes * 60 + seconds)%float
  end.

(** ** [/```(?:json)?\s*([\s\S]*?)\s*```/] *)

(** The pattern works on the code units of the response. *)
Definition backquote : codeUnit := 96%N.
Definition fence : text := [backquote; backquote; backquote].
Definition jsonTag : text := unitsOf "json".

(** The rest of [s] after the literal [p], when [s] starts with it. *)
Fixpoint stripUnits (p s : text) : option text :=
  match p with
  | [] => Some s
  | a :: p' =>
      match s with
      | b :: s' => if (a =? b)%N then stripUnits p' s' else None
      | [] => None
      end
  end.

(** [\s*```] at the start of [s]: the greedy [\s*] cannot stop early,
    since a white-space character is no backquote. *)
Fixpoint closesFence (s : text) : bool :=
  match stripUnits fence s with
  | Some _ => true
  | None =>
      match s with
      | c :: rest => if isSpace c then closesFence rest else false
      | [] => false
      end
  end.

(** [([\s\S]*?)\s*```] at the start of [s]: the lazy body is the shortest
    prefix after which [\s*```] matches. *)
Fixpoint lazyBody (s : text) : option text :=
  if closesFence s then Some []
  else
    match s with
    | c :: rest => option_map (cons c) (lazyBody rest)
    | [] => None
    end.

(** [\s*([\s\S]*?)\s*```] at the start of [s]: the greedy [\s*] takes a
    white-space character and goes on; if the rest then fails it gives the
    character back to the body. *)
Fixpoint spacesThenBody (s : text) : option text :=
  match s with
  | c :: rest =>
      if isSpace c then
        match spacesThenBody rest with
        | Some body => Some body
        | None => lazyBody s
        end
      else lazyBody s
  | [] => lazyBody s
  end.

(** The pattern anchored at the start of [s]; [(?:json)?] is tried with
    the tag first and without it if the rest then fails. *)
Definition fenceAt (s : text) : option text :=
  match stripUnits fence s with
  | Some r =>
      match stripUnits jsonTag r with
      | Some r' =>
          match spacesThenBody r' with
          | Some body => Some body
          | None => spacesThenBody r
          end
      | None => spacesThenBody r
      end
  | None => None
  end.

(** [text.match(...)]: capture 1 of the leftmost match. *)
Fixpoint fenceMatch (response : text) : option text :=
  match fenceAt response with
  | Some body => Some body
  | None =>
      match response with
      | _ :: rest => fenceMatch rest
      | [] => None
      end
  end.

(* ================================================================== *)
(** * Generation Service: [generateJSON] *)
(* ================================================================== *)

Inductive Result (A : Type) :=
  | Returns (a : A)
  | Throws (e : JsError).
Arguments Returns {A} a.
Arguments Throws {A} e.

(** [text.substring(0, 200)] *)
Definition substring200 (response : text) : text := firstn 200 response.

Definition failedToParse : text :=
  unitsOf "Failed to parse AI response as JSON: ".

(** [generateJSON] from the text of the service's response on.
    [JSON_parse] is [JSON.parse]: [None] when it throws its [SyntaxError]. *)
Definition generateJSON {T : Type} (JSON_parse : text -> option T)
    (response : text) : Result T :=
  match JSON_parse response with
  | Some value => Returns value
  | None =>
      match fenceMatch response with
      | Some body =>
          match JSON_parse body with
          | Some value => Returns value
          | None => Throws SyntaxError
          end
      | None =>
          Throws (Error (failedToParse ++ substring200 response)%list)
      end
  end.

(* ================================================================== *)
(** * Lane generation pipeline: search and assembly *)
(* ================================================================== *)

Module YouTubeVideoDetails.
Record t := mk {
  videoId : string;
  title : string;
  description : string;
  channelTitle : string;
  channelId : string;
  thumbnailUrl : string;
  duration : string;
  durationSeconds : number;
  viewCount : number;
  likeCount : number
}.
End YouTubeVideoDetails.

(** The Search Service as the pipeline sees it: the outcome of the [n]-th
    call of [searchWithDetails], made with the given query; [None] when the
    call throws. *)
Definition SearchService := nat -> string -> option (list YouTubeVideoDetails.t).

(** The inner [for (const video of videos)] loop over [allVideos] and
    [seenVideoIds]. *)
Definition addVideos (videos : list YouTubeVideoDetails.t)
    (state : list YouTubeVideoDetails.t * gset string)
    : list YouTubeVideoDetails.t * gset string :=
  fold_left
    (fun st video =>
       let allVideos := fst st in
       let seenVideoIds := snd st in
       if bool_decide (YouTubeVideoDetails.videoId video ∈ seenVideoIds)
       then st
       else ((allVideos ++ [video])%list,
             {[ YouTubeVideoDetails.videoId video ]} ∪ seenVideoIds))
    videos state.

(** The outer [for (const query of ...)] loop with its [try]/[catch];
    [n] numbers the calls. *)
Fixpoint searchLoop (youtube : SearchService) (n : nat) (queries : list string)
    (state : list YouTubeVideoDetails.t * gset string)
    : list YouTubeVideoDetails.t * gset string :=
  match queries with
  | [] => state
  | query :: rest =>
      let state' :=
        match youtube n (query ++ " for kids educational") with
        | Some videos => addVideos videos state
        | None => state
        end in
      searchLoop youtube (S n) rest state'
  end.

(** Step 2 of [generate]: [allVideos] after the loop over
    [plan.searchQueries.slice(0, 4)]. *)
Definition searchStep (youtube : SearchService) (searchQueries : list string)
    : list YouTubeVideoDetails.t :=
  fst (searchLoop youtube 0 (firstn 4 searchQueries) ([], ∅)).

Module Selection.
Record t := mk {
  index : number;
  relevanceScore : number;
  reason : string
}.
End Selection.

Module GeneratedItem.
Record t := mk {
  title : string;
  thumbnailUrl : string;
  type : ContentType;
  videoId : string;
  loop : bool;
  relevanceScore : number;
  reason : string;
  duration : string;
  channelTitle : string
}.
End GeneratedItem.

(** [s.padStart(2, '0')] *)
Definition padStart2 (s : string) : string :=
  match String.length s with
  | 0%nat => "00"
  | 1%nat => "0" ++ s
  | _ => s
  end.

Definition formatDuration (seconds : number) : string :=
  let hours := Math_floor (seconds / 3600) in
  let minutes := Math_floor (Number_rem seconds 3600 / 60) in
  let secs := Number_rem seconds 60 in
  if (0 <? hours)%float
  then Number_toString hours ++ ":" ++ padStart2 (Number_toString minutes) ++ ":"
       ++ padStart2 (Number_toString secs)
  else Number_toString minutes ++ ":" ++ padStart2 (Number_toString secs).

(** [array[i]] for a Number [i]: the element when [i] is an integer inside
    the array, [undefined] ([None]) otherwise. *)
Definition arrayGet {A} (array : list A) (i : number) : option A :=
  match integerValue i with
  | Some z => if (0 <=? z)%Z then nth_error array (Z.to_nat z) else None
  | None => None
  end.

(** [array.slice(0, end)] for an integer [end]. *)
Definition sliceTo {A} (array : list A) (end_ : Z) : list A :=
  if (end_ <? 0)%Z
  then firstn (Z.to_nat (Z.max (Z.of_nat (length array) + end_) 0)) array
  else firstn (Z.to_nat end_) array.

(** [array.length] as a Number. *)
Definition lengthNumber {A} (array : list A) : number :=
  Z2F (Z.of_nat (length array)).

(** [s.index > 0 && s.index <= allVideos.length] *)
Definition indexInBounds (allVideos : list YouTubeVideoDetails.t)
    (s : Selection.t) : bool :=
  (0 <? Selection.index s)%float
  && (Selection.index s <=? lengthNumber allVideos)%float.

(** The callback of [.map]: reading [video.title] of [undefined] throws a
    [TypeError]. *)
Definition toItem (allVideos : list YouTubeVideoDetails.t)
    (selection : Selection.t) : Result GeneratedItem.t :=
  match arrayGet allVideos (Selection.index selection - 1)%float with
  | Some video =>
      Returns (GeneratedItem.mk
                 (YouTubeVideoDetails.title video)
                 (YouTubeVideoDetails.thumbnailUrl video)
                 youtube_video
                 (YouTubeVideoDetails.videoId video)
                 false
                 (Selection.relevanceScore selection)
                 (Selection.reason selection)
                 (formatDuration (YouTubeVideoDetails.durationSeconds video))
                 (YouTubeVideoDetails.channelTitle video))
  | None => Throws TypeError
  end.

(** [array.map(f)] for a callback that may throw. *)
Fixpoint mapResult {A B} (f : A -> Result B) (l : list A) : Result (list B) :=
  match l with
  | [] => Returns []
  | x :: rest =>
      match f x with
      | Throws e => Throws e
      | Returns y =>
          match mapResult f rest with
          | Throws e => Throws e
          | Returns ys => Returns (y :: ys)
          end
      end
  end.

(** Step 4 of [generate], up to the sort:
    [filterResult.selectedVideos.filter(...).slice(0, maxVideos).map(...)]. *)
Definition selectedItems (selectedVideos : list Selection.t)
    (allVideos : list YouTubeVideoDetails.t) (maxVideos : Z)
    : Result (list GeneratedItem.t) :=
  mapResult (toItem allVideos)
    (sliceTo (List.filter (indexInBounds allVideos) selectedVideos) maxVideos).

(* ================================================================== *)
(** * Worlds and observations used in the statements *)
(* ================================================================== *)

(** The world an operation leaves behind, whether it returns or throws. *)
Definition worldAfter {A} (c : M A) (w : World) : World :=
  match c w with
  | Ok _ w' => w'
  | Throw _ w' => w'
  end.

(** What an operation returns, [None] when it throws. *)
Definition valueOf {A} (c : M A) (w : World) : option A :=
  match c w with
  | Ok a _ => Some a
  | Throw _ _ => None
  end.

(** A fresh installation: empty collections, empty atoms. *)
Definition emptyWorld (clock : nat -> Date) : World :=
  mkWorld ∅ ∅ (mkProgressStore [] [] []) clock 0.

(** A clock that advances by one second per reading, from 1000 ms on. *)
Definition secondsClock (n : nat) : Date := (1000 * Z.of_nat (S n))%Z.

(** A watch document with another [updatedAt]. *)
Definition withUpdatedAt (t : Date) (d : WatchRecord.t) : WatchRecord.t :=
  WatchRecord.mk (WatchRecord.id d) (WatchRecord.profileId d)
    (WatchRecord.laneId d) (WatchRecord.itemId d)
    (WatchRecord.lastPosition d) (WatchRecord.duration d)
    (WatchRecord.progressPercent d) (WatchRecord.completed d)
    (WatchRecord.startedAt d) t (WatchRecord.completedAt d).

(** A sequence of playback samples [(position, duration)] reported for one
    (profile, item) pair, one [updateWatchProgress] call each. *)
Fixpoint replaySamples (profileId laneId itemId : string)
    (samples : list (number * number)) : M unit :=
  match samples with
  | [] => ret tt
  | (pos, dur) :: rest =>
      updateWatchProgress profileId laneId itemId pos dur ;;;
      replaySamples profileId laneId itemId rest
  end.

(** ** Rounding, as the specification words it *)

(** A Number that is neither [NaN] nor infinite. *)
Definition isFinite (x : float) : bool :=
  match Prim2SF x with
  | S754_zero _ | S754_finite _ _ _ => true
  | _ => false
  end.

(** [n <= x + 1/2 < n + 1] for a double [x]: the integer [n] is the one
    nearest to [x], the upper one when two are as near.  A finite double
    is [sm * 2^e]; the inequality is cleared of its denominators. *)
Definition nearestInteger (x : float) (n : Z) : Prop :=
  match Prim2SF x with
  | S754_zero _ => n = 0%Z
  | S754_finite s m e =>
      let sm := if s then Z.neg m else Z.pos m in
      if (0 <=? e)%Z then n = (sm * 2 ^ e)%Z
      else (2 * n * 2 ^ (- e) <= 2 * sm + 2 ^ (- e) < 2 * (n + 1) * 2 ^ (- e))%Z
  | _ => False
  end.

(** [round(100 * position / duration)] for whole numbers of seconds, in
    exact arithmetic: the integer nearest to the quotient, the upper one
    when two are as near. *)
Definition roundedPercent (position duration : Z) : Z :=
  ((2 * (100 * position) + duration) / (2 * duration))%Z.

(** What the specification tracks in a watch record: its identity, the
    position, the duration, the percentage, the completion flag and the
    time stamps of its start and of its completion. *)
Definition trackedState (d : WatchRecord.t)
    : string * string * string * string * number * number * number * bool
      * Date * option Date :=
  (WatchRecord.id d, WatchRecord.profileId d, WatchRecord.laneId d,
   WatchRecord.itemId d, WatchRecord.lastPosition d, WatchRecord.duration d,
   WatchRecord.progressPercent d, WatchRecord.completed d,
   WatchRecord.startedAt d, WatchRecord.completedAt d).

(** ** The badge table of the specification

    The triggers as the specification words them, over the watch history
    and the lane catalogue. *)

(** The number of completed watch records. *)
Definition completedCount (history : list WatchRecord.t) : nat :=
  length (List.filter WatchRecord.completed history).

(** The item has a completed record. *)
Definition hasCompletedRecord (history : list WatchRecord.t) (itemId : string) : Prop :=
  exists r, In r history /\ WatchRecord.completed r = true
            /\ WatchRecord.itemId r = itemId.

(** A lane with at least one item, every item of which has a completed
    record. *)
Definition laneMastered (history : list WatchRecord.t) (lane : LaneWithItems.t) : Prop :=
  LaneWithItems.items lane <> []
  /\ forall item, In item (LaneWithItems.items lane) ->
                  hasCompletedRecord history (LaneItem.id item).

(** The category is that of the lane of some completed record. *)
Definition categorySpanned (history : list WatchRecord.t)
    (lanes : list LaneWithItems.t) (c : LaneCategory) : Prop :=
  exists r lane, In r history /\ WatchRecord.completed r = true
                 /\ findLane lanes (WatchRecord.laneId r) = Some lane
                 /\ LaneWithItems.category lane = c.

Definition badgeDue (b : BadgeType) (history : list WatchRecord.t)
    (lanes : list LaneWithItems.t) : Prop :=
  match b with
  | first_watch => 1 <= completedCount history
  | five_videos => 5 <= completedCount history
  | ten_videos => 10 <= completedCount history
  | twenty_five_videos => 25 <= completedCount history
  | lane_master => exists lane, In lane lanes /\ laneMastered history lane
  | explorer =>
      exists cs : list LaneCategory,
        NoDup cs /\ 4 <= length cs
        /\ forall c, In c cs -> categorySpanned history lanes c
  end.

(** The table on a history that holds one record per item, in the words
    of the specification: counts are counts of completed items, and the
    lane of a record is the lane of the catalogue that carries the
    record's [laneId], the first one if several do. *)





(** The earned-badge documents of a profile and badge kind. *)
Definition badgesOf (store : gmap string EarnedBadge.t) (profileId : string)
    (badgeType : BadgeType) : list EarnedBadge.t :=
  List.filter
    (fun e => bool_decide (EarnedBadge.profileId e = profileId
                           /\ EarnedBadge.badgeType e = badgeType))
    (map snd (map_to_list store)).

(** Every earned-badge document sits under the id built from its own
    profile and kind: the shape [awardBadge] writes. *)
Definition keyedByBadge (store : gmap string EarnedBadge.t) : Prop :=
  forall k e, store !! k = Some e ->
              k = badgeDocId (EarnedBadge.profileId e) (EarnedBadge.badgeType e).

(** The badges that [checkAndAwardBadges] attempts, in its order, each with
    the metadata it passes to [awardBadge]. *)
Definition attempts (watchHistory : list WatchRecord.t)
    (lanes : list LaneWithItems.t)
    : list (BadgeType * option (list (string * string))) :=
  let completedRecords := List.filter WatchRecord.completed watchHistory in
  let totalCompleted := length completedRecords in
  let completedItemIds : gset string :=
    list_to_set (map WatchRecord.itemId completedRecords) in
  ((if (1 <=? totalCompleted)%nat then [(first_watch, None)] else [])
   ++ (if (5 <=? totalCompleted)%nat then [(five_videos, None)] else [])
   ++ (if (10 <=? totalCompleted)%nat then [(ten_videos, None)] else [])
   ++ (if (25 <=? totalCompleted)%nat then [(twenty_five_videos, None)] else [])
   ++ match List.find (laneFullyCompleted completedItemIds) lanes with
      | Some lane => [(lane_master,
                       Some [("laneId", LaneWithItems.id lane);
                             ("laneTitle", LaneWithItems.title lane)])]
      | None => []
      end
   ++ (if (4 <=? size (categoriesOf lanes completedRecords))%nat
       then [(explorer, None)] else []))%list.

(** The profile does not hold the badge yet: no document under its id. *)
Definition notEarned (w : World) (p : string) (b : BadgeType) : bool :=
  bool_decide (earnedBadges w !! badgeDocId p b = None).

(** [awardBadge] for each entry of a list in turn, pushing what is new. *)
Fixpoint awardAll (profileId : string)
    (due : list (BadgeType * option (list (string * string))))
    (newBadges : list EarnedBadge.t) : M (list EarnedBadge.t) :=
  match due with
  | [] => ret newBadges
  | (b, metadata) :: rest =>
      let* badge := awardBadge profileId b metadata in
      awardAll profileId rest (pushBadge newBadges badge)
  end.

(** ** The search step, as the specification words it *)

(** Everything the Search Service returned for the given queries, in the
    order of the calls; a call that failed contributes nothing. *)
Fixpoint returned (youtube : SearchService) (n : nat) (queries : list string)
    : list YouTubeVideoDetails.t :=
  match queries with
  | [] => []
  | query :: rest =>
      (default [] (youtube n (query ++ " for kids educational")%string)
       ++ returned youtube (S n) rest)%list
  end.

(** The videos whose identifier was not seen before, in their order. *)
Fixpoint firstSeen (seen : gset string) (videos : list YouTubeVideoDetails.t)
    : list YouTubeVideoDetails.t :=
  match videos with
  | [] => []
  | v :: rest =>
      if bool_decide (YouTubeVideoDetails.videoId v ∈ seen)
      then firstSeen seen rest
      else v :: firstSeen ({[ YouTubeVideoDetails.videoId v ]} ∪ seen) rest
  end.

(** A service whose failed calls return an empty list instead. *)
Definition failuresAsEmpty (youtube : SearchService) : SearchService :=
  fun n query => Some (default [] (youtube n query)).

(** The identifiers of a list of videos. *)
Definition videoIds (videos : list YouTubeVideoDetails.t) : gset string :=
  list_to_set (map YouTubeVideoDetails.videoId videos).

(** ** Sample data *)

Definition sampleVideo (videoId : string) : YouTubeVideoDetails.t :=
  YouTubeVideoDetails.mk videoId ("Video " ++ videoId) "" "PBS Kids" "UC1" ""
    "PT4M13S" 253%float 1000%float 10%float.

(** The item [.map] builds from a selection and the video it found. *)
Definition itemOf (video : YouTubeVideoDetails.t) (selection : Selection.t)
    : GeneratedItem.t :=
  GeneratedItem.mk
    (YouTubeVideoDetails.title video)
    (YouTubeVideoDetails.thumbnailUrl video)
    youtube_video
    (YouTubeVideoDetails.videoId video)
    false
    (Selection.relevanceScore selection)
    (Selection.reason selection)
    (formatDuration (YouTubeVideoDetails.durationSeconds video))
    (YouTubeVideoDetails.channelTitle video).

(** For the integer [z] as index and [n] candidates: the two comparisons
    of the bounds check decide [0 < z] and [z <= n], and [index - 1]
    denotes [z - 1]. *)
Definition integerIndexFacts (z n : Z) : bool :=
  Bool.eqb (0 <? Z2F z)%float (0 <? z)%Z
  && Bool.eqb (Z2F z <=? Z2F n)%float (z <=? n)%Z
  && match integerValue (Z2F z - 1)%float with
     | Some y => (y =? z - 1)%Z
     | None => false
     end.

(** The integers from [-100] to [100], and the candidate counts up to 20
    (4 queries of 5 results each). *)
Definition smallIndices : list Z := map (fun k => (Z.of_nat k - 100)%Z) (seq 0 201).
Definition smallCounts : list Z := map Z.of_nat (seq 0 21).

(** ** Shapes of text *)

Fixpoint stringForall (P : ascii -> bool) (s : string) : bool :=
  match s with
  | EmptyString => true
  | String c rest => P c && stringForall P rest
  end.

(** Only decimal digits, and at least one. *)
Definition digits (s : string) : bool :=
  negb (String.eqb s "") && stringForall isDigit s.

(** Only white space. *)
Definition allSpaces (s : text) : bool := forallb isSpace s.

Definition startsNonSpace (s : text) : bool :=
  match s with
  | [] => false
  | c :: _ => negb (isSpace c)
  end.

Fixpoint endsNonSpace (s : text) : bool :=
  match s with
  | [] => false
  | [c] => negb (isSpace c)
  | _ :: rest => endsNonSpace rest
  end.

Definition newline : text := [10%N].

(** A fence occurs in the text. *)
Fixpoint hasFence (s : text) : bool :=
  match stripUnits fence s with
  | Some _ => true
  | None =>
      match s with
      | _ :: rest => hasFence rest
      | [] => false
      end
  end.

(** No fence begins in the text, not even one that the two backquotes of
    a fence after it would complete. *)
Definition fenceFree (s : text) : bool :=
  negb (hasFence (s ++ [backquote; backquote])%list).

(** A stand-in for [JSON.parse] in examples: it accepts the texts [{}]
    and [[]], as [JSON.parse] does, and rejects every other text. *)
Definition parseEmptyDocument (s : text) : option text :=
  if bool_decide (s = unitsOf "{}") || bool_decide (s = unitsOf "[]")
  then Some s else None.

(** The number that a string of decimal digits denotes: each digit times
    the power of ten of its place. *)
Fixpoint decimalValue (ds : string) : N :=
  match ds with
  | EmptyString => 0%N
  | String c rest =>
      ((N_of_ascii c - 48) * 10 ^ N.of_nat (String.length rest)
       + decimalValue rest)%N
  end.

(** What a capture of the duration pattern stands for: the number its
    digits denote, and 0 when the component is absent. *)
Definition captureValue (capture : option string) : N :=
  match capture with
  | Some ds => decimalValue ds
  | None => 0%N
  end.

(** An ISO-8601 component: the digits followed by the designator, or
    nothing. *)
Definition isoComponent (ds : option string) (designator : string) : string :=
  match ds with
  | Some d => d ++ designator
  | None => ""
  end.

(** A capture is a non-empty string of digits, when there is one. *)
Definition wellFormedCapture (ds : option string) : bool :=
  match ds with
  | Some d => digits d
  | None => true
  end.

(** A watch record of the sample profile, completed or not. *)
Definition sampleRecord (itemId laneId : string) (completed : bool)
    : WatchRecord.t :=
  WatchRecord.mk ("kid_" ++ itemId) "kid" laneId itemId
    (if completed then 95 else 20)%float 100%float
    (if completed then 95 else 20)%float completed 1000%Z 2000%Z
    (if completed then Some 2000%Z else None).

(** A lane of the sample profile with the given items. *)
Definition sampleLane (id : string) (category : LaneCategory)
    (itemIds : list string) : LaneWithItems.t :=
  LaneWithItems.mk id "kid" ("Lane " ++ id) category true 0%float
    (map (fun i => LaneItem.mk i ("Item " ++ i) "" youtube_video) itemIds).

(** ** Proof support *)

(** The double that holds the integer [p], for [0 < p < 2^53], with sign
    [s]: 53 bits of mantissa, and the exponent to match. *)
Definition canonical (s : bool) (p : positive) : spec_float :=
  let k := (53 - Z.log2 (Z.pos p) - 1)%Z in
  S754_finite s (Z.to_pos (Z.pos p * 2 ^ k)) (- k).

(** Comparisons with the constant 0, decided on the specification of the
    primitive operations by the cases of the other operand. *)
Ltac compare_with_zero x :=
  rewrite ?FloatAxioms.eqb_spec, ?FloatAxioms.ltb_spec, ?FloatAxioms.leb_spec;
  change (Prim2SF 0%float) with (S754_zero false);
  destruct (Prim2SF x) as [[]|[]| |[] ? ?]; cbn;
  try discriminate; try reflexivity.

(* ================================================================== *)
(** * Reading the collections back, and clearing them
      ([src/lib/firestore.ts]) *)
(* ================================================================== *)

(** [getDocs(query(collection, where('profileId', '==', profileId)))]: the
    documents of a collection whose [profileId] field is the given one,
    each with its id.  The order of a snapshot is not modelled: the list is
    in the order of the finite map, and what is stated about it does not
    depend on an order. *)
Definition whereProfileId {V} (profileIdOf : V -> string) (profileId : string)
    (docs : gmap string V) : list (string * V) :=
  List.filter (fun doc => String.eqb (profileIdOf (snd doc)) profileId)
              (map_to_list docs).

Definition getWatchDocs (profileId : string) : M (list (string * WatchRecord.t)) :=
  fun w => Ok (whereProfileId WatchRecord.profileId profileId (watchHistory w)) w.

Definition getBadgeDocs (profileId : string) : M (list (string * EarnedBadge.t)) :=
  fun w => Ok (whereProfileId EarnedBadge.profileId profileId (earnedBadges w)) w.

(** [{ ...data, id: snapshot.id, startedAt: new Date(data.startedAt),
       updatedAt: new Date(data.updatedAt),
       completedAt: data.completedAt ? new Date(data.completedAt) : undefined }] *)
Definition watchRecordOf (docId : string) (data : WatchRecord.t) : WatchRecord.t :=
  WatchRecord.mk docId (WatchRecord.profileId data) (WatchRecord.laneId data)
    (WatchRecord.itemId data) (WatchRecord.lastPosition data)
    (WatchRecord.duration data) (WatchRecord.progressPercent data)
    (WatchRecord.completed data) (WatchRecord.startedAt data)
    (WatchRecord.updatedAt data) (WatchRecord.completedAt data).

(** [{ ...data, id: doc.id, earnedAt: new Date(data.earnedAt) }] *)
Definition earnedBadgeOf (docId : string) (data : EarnedBadge.t) : EarnedBadge.t :=
  EarnedBadge.mk docId (EarnedBadge.profileId data) (EarnedBadge.badgeType data)
    (EarnedBadge.earnedAt data) (EarnedBadge.metadata data).

Definition getWatchRecord (profileId itemId : string) : M (option WatchRecord.t) :=
  let id := watchDocId profileId itemId in
  let* snapshot := getWatchDoc id in
  match snapshot with
  | None => ret None
  | Some data => ret (Some (watchRecordOf id data))
  end.

Definition getWatchHistory (profileId : string) : M (list WatchRecord.t) :=
  tryCatch
    (let* snapshot := getWatchDocs profileId in
     ret (map (fun docSnap => watchRecordOf (fst docSnap) (snd docSnap)) snapshot))
    (fun _ => ret []).

(** [new Set(history.filter(w => w.completed).map(w => w.itemId))] *)
Definition getCompletedItemIds (profileId : string) : M (gset string) :=
  let* history := getWatchHistory profileId in
  ret (list_to_set (map WatchRecord.itemId
                        (List.filter WatchRecord.completed history))).

(** [new Map(entries)]: a later entry for a key replaces an earlier one. *)
Definition Map_of {V} (entries : list (string * V)) : gmap string V :=
  fold_left (fun m entry => <[fst entry := snd entry]> m) entries ∅.

(** [new Map(history.map(w => [w.itemId, w]))], in [getWatchProgressMap]
    and in the computed atom [$watchProgressMap]. *)
Definition watchProgressMap (history : list WatchRecord.t)
    : gmap string WatchRecord.t :=
  Map_of (map (fun w => (WatchRecord.itemId w, w)) history).

Definition getWatchProgressMap (profileId : string)
    : M (gmap string WatchRecord.t) :=
  let* history := getWatchHistory profileId in
  ret (watchProgressMap history).

Definition getEarnedBadges (profileId : string) : M (list EarnedBadge.t) :=
  tryCatch
    (let* snapshot := getBadgeDocs profileId in
     ret (map (fun doc => earnedBadgeOf (fst doc) (snd doc)) snapshot))
    (fun _ => ret []).

(** [writeBatch(db)], one [batch.delete(ref)] per document of the snapshot,
    then [batch.commit()]: the deletions take effect together. *)
Definition deleteWatchDocs (docIds : list string) : M unit :=
  fun w => Ok tt (withWatchHistory (foldr delete (watchHistory w) docIds) w).

Definition deleteBadgeDocs (docIds : list string) : M unit :=
  fun w => Ok tt (withEarnedBadges (foldr delete (earnedBadges w) docIds) w).

Definition clearWatchHistoryForProfile (profileId : string) : M nat :=
  let* snapshot := getWatchDocs profileId in
  deleteWatchDocs (map fst snapshot) ;;;
  ret (length snapshot).

Definition clearBadgesForProfile (profileId : string) : M nat :=
  let* snapshot := getBadgeDocs profileId in
  deleteBadgeDocs (map fst snapshot) ;;;
  ret (length snapshot).

(* ================================================================== *)
(** * The rest of the progress store ([src/stores/progressStore.ts]) *)
(* ================================================================== *)

(** [$completedItemIds] *)
Definition completedItemIds (history : list WatchRecord.t) : gset string :=
  list_to_set (map WatchRecord.itemId (List.filter WatchRecord.completed history)).

(** [$totalCompleted] *)
Definition totalCompleted (history : list WatchRecord.t) : nat :=
  length (List.filter WatchRecord.completed history).

(** [$watchProgressMap.get().get(itemId)] *)
Definition getItemProgress (itemId : string) : M (option WatchRecord.t) :=
  let* store := getStore in
  ret (watchProgressMap (atom_watchHistory store) !! itemId).

Definition clearProgress : M unit :=
  (let* store := getStore in
   setStore (mkProgressStore [] (atom_earnedBadges store) (atom_newBadges store))) ;;;
  (let* store := getStore in
   setStore (mkProgressStore (atom_watchHistory store) [] (atom_newBadges store))) ;;;
  (let* store := getStore in
   setStore (mkProgressStore (atom_watchHistory store) (atom_earnedBadges store) [])).

(* ================================================================== *)
(** * Notions used in the statements about the collections *)
(* ================================================================== *)

(** Every watch document sits under the id built from its own profile and
    item: the shape [updateWatchProgress] writes. *)
Definition keyedByWatch (store : gmap string WatchRecord.t) : Prop :=
  forall k d, store !! k = Some d ->
              k = watchDocId (WatchRecord.profileId d) (WatchRecord.itemId d).

(** The document under the id of the pair, when there is one, is the
    pair's own. *)
Definition ownsWatchDoc (store : gmap string WatchRecord.t)
    (profileId itemId : string) : Prop :=
  forall d, store !! watchDocId profileId itemId = Some d ->
            WatchRecord.profileId d = profileId /\ WatchRecord.itemId d = itemId.

(** The fields of a watch record that a progress report determines. *)
Definition progressOf (r : WatchRecord.t)
    : number * number * number * bool * Date * Date * option Date :=
  (WatchRecord.lastPosition r, WatchRecord.duration r,
   WatchRecord.progressPercent r, WatchRecord.completed r,
   WatchRecord.startedAt r, WatchRecord.updatedAt r, WatchRecord.completedAt r).

(** No underscore in the string. *)
Definition noUnderscore (s : string) : bool :=
  stringForall (fun c => negb (Ascii.eqb c "_")) s.

(** The local history after a report: [updatedHistory] of
    [saveWatchProgress], for the record [updateWatchProgress] handed back. *)
Definition updatedHistoryOf (itemId : string) (record : WatchRecord.t)
    (currentHistory : list WatchRecord.t) : list WatchRecord.t :=
  match findIndex (fun w => String.eqb (WatchRecord.itemId w) itemId)
                  currentHistory with
  | Some i => <[i := record]> currentHistory
  | None => (currentHistory ++ [record])%list
  end.

(* ================================================================== *)
(** * Video identifiers ([extractYouTubeVideoId]) *)
(* ================================================================== *)

(** [[^&\n?#]] *)
Definition isIdChar (c : ascii) : bool :=
  negb (Ascii.eqb c "&" || Ascii.eqb c (ascii_of_nat 10)
        || Ascii.eqb c "?" || Ascii.eqb c "#").

(** The longest prefix of [s] made of characters of a class. *)
Fixpoint takeWhile (P : ascii -> bool) (s : string) : string :=
  match s with
  | String c rest => if P c then String c (takeWhile P rest) else EmptyString
  | EmptyString => EmptyString
  end.

(** [([^&\n?#]+)] at the start of [s] and at the end of the pattern: the
    greedy run is the longest one, and it has at least one character. *)
Definition idRun (s : string) : option string :=
  match takeWhile isIdChar s with
  | EmptyString => None
  | run => Some run
  end.

(** One alternative of the group, followed by the capture. *)
Definition afterMarker (marker s : string) : option string :=
  match stripPrefix marker s with
  | Some r => idRun r
  | None => None
  end.

(** [(?:youtube\.com\/watch\?v=|youtu\.be\/|youtube\.com\/embed\/)([^&\n?#]+)]
    anchored at the start of [s]: the alternatives in their order, the next
    one when the capture fails after the one before. *)
Definition videoUrlAt (s : string) : option string :=
  match afterMarker "youtube.com/watch?v=" s with
  | Some id => Some id
  | None =>
      match afterMarker "youtu.be/" s with
      | Some id => Some id
      | None => afterMarker "youtube.com/embed/" s
      end
  end.

(** [url.match(patterns[0])]: capture 1 of the leftmost match. *)
Fixpoint videoUrlMatch (url : string) : option string :=
  match videoUrlAt url with
  | Some id => Some id
  | None =>
      match url with
      | String _ rest => videoUrlMatch rest
      | EmptyString => None
      end
  end.

(** [[a-zA-Z0-9_-]] *)
Definition isVideoIdChar (c : ascii) : bool :=
  let n := nat_of_ascii c in
  (((97 <=? n) && (n <=? 122)) || ((65 <=? n) && (n <=? 90))
   || ((48 <=? n) && (n <=? 57)) || (n =? 95) || (n =? 45))%nat.

(** [url.match(/^([a-zA-Z0-9_-]{11})$/)] *)
Definition directVideoId (url : string) : option string :=
  if (String.length url =? 11)%nat && stringForall isVideoIdChar url
  then Some url else None.

Definition extractYouTubeVideoId (url : string) : option string :=
  match videoUrlMatch url with
  | Some id => Some id
  | None => directVideoId url
  end.

(** No letter [y] in the string: no alternative of the pattern can start
    inside it. *)
Definition noMarkerStart (s : string) : bool :=
  stringForall (fun c => negb (Ascii.eqb c "y")) s.

(** The text after an identifier in a URL: nothing, or text that starts
    with one of the delimiters [&], line feed, [?] and [#]. *)
Definition endsId (rest : string) : bool :=
  match rest with
  | EmptyString => true
  | String c _ => negb (isIdChar c)
  end.

(** The three markers of the first pattern. *)
Definition markers : list string :=
  ["youtube.com/watch?v="; "youtu.be/"; "youtube.com/embed/"].

(** The numbers below 60, the minutes and seconds of a clock. *)
Definition sexagesimal : list N := map N.of_nat (seq 0 60).

(** [f] holds of the integers [0, 1, ..., n - 1]. *)
Definition allBelow (f : Z -> bool) (n : positive) : bool :=
  snd (Pos.iter (fun st => (fst st + 1, snd st && f (fst st))%Z) (0%Z, true) n).

(** The Number of a small natural number, by the conversion of the
    processor. *)
Definition numberOf (z : Z) : number := of_uint63 (Uint63.of_Z z).

(** For a whole number of seconds: [Math.floor(seconds / 3600)] is the
    number of whole hours. *)
Definition hoursFact (seconds : Z) : bool :=
  PrimFloat.Leibniz.eqb (Math_floor (numberOf seconds / 3600))
                        (numberOf (seconds / 3600)).

(** For a whole number of seconds: [Math.floor(seconds / 60)] is the
    number of whole minutes. *)
Definition minutesFact (seconds : Z) : bool :=
  PrimFloat.Leibniz.eqb (Math_floor (numberOf seconds / 60))
                        (numberOf (seconds / 60)).

(** A natural number prints as its decimal digits, and it is positive as
    a Number exactly when it is positive. *)
Definition printFact (k : Z) : bool :=
  String.eqb (Number_toString (numberOf k)) (toString (Z.to_N k))
  && Bool.eqb (0 <? numberOf k)%float (0 <? k)%Z.

(** A Search Service for examples: the second call fails, the others
    return two videos each, one of them seen before. *)
Definition sampleService : SearchService :=
  fun n _ =>
    match n with
    | 0%nat => Some [sampleVideo "a"; sampleVideo "b"]
    | 1%nat => None
    | _ => Some [sampleVideo "b"; sampleVideo "c"]
    end.

(** The time stamps of a watch record are in order, none later than [now]:
    started, then completed (if it is stamped), then last updated; and a
    completed record is stamped. *)
Definition stampedInOrder (now : Date) (d : WatchRecord.t) : Prop :=
  (WatchRecord.startedAt d <= WatchRecord.updatedAt d)%Z
  /\ (WatchRecord.updatedAt d <= now)%Z
  /\ (forall t, WatchRecord.completedAt d = Some t ->
                (WatchRecord.startedAt d <= t <= WatchRecord.updatedAt d)%Z)
  /\ (WatchRecord.completed d = true -> is_Some (WatchRecord.completedAt d)).

(** The clock never goes back. *)
Definition monotoneClock (clock : nat -> Date) : Prop :=
  forall n m, n <= m -> (clock n <= clock m)%Z.

(* ================================================================== *)
(** * The lane catalogue ([src/lib/firestore.ts], lanes and items) *)
(* ================================================================== *)

Module Lane.
Record t := mk {
  id : string;
  profileId : string;
  title : string;
  category : LaneCategory;
  isActive : bool;
  sortOrder : number
}.
End Lane.

(** [Partial<Lane>]: the fields an update carries. *)
Module LaneUpdates.
Record t := mk {
  id : option string;
  profileId : option string;
  title : option string;
  category : option LaneCategory;
  isActive : option bool;
  sortOrder : option number
}.
End LaneUpdates.

(** The collection [lanes], the subcollections [lanes/{laneId}/items] (the
    items of a lane under the id of the lane, whether or not a lane
    document exists under it), and the source of identifiers: [uuids n] is
    what the [n]-th call of [uuidv4()] returns.  The payload [data] of an
    item is carried along by every operation and is not modelled. *)
Record Catalog := mkCatalog {
  laneDocs : gmap string Lane.t;
  itemDocs : gmap string (gmap string LaneItem.t);
  uuids : nat -> string;
  drawn : nat
}.

(** [getDocs(collection(db, 'lanes', laneId, 'items'))], in the order of
    the finite map. *)
Definition itemsOf (c : Catalog) (laneId : string) : gmap string LaneItem.t :=
  default ∅ (itemDocs c !! laneId).

(** [{ id: doc.id, ...doc.data() }] for an item document: the [id] field of
    the data, which every writer of the collection sets, comes last. *)
Definition getItemsForLane (laneId : string) (c : Catalog) : list LaneItem.t :=
  map snd (map_to_list (itemsOf c laneId)).

Definition getLaneWithItems (laneId : string) (c : Catalog)
    : option LaneWithItems.t :=
  match laneDocs c !! laneId with
  | None => None
  | Some lane =>
      let items := getItemsForLane laneId c in
      Some (LaneWithItems.mk (Lane.id lane) (Lane.profileId lane)
              (Lane.title lane) (Lane.category lane) (Lane.isActive lane)
              (Lane.sortOrder lane) items)
  end.

(** [createLane]: the [id] of the argument is not read
    ([Omit<Lane, 'id'>]). *)
Definition createLane (lane : Lane.t) (c : Catalog) : Lane.t * Catalog :=
  let id := "lane-" ++ uuids c (drawn c) in
  let laneWithId :=
    Lane.mk id (Lane.profileId lane) (Lane.title lane) (Lane.category lane)
            (Lane.isActive lane) (Lane.sortOrder lane) in
  (laneWithId,
   mkCatalog (<[id := laneWithId]> (laneDocs c)) (itemDocs c) (uuids c)
             (S (drawn c))).

(** The document after [updateDoc(ref, updates)]. *)
Definition mergeLane (updates : LaneUpdates.t) (d : Lane.t) : Lane.t :=
  Lane.mk (default (Lane.id d) (LaneUpdates.id updates))
          (default (Lane.profileId d) (LaneUpdates.profileId updates))
          (default (Lane.title d) (LaneUpdates.title updates))
          (default (Lane.category d) (LaneUpdates.category updates))
          (default (Lane.isActive d) (LaneUpdates.isActive updates))
          (default (Lane.sortOrder d) (LaneUpdates.sortOrder updates)).

(** [updateLane]: [updateDoc] is rejected when there is no such lane. *)
Definition updateLane (laneId : string) (updates : LaneUpdates.t) (c : Catalog)
    : Result Catalog :=
  match laneDocs c !! laneId with
  | Some d =>
      Returns (mkCatalog (<[laneId := mergeLane updates d]> (laneDocs c))
                         (itemDocs c) (uuids c) (drawn c))
  | None => Throws (NotFound laneId)
  end.

(** [deleteLane]: one batch deletes every item of the lane and the lane. *)
Definition deleteLane (laneId : string) (c : Catalog) : Catalog :=
  let itemIds := map fst (map_to_list (itemsOf c laneId)) in
  mkCatalog (delete laneId (laneDocs c))
            (<[laneId := foldr delete (itemsOf c laneId) itemIds]> (itemDocs c))
            (uuids c) (drawn c).

(** [createItem]: the [id] of the argument is not read. *)
Definition createItem (laneId : string) (item : LaneItem.t) (c : Catalog)
    : LaneItem.t * Catalog :=
  let id := "item-" ++ uuids c (drawn c) in
  let itemWithId :=
    LaneItem.mk id (LaneItem.title item) (LaneItem.thumbnailUrl item)
                (LaneItem.type item) in
  (itemWithId,
   mkCatalog (laneDocs c)
             (<[laneId := <[id := itemWithId]> (itemsOf c laneId)]> (itemDocs c))
             (uuids c) (S (drawn c))).

Definition deleteItem (laneId itemId : string) (c : Catalog) : Catalog :=
  mkCatalog (laneDocs c)
            (<[laneId := delete itemId (itemsOf c laneId)]> (itemDocs c))
            (uuids c) (drawn c).

(** [x || 0] for a Number [x]: 0 when [x] is 0, -0 or NaN. *)
Definition orZero (x : number) : number :=
  if (x =? 0)%float || negb (x =? x)%float then 0%float else x.

(** [array.sort(compareFn)]: the sort is stable; an element is moved
    behind another one only where the comparator says so
    ([compareFn(a, b) > 0]). *)
Fixpoint insertSorted {A} (compareFn : A -> A -> number) (x : A)
    (sorted : list A) : list A :=
  match sorted with
  | [] => [x]
  | y :: rest =>
      if (0 <? compareFn x y)%float
      then y :: insertSorted compareFn x rest
      else x :: sorted
  end.

Definition Array_sort {A} (compareFn : A -> A -> number) (array : list A)
    : list A :=
  foldr (insertSorted compareFn) [] array.

(** [getLanesForProfile]: the lanes of the profile, the inactive ones only
    on request, by [sortOrder].  Nothing in the body throws here, so the
    [catch] branch, which returns the empty list, is never taken. *)
Definition getLanesForProfile (profileId : string) (includeInactive : bool)
    (c : Catalog) : list Lane.t :=
  let snapshot := whereProfileId Lane.profileId profileId (laneDocs c) in
  let lanes := map snd snapshot in
  let lanes := if negb includeInactive then List.filter Lane.isActive lanes
               else lanes in
  Array_sort (fun a b => (orZero (Lane.sortOrder a) - orZero (Lane.sortOrder b))%float)
             lanes.

(** A catalogue with nothing in it. *)
Definition emptyCatalog (uuids : nat -> string) : Catalog :=
  mkCatalog ∅ ∅ uuids 0.

(** Identifiers for examples: [u0], [u1], ... *)
Definition sampleUuids (n : nat) : string := "u" ++ toString (N.of_nat n).

(** [{ isActive: b }], the update of the lane manager's toggle. *)
Definition setActive (b : bool) : LaneUpdates.t :=
  LaneUpdates.mk None None None None (Some b) None.

(** The integer a lane's sort order denotes (0 when it denotes none). *)
Definition sortKey (lane : Lane.t) : Z :=
  default 0%Z (integerValue (Lane.sortOrder lane)).

(** For the integers [a] and [b] as sort orders: the comparator of
    [getLanesForProfile] is positive exactly when [b < a], and the order
    [a] reads back as [a]. *)
Definition sortOrderFacts (a b : Z) : bool :=
  Bool.eqb (0 <? orZero (Z2F a) - orZero (Z2F b))%float (b <? a)%Z
  && match integerValue (Z2F a) with
     | Some z => (z =? a)%Z
     | None => false
     end.

(** ** The items of a generated lane *)

(** Step 4 of [generate] with its sort: the items built from the
    selections, then
    [selectedItems.sort((a, b) => b.relevanceScore - a.relevanceScore)]. *)
Definition laneItems (selectedVideos : list Selection.t)
    (allVideos : list YouTubeVideoDetails.t) (maxVideos : Z)
    : Result (list GeneratedItem.t) :=
  match selectedItems selectedVideos allVideos maxVideos with
  | Returns items =>
      Returns (Array_sort
                 (fun a b => (GeneratedItem.relevanceScore b
                              - GeneratedItem.relevanceScore a)%float)
                 items)
  | Throws e => Throws e
  end.

(** The integer a relevance score denotes (0 when it denotes none). *)
Definition scoreOf (item : GeneratedItem.t) : Z :=
  default 0%Z (integerValue (GeneratedItem.relevanceScore item)).

(** The whole scores from 0 to 100. *)
Definition wholeScores : list Z := map Z.of_nat (seq 0 101).

(** For the integers [a] and [b] as scores of the items [x] and [y]: the
    comparator of the sort is positive exactly when [x] scores less than
    [y]. *)
Definition scoreFacts (a b : Z) : bool :=
  Bool.eqb (0 <? Z2F b - Z2F a)%float (a <? b)%Z.


(* ================================================================== *)
(** * JavaScript numbers: the integers below 2^53 are exact *)
(* ================================================================== *)

(** The operations on doubles are specified by the Standard Library on
    mantissas and exponents ([SpecFloat]).  An integer below 2^53 has a
    double of its own: rounding it shifts its mantissa and loses no bit. *)

Lemma digits2_pos_log2 p : Z.pos (digits2_pos p) = (Z.log2 (Z.pos p) + 1)%Z.
Proof.
  induction p as [p IH|p IH|]; cbn [digits2_pos]; [| |reflexivity].
  - rewrite Pos2Z.inj_succ, IH.
    change (Z.pos p~1) with (2 * Z.pos p + 1)%Z. rewrite Z.log2_succ_double by lia. lia.
  - rewrite Pos2Z.inj_succ, IH.
    change (Z.pos p~0) with (2 * Z.pos p)%Z. rewrite Z.log2_double by lia. lia.
Qed.

Lemma iter_pos_iter {A} (f : A -> A) (n : positive) (x : A) :
  SpecFloat.iter_pos f n x = Pos.iter f x n.
Proof.
  revert x. induction n as [n IH|n IH|]; intros x; cbn.
  - rewrite !IH. by rewrite <- !Pos.iter_swap.
  - by rewrite !IH.
  - reflexivity.
Qed.

Lemma shr_1_even m :
  (0 < m)%Z ->
  shr_1 (Build_shr_record (2 * m) false false) = Build_shr_record m false false.
Proof. destruct m; try lia. reflexivity. Qed.

Lemma shr_exact n m :
  (0 < m)%Z ->
  SpecFloat.iter_pos shr_1 n (Build_shr_record (m * 2 ^ Z.pos n) false false)
  = Build_shr_record m false false.
Proof.
  rewrite iter_pos_iter. revert m.
  induction n as [|n IH] using Pos.peano_ind; intros m Hm.
  - cbn [Pos.iter]. rewrite <- (shr_1_even m Hm). f_equal. f_equal. lia.
  - rewrite Pos.iter_succ_r.
    replace (m * 2 ^ Z.pos (Pos.succ n))%Z with (2 * (m * 2 ^ Z.pos n))%Z.
    + rewrite shr_1_even by lia. by apply IH.
    + rewrite Pos2Z.inj_succ, Z.pow_succ_r by lia. lia.
Qed.

Lemma Zdigits2_log2 m : (0 < m)%Z -> Zdigits2 m = (Z.log2 m + 1)%Z.
Proof. destruct m as [|p|p]; try lia. intros _. apply digits2_pos_log2. Qed.

Lemma shr_fexp_exact p k :
  (Z.pos p < 2 ^ 53)%Z -> (53 - Z.log2 (Z.pos p) - 1 <= k)%Z ->
  shr_fexp prec emax (Z.pos p * 2 ^ k) (- k) loc_Exact
  = (Build_shr_record (Z.pos p * 2 ^ (53 - Z.log2 (Z.pos p) - 1)) false false,
     (- (53 - Z.log2 (Z.pos p) - 1))%Z).
Proof.
  intros Hp Hk.
  assert (Hlog : (0 <= Z.log2 (Z.pos p) < 53)%Z).
  { split; [apply Z.log2_nonneg|]. apply Z.log2_lt_pow2; lia. }
  set (kc := (53 - Z.log2 (Z.pos p) - 1)%Z) in *.
  assert (Hpos : (0 < Z.pos p * 2 ^ k)%Z) by (apply Z.mul_pos_pos; [lia|apply Z.pow_pos_nonneg; lia]).
  unfold shr_fexp. rewrite Zdigits2_log2 by exact Hpos.
  rewrite Z.log2_mul_pow2 by lia.
  unfold fexp, emin. change prec with 53%Z. change emax with 1024%Z.
  cbn [shr_record_of_loc].
  replace (Z.max (k + Z.log2 (Z.pos p) + 1 + - k - 53) (3 - 1024 - 53) - - k)%Z
    with (k - kc)%Z by lia.
  unfold shr. destruct (k - kc)%Z as [|n|n] eqn:En; try lia.
  - replace k with kc by lia. reflexivity.
  - replace (Z.pos p * 2 ^ k)%Z with ((Z.pos p * 2 ^ kc) * 2 ^ Z.pos n)%Z.
    + rewrite shr_exact; [f_equal; lia|].
      apply Z.mul_pos_pos; [lia|apply Z.pow_pos_nonneg; lia].
    + rewrite <- Z.mul_assoc, <- Z.pow_add_r by lia. f_equal. f_equal. lia.
Qed.

Lemma binary_round_aux_exact s p k :
  (Z.pos p < 2 ^ 53)%Z -> (53 - Z.log2 (Z.pos p) - 1 <= k)%Z ->
  binary_round_aux prec emax s (Z.pos p * 2 ^ k) (- k) loc_Exact = canonical s p.
Proof.
  intros Hp Hk.
  assert (Hlog : (0 <= Z.log2 (Z.pos p) < 53)%Z).
  { split; [apply Z.log2_nonneg|]. apply Z.log2_lt_pow2; lia. }
  unfold binary_round_aux. rewrite shr_fexp_exact by assumption.
  cbn [shr_m loc_of_shr_record round_nearest_even].
  rewrite shr_fexp_exact by (assumption || lia).
  cbn [shr_m]. unfold canonical. cbv zeta.
  set (kc := (53 - Z.log2 (Z.pos p) - 1)%Z) in *.
  assert (Hpos : (0 < Z.pos p * 2 ^ kc)%Z) by (apply Z.mul_pos_pos; [lia|apply Z.pow_pos_nonneg; lia]).
  destruct (Z.pos p * 2 ^ kc)%Z as [|m|m] eqn:Em; try lia.
  change prec with 53%Z. change emax with 1024%Z.
  replace (- kc <=? 1024 - 53)%Z with true by (symmetry; apply Z.leb_le; lia).
  reflexivity.
Qed.

Lemma iter_xO p d : Z.pos (Pos.iter xO p d) = (Z.pos p * 2 ^ Z.pos d)%Z.
Proof.
  induction d as [|d IH] using Pos.peano_ind.
  - cbn [Pos.iter]. lia.
  - rewrite Pos.iter_succ, Pos2Z.inj_xO, IH, Pos2Z.inj_succ, Z.pow_succ_r by lia. lia.
Qed.

Lemma log2_bound p : (Z.pos p < 2 ^ 53)%Z -> (0 <= Z.log2 (Z.pos p) < 53)%Z.
Proof. intros Hp. split; [apply Z.log2_nonneg|]. apply Z.log2_lt_pow2; lia. Qed.

Lemma binary_round_exact s p q k :
  (Z.pos p < 2 ^ 53)%Z -> (0 <= k)%Z -> Z.pos q = (Z.pos p * 2 ^ k)%Z ->
  binary_round prec emax s q (- k) = canonical s p.
Proof.
  intros Hp Hk Hq. pose proof (log2_bound p Hp) as Hlog.
  unfold binary_round. rewrite digits2_pos_log2, Hq, Z.log2_mul_pow2 by lia.
  unfold fexp, emin. change prec with 53%Z. change emax with 1024%Z.
  unfold shl_align.
  set (kc := (53 - Z.log2 (Z.pos p) - 1)%Z) in *.
  replace (Z.max (k + Z.log2 (Z.pos p) + 1 + - k - 53) (3 - 1024 - 53) - - k)%Z
    with (k - kc)%Z by lia.
  destruct (k - kc)%Z as [|d|d] eqn:Ed.
  - rewrite Hq. apply binary_round_aux_exact; [exact Hp|fold kc; lia].
  - rewrite Hq. apply binary_round_aux_exact; [exact Hp|fold kc; lia].
  - rewrite iter_xO, Hq, <- Z.mul_assoc, <- Z.pow_add_r by lia.
    replace (Z.max (k + Z.log2 (Z.pos p) + 1 + - k - 53) (3 - 1024 - 53))%Z
      with (- kc)%Z by lia.
    replace (k + Z.pos d)%Z with kc by lia.
    apply binary_round_aux_exact; [exact Hp|fold kc; lia].
Qed.

Lemma canonical_valid s p :
  (Z.pos p < 2 ^ 53)%Z -> valid_binary (canonical s p) = true.
Proof.
  intros Hp. pose proof (log2_bound p Hp) as Hlog.
  unfold canonical, SpecFloat.valid_binary, bounded, canonical_mantissa. cbv zeta.
  set (kc := (53 - Z.log2 (Z.pos p) - 1)%Z) in *.
  assert (Hpos : (0 < Z.pos p * 2 ^ kc)%Z)
    by (apply Z.mul_pos_pos; [lia|apply Z.pow_pos_nonneg; lia]).
  rewrite digits2_pos_log2, Z2Pos.id, Z.log2_mul_pow2 by lia.
  unfold fexp, emin. change prec with 53%Z. change emax with 1024%Z.
  apply andb_true_iff. split; [apply Z.eqb_eq|apply Z.leb_le]; lia.
Qed.

(** The Number of a non-zero integer below 2^53 in absolute value. *)
Lemma Prim2SF_Z2F z :
  (z <> 0)%Z -> (Z.abs z < 2 ^ 53)%Z ->
  Prim2SF (Z2F z) = canonical (z <? 0)%Z (Z.to_pos (Z.abs z)).
Proof.
  intros Hz Hb. unfold Z2F.
  assert (E : binary_normalize prec emax z 0 false
              = canonical (z <? 0)%Z (Z.to_pos (Z.abs z))).
  { destruct z as [|p|p]; [congruence| |]; cbn [binary_normalize Z.abs Z.to_pos Z.ltb Z.compare];
      apply (binary_round_exact _ p p 0); lia. }
  rewrite E. apply Prim2SF_SF2Prim, canonical_valid.
  destruct z; cbn in *; lia.
Qed.

Lemma Z2F_zero : Prim2SF (Z2F 0) = S754_zero false.
Proof. reflexivity. Qed.

Lemma integerValue_canonical s p x :
  (Z.pos p < 2 ^ 53)%Z -> Prim2SF x = canonical s p ->
  integerValue x = Some (if s then Z.neg p else Z.pos p).
Proof.
  intros Hp Hx. pose proof (log2_bound p Hp) as Hlog.
  unfold integerValue. rewrite Hx. unfold canonical. cbv zeta.
  set (kc := (53 - Z.log2 (Z.pos p) - 1)%Z) in *.
  assert (Hpos : (0 < Z.pos p * 2 ^ kc)%Z)
    by (apply Z.mul_pos_pos; [lia|apply Z.pow_pos_nonneg; lia]).
  assert (Hsm : (if s then Z.neg (Z.to_pos (Z.pos p * 2 ^ kc))
                 else Z.pos (Z.to_pos (Z.pos p * 2 ^ kc)))
                = ((if s then Z.neg p else Z.pos p) * 2 ^ kc)%Z).
  { destruct s; [rewrite <- Pos2Z.opp_pos|]; rewrite Z2Pos.id by lia; lia. }
  rewrite Hsm, Z2Pos.id, Z.opp_involutive by lia.
  destruct (0 <=? - kc)%Z eqn:E.
  - apply Z.leb_le in E. replace kc with 0%Z by lia.
    rewrite Z.shiftl_0_r. f_equal. cbn. lia.
  - rewrite Z.land_ones, Z.mod_mul by lia. cbn [Z.eqb].
    rewrite Z.shiftr_div_pow2, Z.div_mul by lia. reflexivity.
Qed.

Theorem integerValue_Z2F z :
  (Z.abs z < 2 ^ 53)%Z -> integerValue (Z2F z) = Some z.
Proof.
  intros Hb. destruct (Z.eq_dec z 0%Z) as [->|Hz]; [reflexivity|].
  assert (Hp : (Z.pos (Z.to_pos (Z.abs z)) < 2 ^ 53)%Z) by (rewrite Z2Pos.id; lia).
  rewrite (integerValue_canonical _ _ _ Hp (Prim2SF_Z2F z Hz Hb)).
  destruct z; [congruence| |]; reflexivity.
Qed.

Lemma Prim2SF_Z2F_pos p :
  (Z.pos p < 2 ^ 53)%Z -> Prim2SF (Z2F (Z.pos p)) = canonical false p.
Proof. intros Hp. by rewrite Prim2SF_Z2F. Qed.

Lemma canonical_mantissa_pos p :
  (Z.pos p < 2 ^ 53)%Z ->
  Z.pos (Z.to_pos (Z.pos p * 2 ^ (53 - Z.log2 (Z.pos p) - 1)))
  = (Z.pos p * 2 ^ (53 - Z.log2 (Z.pos p) - 1))%Z.
Proof.
  intros Hp. pose proof (log2_bound p Hp). rewrite Z2Pos.id; [reflexivity|].
  apply Z.mul_pos_pos; [lia|apply Z.pow_pos_nonneg; lia].
Qed.

(** Products of natural numbers are exact below 2^53. *)
Theorem Z2F_mul a b :
  (0 <= a < 2 ^ 53)%Z -> (0 <= b < 2 ^ 53)%Z -> (a * b < 2 ^ 53)%Z ->
  (Z2F a * Z2F b)%float = Z2F (a * b).
Proof.
  intros Ha Hb Hab. apply Prim2SF_inj. rewrite mul_spec.
  destruct a as [|pa|pa]; [| |lia].
  { rewrite Z.mul_0_l, Z2F_zero.
    destruct b as [|pb|pb]; [reflexivity| |lia].
    rewrite Prim2SF_Z2F_pos by lia. reflexivity. }
  destruct b as [|pb|pb]; [| |lia].
  { rewrite Z.mul_0_r, Z2F_zero, Prim2SF_Z2F_pos by lia. reflexivity. }
  assert (Hpa : (Z.pos pa < 2 ^ 53)%Z) by lia.
  assert (Hpb : (Z.pos pb < 2 ^ 53)%Z) by lia.
  rewrite !Prim2SF_Z2F_pos by assumption.
  change (Z.pos pa * Z.pos pb)%Z with (Z.pos (pa * pb)) in *.
  rewrite Prim2SF_Z2F_pos by assumption.
  pose proof (log2_bound pa Hpa) as Hla. pose proof (log2_bound pb Hpb) as Hlb.
  pose proof (Z.log2_mul_below (Z.pos pa) (Z.pos pb) ltac:(lia) ltac:(lia)) as Hl.
  unfold SF64mul, canonical at 1 2, SFmul. cbv zeta. cbn [xorb].
  rewrite Pos2Z.inj_mul, !canonical_mantissa_pos by assumption.
  set (ka := (53 - Z.log2 (Z.pos pa) - 1)%Z) in *.
  set (kb := (53 - Z.log2 (Z.pos pb) - 1)%Z) in *.
  replace (Z.pos pa * 2 ^ ka * (Z.pos pb * 2 ^ kb))%Z
    with (Z.pos (pa * pb) * 2 ^ (ka + kb))%Z
    by (rewrite Z.pow_add_r by lia; lia).
  replace (- ka + - kb)%Z with (- (ka + kb))%Z by lia.
  apply binary_round_aux_exact; [exact Hab|]. rewrite Pos2Z.inj_mul. lia.
Qed.

Lemma shl_align_canonical m k K :
  (0 <= k <= K)%Z ->
  Z.pos (fst (shl_align m (- k) (- K))) = (Z.pos m * 2 ^ (K - k))%Z.
Proof.
  intros H. unfold shl_align. destruct (- K - - k)%Z as [|d|d] eqn:E; cbn [fst].
  - replace (K - k)%Z with 0%Z by lia. lia.
  - lia.
  - rewrite iter_xO. f_equal. f_equal. lia.
Qed.

(** Sums of natural numbers are exact below 2^53. *)
Theorem Z2F_add a b :
  (0 <= a)%Z -> (0 <= b)%Z -> (a + b < 2 ^ 53)%Z ->
  (Z2F a + Z2F b)%float = Z2F (a + b).
Proof.
  intros Ha Hb Hab. apply Prim2SF_inj. rewrite add_spec.
  destruct a as [|pa|pa]; [|clear Ha|lia].
  { rewrite Z.add_0_l, Z2F_zero.
    destruct b as [|pb|pb]; [reflexivity| |lia].
    rewrite Prim2SF_Z2F_pos by lia. reflexivity. }
  destruct b as [|pb|pb]; [|clear Hb|lia].
  { rewrite Z.add_0_r, Z2F_zero, Prim2SF_Z2F_pos by lia. reflexivity. }
  assert (Hpa : (Z.pos pa < 2 ^ 53)%Z) by lia.
  assert (Hpb : (Z.pos pb < 2 ^ 53)%Z) by lia.
  rewrite !Prim2SF_Z2F_pos by assumption.
  change (Z.pos pa + Z.pos pb)%Z with (Z.pos (pa + pb)) in *.
  rewrite Prim2SF_Z2F_pos by assumption.
  pose proof (log2_bound pa Hpa) as Hla. pose proof (log2_bound pb Hpb) as Hlb.
  unfold SF64add, canonical at 1 2, SFadd. cbv zeta. cbn [cond_Zopp].
  set (ka := (53 - Z.log2 (Z.pos pa) - 1)%Z) in *.
  set (kb := (53 - Z.log2 (Z.pos pb) - 1)%Z) in *.
  replace (Z.min (- ka) (- kb)) with (- Z.max ka kb)%Z by lia.
  rewrite !shl_align_canonical by lia.
  subst ka kb. rewrite !canonical_mantissa_pos by assumption.
  set (ka := (53 - Z.log2 (Z.pos pa) - 1)%Z) in *.
  set (kb := (53 - Z.log2 (Z.pos pb) - 1)%Z) in *.
  replace (Z.pos pa * 2 ^ ka * 2 ^ (Z.max ka kb - ka)
           + Z.pos pb * 2 ^ kb * 2 ^ (Z.max ka kb - kb))%Z
    with (Z.pos (pa + pb) * 2 ^ Z.max ka kb)%Z.
  - assert (Hq : (0 < Z.pos (pa + pb) * 2 ^ Z.max ka kb)%Z)
      by (apply Z.mul_pos_pos; [lia|apply Z.pow_pos_nonneg; lia]).
    destruct (Z.pos (pa + pb) * 2 ^ Z.max ka kb)%Z as [|q|q] eqn:Eq; try lia.
    cbn [binary_normalize]. apply binary_round_exact; [exact Hab|lia|by symmetry].
  - rewrite <- !Z.mul_assoc, <- !Z.pow_add_r by lia.
    replace (ka + (Z.max ka kb - ka))%Z with (Z.max ka kb) by lia.
    replace (kb + (Z.max ka kb - kb))%Z with (Z.max ka kb) by lia.
    rewrite Pos2Z.inj_add. lia.
Qed.

(** The mantissa of a double has 53 bits at most. *)
Lemma mantissa_bound x s m e :
  Prim2SF x = S754_finite s m e -> (Z.pos m < 2 ^ 53)%Z.
Proof.
  intros H. pose proof (Prim2SF_valid x) as V. rewrite H in V.
  unfold SpecFloat.valid_binary, bounded, canonical_mantissa in V.
  apply andb_true_iff in V as [V _]. apply Z.eqb_eq in V.
  rewrite digits2_pos_log2 in V. unfold fexp, emin in V.
  change prec with 53%Z in V. change emax with 1024%Z in V.
  apply Z.log2_lt_pow2; lia.
Qed.

(** [Math.round] of a finite double is the integer nearest to it, the
    upper one when two are as near. *)
Lemma Math_round_nearest x :
  isFinite x = true ->
  exists n, nearestInteger x n /\ integerValue (Math_round x) = Some n.
Proof.
  unfold isFinite, nearestInteger, Math_round.
  destruct (Prim2SF x) as [s0|s0| |s m e] eqn:E; try discriminate; intros _.
  - exists 0%Z. split; [reflexivity|]. unfold integerValue. by rewrite E.
  - pose proof (mantissa_bound _ _ _ _ E) as Hm. cbv zeta.
    destruct (0 <=? e)%Z eqn:He.
    + eexists. split; [reflexivity|]. unfold integerValue. rewrite E, He.
      apply Z.leb_le in He. by rewrite Z.shiftl_mul_pow2.
    + apply Z.leb_gt in He.
      set (sm := if s then Z.neg m else Z.pos m).
      set (D := (2 ^ (- e))%Z).
      assert (HD : (2 <= D)%Z).
      { unfold D. replace (- e)%Z with (Z.succ (- e - 1)) by lia.
        rewrite Z.pow_succ_r by lia.
        pose proof (Z.pow_pos_nonneg 2 (- e - 1) ltac:(lia) ltac:(lia)). lia. }
      assert (Hsm : (- 2 ^ 53 < sm < 2 ^ 53)%Z) by (unfold sm; destruct s; lia).
      set (n := Z.shiftr (2 * sm + Z.shiftl 1 (- e)) (1 - e)).
      assert (Hn : n = ((2 * sm + D) / (2 * D))%Z).
      { unfold n, D. rewrite Z.shiftr_div_pow2, Z.shiftl_mul_pow2 by lia.
        replace (1 - e)%Z with (Z.succ (- e)) by lia.
        rewrite Z.pow_succ_r by lia. f_equal. lia. }
      pose proof (Z.mul_div_le (2 * sm + D) (2 * D) ltac:(lia)) as Hlo.
      pose proof (Z.mul_succ_div_gt (2 * sm + D) (2 * D) ltac:(lia)) as Hhi.
      rewrite <- Hn in Hlo, Hhi.
      exists n. split; [lia|].
      destruct (n =? 0)%Z eqn:En.
      * apply Z.eqb_eq in En. rewrite En. by destruct s.
      * apply integerValue_Z2F. nia.
Qed.

(* ================================================================== *)
(** * Progress tracker: proofs *)
(* ================================================================== *)

(** What one call does to the world, in one equation. *)
Lemma updateWatchProgress_run profileId laneId itemId pos dur w :
  updateWatchProgress profileId laneId itemId pos dur w =
  let id := watchDocId profileId itemId in
  let now := clock w (ticks w) in
  let pp := progressPercentOf pos dur in
  let c := completedOf pp in
  match watchHistory w !! id with
  | Some d =>
      let nc := c && negb (WatchRecord.completed d) in
      Ok (WatchRecord.mk id profileId laneId itemId pos dur pp c
            (WatchRecord.startedAt d) now
            (if nc then Some now else WatchRecord.completedAt d), nc)
         (withWatchHistory
            (<[id := WatchRecord.mk (WatchRecord.id d) (WatchRecord.profileId d)
                       (WatchRecord.laneId d) (WatchRecord.itemId d)
                       pos dur pp c (WatchRecord.startedAt d) now
                       (if nc then Some now else WatchRecord.completedAt d)]>
               (watchHistory w))
            (tick w))
  | None =>
      let r := WatchRecord.mk id profileId laneId itemId pos dur pp c
                 now now (if c then Some now else None) in
      Ok (r, c)
         (withWatchHistory (<[id := r]> (watchHistory w)) (tick w))
  end.
Proof.
  unfold updateWatchProgress, bind, newDate, getWatchDoc, updateWatchDoc,
    setWatchDoc, ret; cbn.
  destruct (watchHistory w !! watchDocId profileId itemId) as [d|] eqn:E; cbn.
  - rewrite E. by rewrite orb_false_r.
  - reflexivity.
Qed.

(** [duration === 0] (for [+0] and [-0]) excludes [duration > 0]. *)
Lemma zero_not_positive (x : float) :
  (x =? 0)%float = true -> (0 <? x)%float = false.
Proof. compare_with_zero x. Qed.

Lemma progressPercentOf_zero pos dur :
  (dur =? 0)%float = true -> progressPercentOf pos dur = 0%float.
Proof. intros H. unfold progressPercentOf. by rewrite (zero_not_positive _ H). Qed.

Lemma completedOf_zero : completedOf 0 = false.
Proof. reflexivity. Qed.

Lemma zero_leb_zero (x : float) :
  (x =? 0)%float = true -> (x <=? 0)%float = true.
Proof. compare_with_zero x. Qed.

(** The guard of the content modal: with a duration that is not positive
    nothing is saved. *)
Lemma saveProgress_guard content profile currentTime duration lanes position dur w :
  (default duration dur <=? 0)%float = true ->
  saveProgress content profile currentTime duration lanes position dur w = Ok tt w.
Proof.
  intros H. unfold saveProgress.
  destruct content, profile as [p|]; try reflexivity.
  destruct (Profile.role p); [reflexivity|]. by rewrite H.
Qed.

(** C1 (amended).  A call of [updateWatchProgress] with [duration = 0]
    throws nothing and divides nothing: it stores [progressPercent = 0] and
    [completed = false] together with the position and duration it was
    given, so the document of the (profile, item) pair is created or
    overwritten, and it reports [newlyCompleted = false]; no other document
    and no badge is touched.  The no-op on such a sample is the caller's:
    [saveProgress] of the content modal returns before anything is saved. *)
Theorem updateWatchProgress_zero_duration profileId laneId itemId pos dur w :
  (dur =? 0)%float = true ->
  (exists r w' d',
      updateWatchProgress profileId laneId itemId pos dur w = Ok (r, false) w'
      /\ watchHistory w' !! watchDocId profileId itemId = Some d'
      /\ WatchRecord.progressPercent d' = 0%float
      /\ WatchRecord.completed d' = false
      /\ WatchRecord.lastPosition d' = pos
      /\ WatchRecord.duration d' = dur
      /\ WatchRecord.updatedAt d' = clock w (ticks w)
      /\ (forall k, k <> watchDocId profileId itemId ->
                    watchHistory w' !! k = watchHistory w !! k)
      /\ earnedBadges w' = earnedBadges w)
  /\ (forall content profile currentTime duration lanes position,
        saveProgress content profile currentTime duration lanes position
                     (Some dur) w = Ok tt w).
Proof.
  intros H. split.
  - rewrite updateWatchProgress_run. cbn zeta.
    rewrite (progressPercentOf_zero _ _ H), completedOf_zero. cbn [andb].
    destruct (watchHistory w !! watchDocId profileId itemId) as [d|] eqn:E.
    + eexists _, _, _. split; [reflexivity|]. cbn.
      rewrite lookup_insert_eq. repeat split; try reflexivity.
      intros k Hk. by rewrite lookup_insert_ne.
    + eexists _, _, _. split; [reflexivity|]. cbn.
      rewrite lookup_insert_eq. repeat split; try reflexivity.
      intros k Hk. by rewrite lookup_insert_ne.
  - intros. apply saveProgress_guard. cbn. by apply zero_leb_zero.
Qed.

Lemma updateWatchProgress_zero_duration_witness :
  (exists r w' d',
      updateWatchProgress "kid" "lane-1" "item-1" 30 0 (emptyWorld secondsClock)
        = Ok (r, false) w'
      /\ watchHistory w' !! watchDocId "kid" "item-1" = Some d'
      /\ WatchRecord.progressPercent d' = 0%float
      /\ WatchRecord.completed d' = false
      /\ WatchRecord.lastPosition d' = 30%float
      /\ WatchRecord.duration d' = 0%float
      /\ WatchRecord.updatedAt d' = 1000%Z
      /\ (forall k, k <> watchDocId "kid" "item-1" ->
                    watchHistory w' !! k = watchHistory (emptyWorld secondsClock) !! k)
      /\ earnedBadges w' = earnedBadges (emptyWorld secondsClock))
  /\ (forall content profile currentTime duration lanes position,
        saveProgress content profile currentTime duration lanes position
                     (Some 0%float) (emptyWorld secondsClock)
        = Ok tt (emptyWorld secondsClock)).
Proof.
  apply (updateWatchProgress_zero_duration "kid" "lane-1" "item-1" 30 0
           (emptyWorld secondsClock)).
  reflexivity.
Defined.

(** C1, as stated, fails: in a fresh installation a call with
    [duration = 0] creates the watch document, and on a document that
    records 95% and [completed = true] it overwrites the percentage with 0
    and the flag with [false]. *)
Lemma updateWatchProgress_zero_duration_not_noop :
  watchHistory (emptyWorld secondsClock) !! "kid_item-1" = None
  /\ watchHistory
       (worldAfter (updateWatchProgress "kid" "lane-1" "item-1" 30 0)
                   (emptyWorld secondsClock)) !! "kid_item-1"
     = Some (WatchRecord.mk "kid_item-1" "kid" "lane-1" "item-1"
               30 0 0 false 1000%Z 1000%Z None)
  /\ watchHistory
       (worldAfter (updateWatchProgress "kid" "lane-1" "item-1" 95 100)
                   (emptyWorld secondsClock)) !! "kid_item-1"
     = Some (WatchRecord.mk "kid_item-1" "kid" "lane-1" "item-1"
               95 100 95 true 1000%Z 1000%Z (Some 1000%Z))
  /\ watchHistory
       (worldAfter (updateWatchProgress "kid" "lane-1" "item-1" 95 0)
          (worldAfter (updateWatchProgress "kid" "lane-1" "item-1" 95 100)
                      (emptyWorld secondsClock))) !! "kid_item-1"
     = Some (WatchRecord.mk "kid_item-1" "kid" "lane-1" "item-1"
               95 0 0 false 1000%Z 2000%Z (Some 1000%Z)).
Proof. repeat split; vm_compute; reflexivity. Qed.

(** One call on an existing document: what is reported and stored. *)
Lemma updateWatchProgress_existing profileId laneId itemId pos dur w d :
  watchHistory w !! watchDocId profileId itemId = Some d ->
  exists r w' d',
    updateWatchProgress profileId laneId itemId pos dur w
      = Ok (r, completedOf (progressPercentOf pos dur)
               && negb (WatchRecord.completed d)) w'
    /\ watchHistory w' !! watchDocId profileId itemId = Some d'
    /\ WatchRecord.completed d' = completedOf (progressPercentOf pos dur)
    /\ WatchRecord.completedAt d'
       = (if completedOf (progressPercentOf pos dur)
             && negb (WatchRecord.completed d)
          then Some (clock w (ticks w))
          else WatchRecord.completedAt d).
Proof.
  intros E. rewrite updateWatchProgress_run. cbn zeta. rewrite E.
  eexists _, _, _. split; [reflexivity|]. cbn.
  rewrite lookup_insert_eq. repeat split; reflexivity.
Qed.

(** As long as every sample is at 90% or more, a completed document stays
    completed and keeps its [completedAt]. *)
Lemma replaySamples_completed profileId laneId itemId samples :
  forall w d,
    watchHistory w !! watchDocId profileId itemId = Some d ->
    WatchRecord.completed d = true ->
    Forall (fun s => completedOf (progressPercentOf (fst s) (snd s)) = true)
           samples ->
    exists w' d',
      replaySamples profileId laneId itemId samples w = Ok tt w'
      /\ watchHistory w' !! watchDocId profileId itemId = Some d'
      /\ WatchRecord.completed d' = true
      /\ WatchRecord.completedAt d' = WatchRecord.completedAt d.
Proof.
  induction samples as [|[pos dur] rest IH]; intros w d E Hc Hall.
  - exists w, d. repeat split; auto.
  - apply Forall_cons in Hall as [Hs Hall]. cbn [fst snd] in Hs.
    destruct (updateWatchProgress_existing profileId laneId itemId pos dur w d E)
      as (r & w1 & d1 & Hrun & E1 & Hc1 & Hat1).
    rewrite Hs, Hc in *. cbn in Hat1.
    destruct (IH w1 d1 E1 Hc1 Hall) as (w' & d' & Hrun' & E' & Hc' & Hat').
    exists w', d'. repeat split; auto; [|congruence].
    cbn. unfold bind. by rewrite Hrun.
Qed.

(** C2 (amended).  On an existing watch document, the [completed] flag a
    call stores is the flag of its own sample (so a sample under 90%
    stores [false], whatever the flag was); [newlyCompleted] is reported,
    and [completedAt] is set to the time of the call, exactly when the
    sample is at 90% or more and the stored flag was [false]; in every
    other case, and in particular whenever the stored flag is [true],
    [completedAt] is left as it was.  Hence over any sequence of calls
    whose samples are all at 90% or more, a completed document stays
    completed and its [completedAt] never changes. *)
Theorem updateWatchProgress_completion profileId laneId itemId w d :
  watchHistory w !! watchDocId profileId itemId = Some d ->
  (forall pos dur, exists r w' d',
    updateWatchProgress profileId laneId itemId pos dur w
      = Ok (r, completedOf (progressPercentOf pos dur)
               && negb (WatchRecord.completed d)) w'
    /\ watchHistory w' !! watchDocId profileId itemId = Some d'
    /\ WatchRecord.completed d' = completedOf (progressPercentOf pos dur)
    /\ WatchRecord.completedAt d'
       = (if completedOf (progressPercentOf pos dur)
             && negb (WatchRecord.completed d)
          then Some (clock w (ticks w))
          else WatchRecord.completedAt d)
    /\ (WatchRecord.completed d = true ->
        WatchRecord.completedAt d' = WatchRecord.completedAt d))
  /\ (forall samples,
        WatchRecord.completed d = true ->
        Forall (fun s => completedOf (progressPercentOf (fst s) (snd s)) = true)
               samples ->
        exists w' d',
          replaySamples profileId laneId itemId samples w = Ok tt w'
          /\ watchHistory w' !! watchDocId profileId itemId = Some d'
          /\ WatchRecord.completed d' = true
          /\ WatchRecord.completedAt d' = WatchRecord.completedAt d).
Proof.
  intros E. split.
  - intros pos dur.
    destruct (updateWatchProgress_existing profileId laneId itemId pos dur w d E)
      as (r & w' & d' & Hrun & E' & Hc & Hat).
    exists r, w', d'. repeat split; auto.
    intros Hd. rewrite Hat, Hd. by rewrite andb_false_r.
  - intros samples Hc Hall. by apply replaySamples_completed.
Qed.

(** C2, as stated, fails: an item completed at 95% (time 1000) is
    reported again at 10%, which stores [completed = false]; a third
    report at 95% (time 3000) completes it anew and replaces
    [completedAt]. *)
Lemma completed_reverts_and_completedAt_moves :
  watchHistory
    (worldAfter (replaySamples "kid" "lane-1" "item-1" [(95, 100)]%float)
                (emptyWorld secondsClock)) !! "kid_item-1"
  = Some (WatchRecord.mk "kid_item-1" "kid" "lane-1" "item-1"
            95 100 95 true 1000%Z 1000%Z (Some 1000%Z))
  /\ watchHistory
       (worldAfter (replaySamples "kid" "lane-1" "item-1"
                      [(95, 100); (10, 100)]%float)
                   (emptyWorld secondsClock)) !! "kid_item-1"
     = Some (WatchRecord.mk "kid_item-1" "kid" "lane-1" "item-1"
               10 100 10 false 1000%Z 2000%Z (Some 1000%Z))
  /\ watchHistory
       (worldAfter (replaySamples "kid" "lane-1" "item-1"
                      [(95, 100); (10, 100); (95, 100)]%float)
                   (emptyWorld secondsClock)) !! "kid_item-1"
     = Some (WatchRecord.mk "kid_item-1" "kid" "lane-1" "item-1"
               95 100 95 true 1000%Z 3000%Z (Some 3000%Z)).
Proof. repeat split; vm_compute; reflexivity. Qed.

(** C3 (amended).  With [duration > 0] the stored [progressPercent] is
    [Math.round((position / duration) * 100)] on doubles: the quotient is
    rounded to a double, then the product.  When that product is finite
    the percentage is the integer nearest to it, the upper one when two
    are as near; a product that is [NaN] or infinite is stored as it is.
    The stored [completed] flag is [true] exactly when the percentage is
    at least 90, and the record handed back carries the same two values. *)
Theorem updateWatchProgress_percent profileId laneId itemId pos dur w :
  (0 <? dur)%float = true ->
  exists r nc w' d',
    updateWatchProgress profileId laneId itemId pos dur w = Ok (r, nc) w'
    /\ watchHistory w' !! watchDocId profileId itemId = Some d'
    /\ WatchRecord.progressPercent d' = Math_round (pos / dur * 100)%float
    /\ (isFinite (pos / dur * 100)%float = true ->
        exists n, nearestInteger (pos / dur * 100)%float n
                  /\ integerValue (WatchRecord.progressPercent d') = Some n)
    /\ (isFinite (pos / dur * 100)%float = false ->
        WatchRecord.progressPercent d' = (pos / dur * 100)%float)
    /\ (WatchRecord.completed d' = true
        <-> (90 <=? WatchRecord.progressPercent d')%float = true)
    /\ WatchRecord.progressPercent r = WatchRecord.progressPercent d'
    /\ WatchRecord.completed r = WatchRecord.completed d'.
Proof.
  intros H. rewrite updateWatchProgress_run. cbn zeta.
  unfold progressPercentOf, completedOf. rewrite H.
  assert (Hinf : isFinite (pos / dur * 100)%float = false ->
                 Math_round (pos / dur * 100) = (pos / dur * 100)%float).
  { unfold isFinite, Math_round.
    by destruct (Prim2SF (pos / dur * 100)%float). }
  destruct (watchHistory w !! watchDocId profileId itemId) as [d|] eqn:E;
    (eexists _, _, _, _; split; [reflexivity|]; cbn;
     rewrite lookup_insert_eq; repeat split; try reflexivity; auto;
     apply Math_round_nearest).
Qed.

Lemma updateWatchProgress_percent_witness :
  exists r nc w' d',
    updateWatchProgress "kid" "lane-1" "item-1" 540 600 (emptyWorld secondsClock)
      = Ok (r, nc) w'
    /\ watchHistory w' !! watchDocId "kid" "item-1" = Some d'
    /\ WatchRecord.progressPercent d' = Math_round (540 / 600 * 100)%float
    /\ (isFinite (540 / 600 * 100)%float = true ->
        exists n, nearestInteger (540 / 600 * 100)%float n
                  /\ integerValue (WatchRecord.progressPercent d') = Some n)
    /\ (isFinite (540 / 600 * 100)%float = false ->
        WatchRecord.progressPercent d' = (540 / 600 * 100)%float)
    /\ (WatchRecord.completed d' = true
        <-> (90 <=? WatchRecord.progressPercent d')%float = true)
    /\ WatchRecord.progressPercent r = WatchRecord.progressPercent d'
    /\ WatchRecord.completed r = WatchRecord.completed d'.
Proof.
  apply (updateWatchProgress_percent "kid" "lane-1" "item-1" 540 600
           (emptyWorld secondsClock)).
  reflexivity.
Defined.

(** C3, as stated, fails.  For 23 seconds of 40 the exact quotient
    [100 * 23 / 40] is 57.5, which rounds to 58, also when computed on
    doubles as written; the stored percentage is 57, because the double
    nearest to 23/40 is below 0.575 and its product with 100 is
    57.49999999999999. *)
Lemma progressPercent_23_of_40 :
  option_map WatchRecord.progressPercent
    (watchHistory
       (worldAfter (updateWatchProgress "kid" "lane-1" "item-1" 23 40)
                   (emptyWorld secondsClock)) !! "kid_item-1")
  = Some 57%float
  /\ roundedPercent 23 40 = 58%Z
  /\ Math_round (100 * 23 / 40) = 58%float
  /\ (2 * (100 * 23) = (2 * 57 + 1) * 40)%Z
  /\ (23 / 40 * 100 <? 57.5)%float = true.
Proof. repeat split; vm_compute; reflexivity. Qed.

Lemma updateWatchProgress_completion_witness :
  (forall pos dur, exists r w' d',
    updateWatchProgress "kid" "lane-1" "item-1" pos dur
      (worldAfter (updateWatchProgress "kid" "lane-1" "item-1" 95 100)
                  (emptyWorld secondsClock))
      = Ok (r, completedOf (progressPercentOf pos dur) && negb true) w'
    /\ watchHistory w' !! watchDocId "kid" "item-1" = Some d'
    /\ WatchRecord.completed d' = completedOf (progressPercentOf pos dur)
    /\ WatchRecord.completedAt d'
       = (if completedOf (progressPercentOf pos dur) && negb true
          then Some 2000%Z else Some 1000%Z)
    /\ (true = true -> WatchRecord.completedAt d' = Some 1000%Z))
  /\ (forall samples,
        true = true ->
        Forall (fun s => completedOf (progressPercentOf (fst s) (snd s)) = true)
               samples ->
        exists w' d',
          replaySamples "kid" "lane-1" "item-1" samples
            (worldAfter (updateWatchProgress "kid" "lane-1" "item-1" 95 100)
                        (emptyWorld secondsClock)) = Ok tt w'
          /\ watchHistory w' !! watchDocId "kid" "item-1" = Some d'
          /\ WatchRecord.completed d' = true
          /\ WatchRecord.completedAt d' = Some 1000%Z).
Proof.
  apply (updateWatchProgress_completion "kid" "lane-1" "item-1"
           (worldAfter (updateWatchProgress "kid" "lane-1" "item-1" 95 100)
                       (emptyWorld secondsClock))
           (WatchRecord.mk "kid_item-1" "kid" "lane-1" "item-1"
              95 100 95 true 1000%Z 1000%Z (Some 1000%Z))).
  vm_compute. reflexivity.
Defined.

(** Two calls in a row with the same arguments. *)
Lemma updateWatchProgress_repeat profileId laneId itemId pos dur w :
  exists r1 nc1 w1 r2 w2 d1,
    updateWatchProgress profileId laneId itemId pos dur w = Ok (r1, nc1) w1
    /\ updateWatchProgress profileId laneId itemId pos dur w1 = Ok (r2, false) w2
    /\ watchHistory w1 !! watchDocId profileId itemId = Some d1
    /\ WatchRecord.updatedAt d1 = clock w (ticks w)
    /\ watchHistory w2
       = <[watchDocId profileId itemId := withUpdatedAt (clock w1 (ticks w1)) d1]>
           (watchHistory w1)
    /\ earnedBadges w2 = earnedBadges w1
    /\ r2 = withUpdatedAt (clock w1 (ticks w1)) r1.
Proof.
  rewrite updateWatchProgress_run. cbn zeta.
  destruct (watchHistory w !! watchDocId profileId itemId) as [d|] eqn:E.
  - eexists _, _, _.
    match goal with |- context [Ok _ ?w1] => set (W1 := w1) end.
    assert (E1 : watchHistory W1 !! watchDocId profileId itemId
                 = Some (WatchRecord.mk (WatchRecord.id d) (WatchRecord.profileId d)
                       (WatchRecord.laneId d) (WatchRecord.itemId d)
                       pos dur (progressPercentOf pos dur)
                       (completedOf (progressPercentOf pos dur))
                       (WatchRecord.startedAt d) (clock w (ticks w))
                       (if completedOf (progressPercentOf pos dur)
                           && negb (WatchRecord.completed d)
                        then Some (clock w (ticks w))
                        else WatchRecord.completedAt d)))
      by (subst W1; cbn [watchHistory withWatchHistory]; apply lookup_insert_eq).
    rewrite (updateWatchProgress_run _ _ _ _ _ W1). cbn zeta. rewrite E1.
    cbn [WatchRecord.completed WatchRecord.completedAt WatchRecord.startedAt
         WatchRecord.id WatchRecord.profileId WatchRecord.laneId
         WatchRecord.itemId].
    rewrite andb_negb_r.
    eexists _, _, _.
    split; [reflexivity|]. split; [reflexivity|]. split; [exact E1|].
    split; [reflexivity|]. split; [reflexivity|]. split; reflexivity.
  - eexists _, _, _.
    match goal with |- context [Ok _ ?w1] => set (W1 := w1) end.
    assert (E1 : watchHistory W1 !! watchDocId profileId itemId
                 = Some (WatchRecord.mk (watchDocId profileId itemId) profileId
                       laneId itemId
                       pos dur (progressPercentOf pos dur)
                       (completedOf (progressPercentOf pos dur))
                       (clock w (ticks w)) (clock w (ticks w))
                       (if completedOf (progressPercentOf pos dur)
                        then Some (clock w (ticks w)) else None)))
      by (subst W1; cbn [watchHistory withWatchHistory]; apply lookup_insert_eq).
    rewrite (updateWatchProgress_run _ _ _ _ _ W1). cbn zeta. rewrite E1.
    cbn [WatchRecord.completed WatchRecord.completedAt WatchRecord.startedAt
         WatchRecord.id WatchRecord.profileId WatchRecord.laneId
         WatchRecord.itemId].
    rewrite andb_negb_r.
    eexists _, _, _.
    split; [reflexivity|]. split; [reflexivity|]. split; [exact E1|].
    split; [reflexivity|]. split; [reflexivity|]. split; reflexivity.
Qed.

Lemma withUpdatedAt_same d : withUpdatedAt (WatchRecord.updatedAt d) d = d.
Proof. by destruct d. Qed.

Lemma trackedState_withUpdatedAt t d :
  trackedState (withUpdatedAt t d) = trackedState d.
Proof. reflexivity. Qed.

(** C4.  Of two calls in a row with the same position and duration, the
    second reports [newlyCompleted = false] and stores the record the
    first one stored: the documents of the pair after the two calls agree
    on the record's identity, position, duration, percentage, completion
    flag and on the time stamps of its start and of its completion, and so
    do the two records handed back.  No other document and no badge
    changes.  The one field the second call writes anew is the time of the
    last write, [updatedAt]; when both calls read the same time the store
    is unchanged altogether. *)
Theorem updateWatchProgress_idempotent profileId laneId itemId pos dur w :
  exists r1 nc1 w1 r2 w2 d1 d2,
    updateWatchProgress profileId laneId itemId pos dur w = Ok (r1, nc1) w1
    /\ updateWatchProgress profileId laneId itemId pos dur w1 = Ok (r2, false) w2
    /\ watchHistory w1 !! watchDocId profileId itemId = Some d1
    /\ watchHistory w2 !! watchDocId profileId itemId = Some d2
    /\ trackedState d2 = trackedState d1
    /\ trackedState r2 = trackedState r1
    /\ (forall k, k <> watchDocId profileId itemId ->
                  watchHistory w2 !! k = watchHistory w1 !! k)
    /\ earnedBadges w2 = earnedBadges w1
    /\ d2 = withUpdatedAt (clock w1 (ticks w1)) d1
    /\ (clock w1 (ticks w1) = clock w (ticks w) ->
        watchHistory w2 = watchHistory w1).
Proof.
  destruct (updateWatchProgress_repeat profileId laneId itemId pos dur w)
    as (r1 & nc1 & w1 & r2 & w2 & d1 & H1 & H2 & E1 & Hu & Hw & Hb & Hr).
  exists r1, nc1, w1, r2, w2, d1, (withUpdatedAt (clock w1 (ticks w1)) d1).
  split; [exact H1|]. split; [exact H2|]. split; [exact E1|].
  split; [rewrite Hw; apply lookup_insert_eq|].
  split; [apply trackedState_withUpdatedAt|].
  split; [rewrite Hr; apply trackedState_withUpdatedAt|].
  split; [intros k Hk; rewrite Hw; by apply lookup_insert_ne|].
  split; [exact Hb|]. split; [reflexivity|].
  intros Ht. rewrite Hw, Ht, <- Hu, withUpdatedAt_same. by apply insert_id.
Qed.

(** The time of the last write follows the clock: the same sample (50 of
    100 seconds) reported at time 1000 and again at time 2000 leaves
    [updatedAt = 2000], and nothing else is different. *)
Example updateWatchProgress_second_call_touches_updatedAt :
  watchHistory
    (worldAfter (replaySamples "kid" "lane-1" "item-1" [(50, 100)]%float)
                (emptyWorld secondsClock)) !! "kid_item-1"
  = Some (WatchRecord.mk "kid_item-1" "kid" "lane-1" "item-1"
            50 100 50 false 1000%Z 1000%Z None)
  /\ watchHistory
       (worldAfter (replaySamples "kid" "lane-1" "item-1"
                      [(50, 100); (50, 100)]%float)
                   (emptyWorld secondsClock)) !! "kid_item-1"
     = Some (WatchRecord.mk "kid_item-1" "kid" "lane-1" "item-1"
               50 100 50 false 1000%Z 2000%Z None).
Proof. repeat split; vm_compute; reflexivity. Qed.

(** [Math.round] on a few values: ties go up, [-0] is kept, and the
    percentage of 23 s out of 40 s is 57, because the double product
    [(23 / 40) * 100] is 57.49999999999999. *)
Example Math_round_examples :
  Math_round 2.5 = 3%float
  /\ Math_round (-2.5) = (-2)%float
  /\ Math_round 89.5 = 90%float
  /\ Math_round (-0.25) = (-0)%float
  /\ Math_round infinity = infinity
  /\ progressPercentOf 540 600 = 90%float
  /\ progressPercentOf 179 200 = 90%float
  /\ progressPercentOf 23 40 = 57%float
  /\ progressPercentOf 30 0 = 0%float
  /\ completedOf (progressPercentOf 537 600) = true
  /\ completedOf (progressPercentOf 536 600) = false.
Proof. repeat split; vm_compute; reflexivity. Qed.

(** ** The client *)

(** [saveWatchProgress] never throws. *)
Lemma saveWatchProgress_returns p l i pos dur lanes w :
  exists newBadges w', saveWatchProgress p l i pos dur lanes w = Ok newBadges w'.
Proof.
  unfold saveWatchProgress, tryCatch.
  match goal with |- context [match ?c w with _ => _ end] =>
    destruct (c w) as [a w'|e w'] end; eauto.
Qed.

(** Without a completion transition no badge is evaluated: nothing is
    returned and the earned badges stay as they are. *)
Lemma saveWatchProgress_no_transition p l i pos dur lanes w :
  completedOf (progressPercentOf pos dur) = false ->
  exists w', saveWatchProgress p l i pos dur lanes w = Ok [] w'
             /\ earnedBadges w' = earnedBadges w
             /\ atom_earnedBadges (progressStore w')
                = atom_earnedBadges (progressStore w).
Proof.
  intros Hc. unfold saveWatchProgress, tryCatch, bind.
  rewrite updateWatchProgress_run. cbn zeta. rewrite Hc. cbn [andb].
  destruct (watchHistory w !! watchDocId p i) as [d|]; cbn;
    eexists; repeat split; reflexivity.
Qed.

(* ================================================================== *)
(** * Badge engine: proofs *)
(* ================================================================== *)

Lemma string_app_inv_head (p s1 s2 : string) : p ++ s1 = p ++ s2 -> s1 = s2.
Proof. induction p as [|a p IH]; cbn; [auto|]. intros H. injection H. auto. Qed.

Lemma BadgeType_string_inj b1 b2 :
  BadgeType_string b1 = BadgeType_string b2 -> b1 = b2.
Proof. destruct b1, b2; cbn; intros H; try reflexivity; discriminate H. Qed.

(** One profile's badge ids are pairwise distinct. *)
Lemma badgeDocId_inj p b1 b2 : badgeDocId p b1 = badgeDocId p b2 -> b1 = b2.
Proof.
  unfold badgeDocId. intros H.
  apply string_app_inv_head in H. apply (string_app_inv_head "_") in H.
  by apply BadgeType_string_inj.
Qed.

Lemma awardBadge_run p b md w :
  awardBadge p b md w =
  match earnedBadges w !! badgeDocId p b with
  | Some _ => Ok None w
  | None =>
      let badge := EarnedBadge.mk (badgeDocId p b) p b (clock w (ticks w)) md in
      Ok (Some badge)
         (withEarnedBadges (<[badgeDocId p b := badge]> (earnedBadges w)) (tick w))
  end.
Proof.
  unfold awardBadge, bind, getBadgeDoc, newDate, setBadgeDoc, ret.
  destruct (earnedBadges w !! badgeDocId p b); reflexivity.
Qed.

(** ** [checkAndAwardBadges] is [awardAll] over its [attempts] *)

Lemma bind_ext {A B} (c c' : M A) (k k' : A -> M B) w :
  c w = c' w -> (forall a w', k a w' = k' a w') -> bind c k w = bind c' k' w.
Proof. intros Hc Hk. unfold bind. rewrite Hc. destruct (c' w); auto. Qed.

Lemma awardAll_app p l1 l2 nb w :
  awardAll p (l1 ++ l2) nb w = bind (awardAll p l1 nb) (awardAll p l2) w.
Proof.
  revert nb w. induction l1 as [|[b md] l1 IH]; intros nb w; cbn.
  - reflexivity.
  - unfold bind. destruct (awardBadge p b md w) as [a w0|e w0]; [|reflexivity].
    rewrite IH. reflexivity.
Qed.

Lemma awardWhen_awardAll cond p b nb w :
  awardWhen cond p b nb w = awardAll p (if cond then [(b, None)] else []) nb w.
Proof. destruct cond; reflexivity. Qed.

Lemma laneMasterLoop_awardAll p ids lanes nb w :
  laneMasterLoop p ids lanes nb w =
  awardAll p
    match List.find (laneFullyCompleted ids) lanes with
    | Some lane => [(lane_master,
                     Some [("laneId", LaneWithItems.id lane);
                           ("laneTitle", LaneWithItems.title lane)])]
    | None => []
    end nb w.
Proof.
  induction lanes as [|lane rest IH]; cbn; [reflexivity|].
  destruct (laneFullyCompleted ids lane); [reflexivity|apply IH].
Qed.

Lemma checkAndAwardBadges_attempts p h lanes w :
  checkAndAwardBadges p h lanes w = awardAll p (attempts h lanes) [] w.
Proof.
  unfold checkAndAwardBadges, attempts. cbn zeta.
  repeat (rewrite awardAll_app; apply bind_ext;
          [apply awardWhen_awardAll || apply laneMasterLoop_awardAll|];
          intros ? ?).
  unfold bind. rewrite awardWhen_awardAll.
  match goal with |- context [awardAll ?p ?l ?nb ?w] =>
    destruct (awardAll p l nb w) end; reflexivity.
Qed.

(** ** What [awardAll] returns and stores *)

Lemma awardAll_run p due :
  NoDup (map fst due) ->
  forall nb w, exists created w',
    awardAll p due nb w = Ok (nb ++ created)%list w'
    /\ map EarnedBadge.badgeType created
       = List.filter (notEarned w p) (map fst due)
    /\ Forall (fun e => EarnedBadge.id e = badgeDocId p (EarnedBadge.badgeType e)
                        /\ EarnedBadge.profileId e = p
                        /\ In (EarnedBadge.badgeType e, EarnedBadge.metadata e) due)
              created
    /\ (forall k e, earnedBadges w' !! k = Some e
                    <-> earnedBadges w !! k = Some e
                        \/ (In e created /\ k = EarnedBadge.id e))
    /\ watchHistory w' = watchHistory w
    /\ progressStore w' = progressStore w
    /\ clock w' = clock w.
Proof.
  induction due as [|[b md] rest IH]; intros Hnd nb w.
  - exists [], w. cbn. rewrite app_nil_r. repeat split; auto.
    intros [H|[[] _]]; exact H.
  - cbn in Hnd. apply NoDup_cons in Hnd as [Hb Hnd].
    cbn [awardAll]. unfold bind. rewrite awardBadge_run.
    destruct (earnedBadges w !! badgeDocId p b) as [e0|] eqn:E.
    + destruct (IH Hnd nb w) as (created & w' & Hrun & Hty & Hall & Hlk & Hrest).
      exists created, w'. cbn [pushBadge]. split; [exact Hrun|].
      split; [|split; [|split; [exact Hlk|exact Hrest]]].
      * cbn. unfold notEarned at 1. rewrite E.
        rewrite bool_decide_eq_false_2 by discriminate. exact Hty.
      * eapply List.Forall_impl; [|exact Hall]. cbn. intros e (?&?&?). auto.
    + cbn zeta.
      set (badge := EarnedBadge.mk (badgeDocId p b) p b (clock w (ticks w)) md).
      set (w1 := withEarnedBadges (<[badgeDocId p b:=badge]> (earnedBadges w)) (tick w)).
      destruct (IH Hnd (pushBadge nb (Some badge)) w1)
        as (created & w' & Hrun & Hty & Hall & Hlk & Hwh & Hps & Hck).
      exists (badge :: created), w'. cbn [pushBadge] in *.
      split; [by rewrite Hrun, <- app_assoc|].
      split; [|split; [|split; [|auto]]].
      * cbn. unfold notEarned at 1. rewrite E.
        rewrite bool_decide_eq_true_2 by reflexivity. f_equal.
        rewrite Hty. apply filter_ext_in. intros b' Hb'.
        unfold notEarned. subst w1. cbn [earnedBadges withEarnedBadges].
        rewrite lookup_insert_ne; [reflexivity|].
        intros Heq. apply badgeDocId_inj in Heq. subst b'.
        apply Hb. by apply list_elem_of_In.
      * constructor; [cbn; auto|].
        eapply List.Forall_impl; [|exact Hall]. cbn. intros e (?&?&?). auto.
      * intros k e. rewrite Hlk. subst w1. cbn [earnedBadges withEarnedBadges tick].
        destruct (decide (badgeDocId p b = k)) as [<-|Hne].
        -- rewrite lookup_insert_eq, E. cbn. split.
           ++ intros [H|[H1 H2]]; [injection H as <-|]; auto.
           ++ intros [H|[[<-|H1] H2]]; [discriminate| |]; auto.
        -- rewrite lookup_insert_ne by exact Hne. cbn. split.
           ++ intros [H|[H1 H2]]; auto.
           ++ intros [H|[[<-|H1] H2]]; auto. cbn in H2. congruence.
Qed.

(** ** The attempts against the badge table *)

Lemma attempts_NoDup h lanes : NoDup (map fst (attempts h lanes)).
Proof.
  unfold attempts. cbn zeta.
  repeat match goal with
         | |- context [if ?c then _ else _] => destruct c
         | |- context [match List.find ?f ?l with _ => _ end] =>
             destruct (List.find f l)
         end;
    cbn; apply NoDup_ListNoDup;
    repeat (constructor; [cbn; intuition discriminate|]); constructor.
Qed.

Lemma completedItemIds_spec h itemId :
  itemId ∈ (list_to_set (map WatchRecord.itemId
                           (List.filter WatchRecord.completed h)) : gset string)
  <-> hasCompletedRecord h itemId.
Proof.
  rewrite elem_of_list_to_set, list_elem_of_In, in_map_iff.
  unfold hasCompletedRecord. split.
  - intros (r & Hid & Hin). apply filter_In in Hin as [Hin Hc]. eauto.
  - intros (r & Hin & Hc & Hid). exists r. split; [exact Hid|].
    apply filter_In. auto.
Qed.

Lemma laneFullyCompleted_spec h lane :
  laneFullyCompleted
    (list_to_set (map WatchRecord.itemId (List.filter WatchRecord.completed h)))
    lane = true
  <-> laneMastered h lane.
Proof.
  unfold laneFullyCompleted, laneMastered.
  rewrite andb_true_iff, Nat.ltb_lt, forallb_forall. split.
  - intros [Hlen Hall]. split.
    + intros Hnil. rewrite Hnil in Hlen. cbn in Hlen. lia.
    + intros item Hin. apply completedItemIds_spec.
      specialize (Hall item Hin). by apply bool_decide_eq_true in Hall.
  - intros [Hne Hall]. split.
    + destruct (LaneWithItems.items lane); [congruence|cbn; lia].
    + intros item Hin. apply bool_decide_eq_true, completedItemIds_spec. auto.
Qed.


Lemma find_is_Some {A} (f : A -> bool) l :
  is_Some (List.find f l) <-> exists x, In x l /\ f x = true.
Proof.
  split.
  - intros [x Hx]. exists x. by apply find_some in Hx.
  - intros (x & Hin & Hx). destruct (List.find f l) eqn:E; [eauto|].
    pose proof (find_none _ _ E x Hin). congruence.
Qed.

Lemma categoriesOf_fold lanes recs (acc : gset LaneCategory) c :
  c ∈ fold_left
        (fun categoriesCompleted record =>
           match findLane lanes (WatchRecord.laneId record) with
           | Some lane => {[ LaneWithItems.category lane ]} ∪ categoriesCompleted
           | None => categoriesCompleted
           end) recs acc
  <-> c ∈ acc
      \/ exists r lane, In r recs
                        /\ findLane lanes (WatchRecord.laneId r) = Some lane
                        /\ LaneWithItems.category lane = c.
Proof.
  revert acc. induction recs as [|r recs IH]; intros acc; cbn.
  - split; [auto|]. intros [H|(r & lane & [] & _)]; exact H.
  - rewrite IH. destruct (findLane lanes (WatchRecord.laneId r)) as [lane|] eqn:E.
    + rewrite elem_of_union, elem_of_singleton. split.
      * intros [[->|H]|(r' & lane' & Hin & Hf & Hc)]; eauto 8.
      * intros [H|(r' & lane' & [<-|Hin] & Hf & Hc)]; eauto 8.
        rewrite E in Hf. injection Hf as <-. auto.
    + split.
      * intros [H|(r' & lane' & Hin & Hf & Hc)]; eauto 8.
      * intros [H|(r' & lane' & [<-|Hin] & Hf & Hc)]; eauto 8. congruence.
Qed.

Lemma categoriesOf_spec h lanes c :
  c ∈ categoriesOf lanes (List.filter WatchRecord.completed h)
  <-> categorySpanned h lanes c.
Proof.
  unfold categoriesOf, categorySpanned. rewrite categoriesOf_fold. split.
  - intros [H|(r & lane & Hin & Hf & Hc)]; [set_solver|].
    apply filter_In in Hin as [Hin Hcomp]. eauto 8.
  - intros (r & lane & Hin & Hcomp & Hf & Hc). right. exists r, lane.
    split; [apply filter_In|]; auto.
Qed.

Lemma size_at_least (X : gset LaneCategory) (P : LaneCategory -> Prop) n :
  (forall c, c ∈ X <-> P c) ->
  n <= size X
  <-> exists cs : list LaneCategory,
        NoDup cs /\ n <= length cs /\ forall c, In c cs -> P c.
Proof.
  intros HP. split.
  - intros Hn. exists (elements X). split; [apply NoDup_elements|].
    split; [exact Hn|]. intros c Hc. apply HP, elem_of_elements.
    by apply list_elem_of_In.
  - intros (cs & Hnd & Hn & Hall).
    assert (length cs <= size X); [|lia].
    apply submseteq_length, NoDup_submseteq; [exact Hnd|].
    intros c Hc. apply elem_of_elements, HP, Hall. by apply list_elem_of_In.
Qed.

(** A badge is attempted exactly when the table says it is due. *)
Lemma attempts_badgeDue h lanes b :
  In b (map fst (attempts h lanes)) <-> badgeDue b h lanes.
Proof.
  assert (Hlane :
    is_Some (List.find
               (laneFullyCompleted
                  (list_to_set (map WatchRecord.itemId
                                  (List.filter WatchRecord.completed h)))) lanes)
    <-> exists lane, In lane lanes /\ laneMastered h lane).
  { rewrite find_is_Some. split; intros (lane & Hin & H); exists lane;
      (split; [exact Hin|]); by apply laneFullyCompleted_spec. }
  pose proof (size_at_least
                (categoriesOf lanes (List.filter WatchRecord.completed h))
                (categorySpanned h lanes) 4
                (categoriesOf_spec h lanes)) as Hexp.
  unfold attempts, badgeDue, completedCount. cbn zeta.
  rewrite !map_app, !in_app_iff.
  destruct b.
  all: repeat match goal with
         | |- context [if ?c then _ else _] => destruct c eqn:?
         | |- context [match List.find ?f ?l with _ => _ end] =>
             destruct (List.find f l) eqn:?
         end; cbn.
  all: repeat match goal with
         | H : (_ <=? _)%nat = true |- _ => apply Nat.leb_le in H
         | H : (_ <=? _)%nat = false |- _ => apply Nat.leb_gt in H
         end.
  all: try (rewrite <- Hlane); try (rewrite <- Hexp).
  all: try (split; [intros; try lia; try (by eexists);
                      repeat match goal with H : _ \/ _ |- _ => destruct H end;
                      try discriminate; try contradiction; try lia
                   | intros; try lia; auto 10]).
  all: try match goal with H : is_Some None |- _ => by destruct H end.
Qed.

(** ** One document per profile and badge kind *)


Lemma keyed_entries_le_1 {V} (P : V -> bool) (k0 : string)
    (l : list (string * V)) :
  NoDup (map fst l) ->
  (forall k e, In (k, e) l -> P e = true -> k = k0) ->
  length (List.filter P (map snd l)) <= 1.
Proof.
  induction l as [|[k e] l IH]; cbn; [lia|].
  intros Hnd Hkey. apply NoDup_cons in Hnd as [Hk Hnd].
  destruct (P e) eqn:E.
  - assert (k = k0) by (apply (Hkey k e); auto). subst k0.
    assert (Hno : List.filter P (map snd l) = []).
    { clear IH Hnd. induction l as [|[k' e'] l IHl]; cbn; [reflexivity|].
      destruct (P e') eqn:E'.
      - exfalso. apply Hk.
        assert (k' = k) as -> by (apply (Hkey k' e'); [right; left|]; auto).
        apply list_elem_of_here.
      - apply IHl.
        + intros H. apply Hk. by apply list_elem_of_further.
        + intros k1 e1 [Heq|Hin] HP; apply (Hkey k1 e1); auto.
          right. right. exact Hin. }
    rewrite Hno. cbn. lia.
  - apply IH; [exact Hnd|]. intros k1 e1 Hin. apply Hkey. auto.
Qed.

(** In a store keyed by badge, a profile holds at most one document of
    each kind. *)
Lemma keyedByBadge_at_most_one store p b :
  keyedByBadge store -> length (badgesOf store p b) <= 1.
Proof.
  intros Hkeyed. unfold badgesOf.
  apply (keyed_entries_le_1 _ (badgeDocId p b)).
  - apply NoDup_fst_map_to_list.
  - intros k e Hin HP. apply bool_decide_eq_true in HP as [<- <-].
    apply Hkeyed. apply elem_of_map_to_list. by apply list_elem_of_In.
Qed.

Lemma keyedByBadge_empty clock : keyedByBadge (earnedBadges (emptyWorld clock)).
Proof. intros k e H. cbn in H. by rewrite lookup_empty in H. Qed.

Lemma awardBadge_keyed p b md w :
  keyedByBadge (earnedBadges w) ->
  keyedByBadge (earnedBadges (worldAfter (awardBadge p b md) w)).
Proof.
  intros Hkeyed. unfold worldAfter. rewrite awardBadge_run.
  destruct (earnedBadges w !! badgeDocId p b) eqn:E; [exact Hkeyed|].
  cbn. intros k e. destruct (decide (badgeDocId p b = k)) as [<-|Hne].
  - rewrite lookup_insert_eq. by intros [= <-].
  - rewrite lookup_insert_ne by exact Hne. apply Hkeyed.
Qed.

(** What one evaluation returns and stores. *)
Lemma checkAndAwardBadges_run p h lanes w :
  exists newBadges w',
    checkAndAwardBadges p h lanes w = Ok newBadges w'
    /\ map EarnedBadge.badgeType newBadges
       = List.filter (notEarned w p) (map fst (attempts h lanes))
    /\ Forall (fun e => EarnedBadge.id e = badgeDocId p (EarnedBadge.badgeType e)
                        /\ EarnedBadge.profileId e = p
                        /\ In (EarnedBadge.badgeType e, EarnedBadge.metadata e)
                              (attempts h lanes))
              newBadges
    /\ (forall k e, earnedBadges w' !! k = Some e
                    <-> earnedBadges w !! k = Some e
                        \/ (In e newBadges /\ k = EarnedBadge.id e))
    /\ watchHistory w' = watchHistory w
    /\ progressStore w' = progressStore w
    /\ clock w' = clock w.
Proof.
  rewrite checkAndAwardBadges_attempts.
  destruct (awardAll_run p (attempts h lanes) (attempts_NoDup h lanes) [] w)
    as (created & w' & Hrun & H).
  exists created, w'. split; [exact Hrun|exact H].
Qed.

Lemma newBadges_fresh p h lanes w newBadges :
  map EarnedBadge.badgeType newBadges
    = List.filter (notEarned w p) (map fst (attempts h lanes)) ->
  Forall (fun e => EarnedBadge.id e = badgeDocId p (EarnedBadge.badgeType e)
                   /\ EarnedBadge.profileId e = p
                   /\ In (EarnedBadge.badgeType e, EarnedBadge.metadata e)
                         (attempts h lanes))
         newBadges ->
  forall e, In e newBadges -> earnedBadges w !! EarnedBadge.id e = None.
Proof.
  intros Hty Hall e Hin.
  assert (Hb : In (EarnedBadge.badgeType e)
                  (List.filter (notEarned w p) (map fst (attempts h lanes))))
    by (rewrite <- Hty; by apply in_map).
  apply filter_In in Hb as [_ Hb]. apply bool_decide_eq_true in Hb.
  rewrite List.Forall_forall in Hall. destruct (Hall e Hin) as (-> & _). exact Hb.
Qed.

Lemma newBadges_NoDup_types p h lanes w newBadges :
  map EarnedBadge.badgeType newBadges
    = List.filter (notEarned w p) (map fst (attempts h lanes)) ->
  NoDup (map EarnedBadge.badgeType newBadges).
Proof.
  intros ->. apply NoDup_ListNoDup, List.NoDup_filter, NoDup_ListNoDup,
    attempts_NoDup.
Qed.

Lemma NoDup_map_inv {A B} (f : A -> B) (l : list A) :
  NoDup (map f l) -> NoDup l.
Proof.
  induction l as [|a l IH]; cbn; intros H; [apply NoDup_nil_2|].
  apply NoDup_cons in H as [Ha H]. apply NoDup_cons. split; [|auto].
  intros Hin. apply Ha. apply list_elem_of_In, in_map. by apply list_elem_of_In.
Qed.

Lemma checkAndAwardBadges_keyed p h lanes w newBadges w' :
  keyedByBadge (earnedBadges w) ->
  Forall (fun e => EarnedBadge.id e = badgeDocId p (EarnedBadge.badgeType e)
                   /\ EarnedBadge.profileId e = p
                   /\ In (EarnedBadge.badgeType e, EarnedBadge.metadata e)
                         (attempts h lanes))
         newBadges ->
  (forall k e, earnedBadges w' !! k = Some e
               <-> earnedBadges w !! k = Some e
                   \/ (In e newBadges /\ k = EarnedBadge.id e)) ->
  keyedByBadge (earnedBadges w').
Proof.
  intros Hkeyed Hall Hlk k e Hke. apply Hlk in Hke as [Hold|[Hin ->]].
  - by apply Hkeyed.
  - rewrite List.Forall_forall in Hall. destruct (Hall e Hin) as (Hid & Hp & _).
    by rewrite Hp.
Qed.

(** Right after an evaluation every attempted badge is held. *)
Lemma attempts_all_earned p h lanes w newBadges w' :
  map EarnedBadge.badgeType newBadges
    = List.filter (notEarned w p) (map fst (attempts h lanes)) ->
  Forall (fun e => EarnedBadge.id e = badgeDocId p (EarnedBadge.badgeType e)
                   /\ EarnedBadge.profileId e = p
                   /\ In (EarnedBadge.badgeType e, EarnedBadge.metadata e)
                         (attempts h lanes))
         newBadges ->
  (forall k e, earnedBadges w' !! k = Some e
               <-> earnedBadges w !! k = Some e
                   \/ (In e newBadges /\ k = EarnedBadge.id e)) ->
  List.filter (notEarned w' p) (map fst (attempts h lanes)) = [].
Proof.
  intros Hty Hall Hlk.
  destruct (List.filter (notEarned w' p) (map fst (attempts h lanes)))
    as [|b l] eqn:E; [reflexivity|exfalso].
  assert (Hb : In b (List.filter (notEarned w' p) (map fst (attempts h lanes))))
    by (rewrite E; left; reflexivity).
  apply filter_In in Hb as [Hb Hne]. apply bool_decide_eq_true in Hne.
  destruct (earnedBadges w !! badgeDocId p b) as [e|] eqn:Ew.
  - assert (earnedBadges w' !! badgeDocId p b = Some e) by (apply Hlk; auto).
    congruence.
  - assert (Hin : In b (map EarnedBadge.badgeType newBadges)).
    { rewrite Hty. apply filter_In. split; [exact Hb|].
      by apply bool_decide_eq_true. }
    apply in_map_iff in Hin as (e & <- & Hin).
    rewrite List.Forall_forall in Hall. destruct (Hall e Hin) as (Hid & _).
    assert (earnedBadges w' !! EarnedBadge.id e = Some e) by (apply Hlk; auto).
    congruence.
Qed.

(** C5.  In a store keyed by badge id (the shape every write of
    [awardBadge] has, starting from the empty store) a profile holds at
    most one earned-badge document of each kind, before and after every
    award and every evaluation.  Awarding a badge whose document exists
    returns [null] and changes nothing; a second award of the same badge
    always does so.  One evaluation returns pairwise distinct badges, each
    of them absent before the call and stored by it, and the store after
    the call holds exactly the old documents and the returned ones;
    evaluating again at once returns nothing and stores nothing. *)
Theorem badges_awarded_at_most_once p h lanes w :
  keyedByBadge (earnedBadges w) ->
  (forall q b, length (badgesOf (earnedBadges w) q b) <= 1)
  /\ (forall b md e, earnedBadges w !! badgeDocId p b = Some e ->
                     awardBadge p b md w = Ok None w)
  /\ (forall b md md', exists r1 w1,
        awardBadge p b md w = Ok r1 w1
        /\ awardBadge p b md' w1 = Ok None w1
        /\ forall q c, length (badgesOf (earnedBadges w1) q c) <= 1)
  /\ (exists newBadges w',
        checkAndAwardBadges p h lanes w = Ok newBadges w'
        /\ NoDup (map EarnedBadge.badgeType newBadges)
        /\ (forall e, In e newBadges ->
              EarnedBadge.profileId e = p
              /\ earnedBadges w !! EarnedBadge.id e = None
              /\ earnedBadges w' !! EarnedBadge.id e = Some e)
        /\ (forall k e, earnedBadges w' !! k = Some e
                        <-> earnedBadges w !! k = Some e
                            \/ (In e newBadges /\ k = EarnedBadge.id e))
        /\ (forall q b, length (badgesOf (earnedBadges w') q b) <= 1)
        /\ exists w'', checkAndAwardBadges p h lanes w' = Ok [] w''
                       /\ earnedBadges w'' = earnedBadges w').
Proof.
  intros Hkeyed. split; [|split; [|split]].
  - intros q b. by apply keyedByBadge_at_most_one.
  - intros b md e E. rewrite awardBadge_run. by rewrite E.
  - intros b md md'.
    pose proof (awardBadge_keyed p b md w Hkeyed) as Hk1.
    unfold worldAfter in Hk1. rewrite awardBadge_run in *.
    destruct (earnedBadges w !! badgeDocId p b) as [e|] eqn:E.
    + exists None, w. split; [reflexivity|]. split.
      * rewrite awardBadge_run. by rewrite E.
      * intros q c. by apply keyedByBadge_at_most_one.
    + cbn zeta in *. eexists _, _. split; [reflexivity|]. split.
      * rewrite awardBadge_run. cbn [earnedBadges withEarnedBadges].
        by rewrite lookup_insert_eq.
      * intros q c. by apply keyedByBadge_at_most_one.
  - destruct (checkAndAwardBadges_run p h lanes w)
      as (newBadges & w' & Hrun & Hty & Hall & Hlk & _).
    pose proof (checkAndAwardBadges_keyed p h lanes w newBadges w'
                  Hkeyed Hall Hlk) as Hkeyed'.
    exists newBadges, w'. split; [exact Hrun|].
    split; [by eapply newBadges_NoDup_types|].
    split; [|split; [exact Hlk|split]].
    + intros e Hin.
      pose proof (newBadges_fresh p h lanes w newBadges Hty Hall e Hin) as Hfresh.
      rewrite List.Forall_forall in Hall. destruct (Hall e Hin) as (_ & Hp & _).
      repeat split; auto. apply Hlk. auto.
    + intros q b. by apply keyedByBadge_at_most_one.
    + destruct (checkAndAwardBadges_run p h lanes w')
        as (nb2 & w'' & Hrun2 & Hty2 & _ & Hlk2 & _).
      rewrite (attempts_all_earned p h lanes w newBadges w' Hty Hall Hlk) in Hty2.
      apply map_eq_nil in Hty2. subst nb2.
      exists w''. split; [exact Hrun2|].
      apply map_eq. intros k. apply option_eq. intros e. rewrite Hlk2.
      split; [intros [H|[[] _]]|]; auto.
Qed.

(** ** The table in the words of the specification *)

Lemma NoDup_map_filter {A B} (f : A -> B) (g : A -> bool) (l : list A) :
  List.NoDup (map f l) -> List.NoDup (map f (List.filter g l)).
Proof.
  induction l as [|x l IH]; cbn; [auto|]. intros H.
  inversion H as [|? ? Hx Hl]; subst. destruct (g x); cbn; [|auto].
  constructor; [|auto]. intros (y & Hy & Hin)%in_map_iff.
  apply filter_In in Hin as [Hin _]. apply Hx. apply in_map_iff. eauto.
Qed.








Lemma badges_awarded_at_most_once_witness :
  keyedByBadge (earnedBadges (emptyWorld secondsClock))
  /\ (forall q b, length (badgesOf (earnedBadges (emptyWorld secondsClock)) q b) <= 1)
  /\ (exists newBadges w',
        checkAndAwardBadges "kid" [sampleRecord "item-1" "lane-1" true]
          [sampleLane "lane-1" Science ["item-1"]] (emptyWorld secondsClock)
        = Ok newBadges w'
        /\ NoDup (map EarnedBadge.badgeType newBadges)
        /\ (forall q b, length (badgesOf (earnedBadges w') q b) <= 1)
        /\ exists w'',
             checkAndAwardBadges "kid" [sampleRecord "item-1" "lane-1" true]
               [sampleLane "lane-1" Science ["item-1"]] w' = Ok [] w''
             /\ earnedBadges w'' = earnedBadges w').
Proof.
  split; [apply keyedByBadge_empty|].
  destruct (badges_awarded_at_most_once "kid"
              [sampleRecord "item-1" "lane-1" true]
              [sampleLane "lane-1" Science ["item-1"]]
              (emptyWorld secondsClock) (keyedByBadge_empty secondsClock))
    as (H1 & _ & _ & newBadges & w' & Hrun & Hnd & _ & _ & Hone & Hagain).
  split; [exact H1|]. exists newBadges, w'. auto.
Defined.

(** The scenarios of the specification, evaluated: with completed records
    in three categories [explorer] is not awarded, with a fourth it is;
    a lane of two items, both completed, earns [lane_master] once, with
    the lane's id and title, and a second evaluation awards nothing. *)
Example badge_scenarios :
  map EarnedBadge.badgeType
    (default []
       (valueOf
          (checkAndAwardBadges "kid"
             [sampleRecord "a" "l1" true; sampleRecord "b" "l2" true;
              sampleRecord "c" "l3" true; sampleRecord "x" "l4" false]
             [sampleLane "l1" Science ["a"; "a2"]; sampleLane "l2" Music ["b"; "b2"];
              sampleLane "l3" Math ["c"; "c2"]; sampleLane "l4" Reading ["x"]])
          (emptyWorld secondsClock)))
  = [first_watch]
  /\ map EarnedBadge.badgeType
       (default []
          (valueOf
             (checkAndAwardBadges "kid"
                [sampleRecord "a" "l1" true; sampleRecord "b" "l2" true;
                 sampleRecord "c" "l3" true; sampleRecord "x" "l4" true]
                [sampleLane "l1" Science ["a"; "a2"]; sampleLane "l2" Music ["b"; "b2"];
                 sampleLane "l3" Math ["c"; "c2"]; sampleLane "l4" Reading ["x"]])
             (emptyWorld secondsClock)))
     = [first_watch; lane_master; explorer]
  /\ map (fun e => (EarnedBadge.badgeType e, EarnedBadge.metadata e))
       (default []
          (valueOf
             (checkAndAwardBadges "kid"
                [sampleRecord "a" "l1" true; sampleRecord "b" "l1" true]
                [sampleLane "l0" Fun []; sampleLane "l1" Science ["a"; "b"]])
             (emptyWorld secondsClock)))
     = [(first_watch, None);
        (lane_master, Some [("laneId", "l1"); ("laneTitle", "Lane l1")])]
  /\ valueOf
       (checkAndAwardBadges "kid"
          [sampleRecord "a" "l1" true; sampleRecord "b" "l1" true]
          [sampleLane "l0" Fun []; sampleLane "l1" Science ["a"; "b"; "c"]])
       (worldAfter
          (checkAndAwardBadges "kid"
             [sampleRecord "a" "l1" true; sampleRecord "b" "l1" true]
             [sampleLane "l0" Fun []; sampleLane "l1" Science ["a"; "b"]])
          (emptyWorld secondsClock))
     = Some [].
Proof. repeat split; vm_compute; reflexivity. Qed.

(* ================================================================== *)
(** * Lane generation pipeline: proofs *)
(* ================================================================== *)

Lemma addVideos_firstSeen videos allVideos seen :
  addVideos videos (allVideos, seen)
  = ((allVideos ++ firstSeen seen videos)%list, videoIds videos ∪ seen).
Proof.
  unfold addVideos, videoIds.
  revert allVideos seen. induction videos as [|v rest IH]; intros allVideos seen.
  - cbn. rewrite app_nil_r. f_equal. set_solver.
  - cbn [fold_left firstSeen fst snd map list_to_set].
    destruct (bool_decide (YouTubeVideoDetails.videoId v ∈ seen)) eqn:E.
    + rewrite IH. f_equal. apply bool_decide_eq_true in E. set_solver.
    + rewrite IH. rewrite <- app_assoc. cbn. f_equal. set_solver.
Qed.

Lemma firstSeen_app seen l1 l2 :
  firstSeen seen (l1 ++ l2)
  = (firstSeen seen l1 ++ firstSeen (videoIds l1 ∪ seen) l2)%list.
Proof.
  unfold videoIds. revert seen. induction l1 as [|v l1 IH]; intros seen.
  - cbn. f_equal. set_solver.
  - cbn [app firstSeen map list_to_set].
    destruct (bool_decide (YouTubeVideoDetails.videoId v ∈ seen)) eqn:E.
    + rewrite IH. do 2 f_equal. apply bool_decide_eq_true in E. set_solver.
    + rewrite IH. cbn. do 3 f_equal. set_solver.
Qed.

Lemma searchLoop_firstSeen youtube queries :
  forall n allVideos seen,
    searchLoop youtube n queries (allVideos, seen)
    = ((allVideos ++ firstSeen seen (returned youtube n queries))%list,
       videoIds (returned youtube n queries) ∪ seen).
Proof.
  induction queries as [|q rest IH]; intros n allVideos seen.
  - cbn. rewrite app_nil_r. f_equal. unfold videoIds. set_solver.
  - cbn [searchLoop returned].
    destruct (youtube n (q ++ " for kids educational")) as [videos|]; cbn [default].
    + rewrite addVideos_firstSeen, IH, firstSeen_app, <- app_assoc.
      f_equal. unfold videoIds. rewrite map_app, list_to_set_app_L. set_solver.
    + rewrite IH. reflexivity.
Qed.

Lemma firstSeen_fresh seen videos v :
  In v (firstSeen seen videos) -> YouTubeVideoDetails.videoId v ∉ seen.
Proof.
  revert seen. induction videos as [|a rest IH]; intros seen; cbn; [tauto|].
  destruct (bool_decide (YouTubeVideoDetails.videoId a ∈ seen)) eqn:E.
  - apply IH.
  - apply bool_decide_eq_false in E. intros [<-|Hin]; [exact E|].
    apply IH in Hin. set_solver.
Qed.

Lemma firstSeen_NoDup seen videos :
  NoDup (map YouTubeVideoDetails.videoId (firstSeen seen videos)).
Proof.
  revert seen. induction videos as [|a rest IH]; intros seen; cbn.
  - apply NoDup_nil_2.
  - destruct (bool_decide (YouTubeVideoDetails.videoId a ∈ seen)); [apply IH|].
    cbn. apply NoDup_cons. split; [|apply IH].
    intros Hin. apply list_elem_of_In, in_map_iff in Hin as (v & Hid & Hin).
    apply firstSeen_fresh in Hin. set_solver.
Qed.

Lemma firstSeen_ids seen videos id :
  In id (map YouTubeVideoDetails.videoId (firstSeen seen videos))
  <-> In id (map YouTubeVideoDetails.videoId videos) /\ id ∉ seen.
Proof.
  revert seen. induction videos as [|a rest IH]; intros seen; cbn; [tauto|].
  destruct (bool_decide (YouTubeVideoDetails.videoId a ∈ seen)) eqn:E.
  - apply bool_decide_eq_true in E. rewrite IH. split.
    + intros [H1 H2]. auto.
    + intros [[<-|H1] H2]; [contradiction|auto].
  - apply bool_decide_eq_false in E. cbn. rewrite IH. split.
    + intros [<-|[H1 H2]]; [auto|]. split; [auto|set_solver].
    + intros [[<-|H1] H2]; [auto|].
      destruct (decide (YouTubeVideoDetails.videoId a = id)); [auto|].
      right. split; [exact H1|set_solver].
Qed.

Lemma returned_failuresAsEmpty youtube queries :
  forall n, returned (failuresAsEmpty youtube) n queries = returned youtube n queries.
Proof. induction queries as [|q rest IH]; intros n; cbn; [|rewrite IH]; reflexivity. Qed.

Lemma searchStep_firstSeen youtube searchQueries :
  searchStep youtube searchQueries
  = firstSeen ∅ (returned youtube 0 (firstn 4 searchQueries)).
Proof. unfold searchStep. by rewrite searchLoop_firstSeen. Qed.

(** C7.  The search step calls the Search Service for the first 4 queries
    of the plan only; its candidate list holds every media identifier that
    a successful call returned, each exactly once, as the first video
    returned with that identifier and in the order of first appearance; a
    call that fails contributes nothing, exactly as if it had returned no
    video, and the step itself always yields its list. *)
Theorem searchStep_deduplicates (youtube : SearchService) (searchQueries : list string) :
  searchStep youtube searchQueries = searchStep youtube (firstn 4 searchQueries)
  /\ (forall q1 q2 q3 q4 more,
        searchStep youtube (q1 :: q2 :: q3 :: q4 :: more)
        = searchStep youtube [q1; q2; q3; q4])
  /\ NoDup (map YouTubeVideoDetails.videoId (searchStep youtube searchQueries))
  /\ (forall id,
        In id (map YouTubeVideoDetails.videoId (searchStep youtube searchQueries))
        <-> In id (map YouTubeVideoDetails.videoId
                     (returned youtube 0 (firstn 4 searchQueries))))
  /\ searchStep youtube searchQueries
     = firstSeen ∅ (returned youtube 0 (firstn 4 searchQueries))
  /\ searchStep (failuresAsEmpty youtube) searchQueries
     = searchStep youtube searchQueries.
Proof.
  split; [|split; [|split; [|split; [|split]]]].
  - unfold searchStep. by rewrite firstn_firstn.
  - reflexivity.
  - rewrite searchStep_firstSeen. apply firstSeen_NoDup.
  - intros id. rewrite searchStep_firstSeen, firstSeen_ids. split.
    + by intros [H _].
    + intros H. split; [exact H|set_solver].
  - apply searchStep_firstSeen.
  - rewrite !searchStep_firstSeen. by rewrite returned_failuresAsEmpty.
Qed.

(** ** Assembly *)

Lemma mapResult_Returns {A B} (f : A -> Result B) l ys :
  mapResult f l = Returns ys <-> Forall2 (fun x y => f x = Returns y) l ys.
Proof.
  revert ys. induction l as [|x l IH]; intros ys; cbn.
  - split.
    + intros [= <-]. constructor.
    + intros H. by inversion H.
  - destruct (f x) as [y|e] eqn:E.
    + destruct (mapResult f l) as [ys'|e] eqn:E'.
      * split.
        -- intros [= <-]. constructor; [exact E|]. by apply IH.
        -- intros H. inversion H as [|? y0 ? ys0 Hy Hrest]; subst.
           apply IH in Hrest. congruence.
      * split; [discriminate|]. intros H.
        inversion H as [|? y0 ? ys0 Hy Hrest]; subst.
        apply IH in Hrest. discriminate.
    + split; [discriminate|]. intros H. inversion H; subst. congruence.
Qed.

Lemma mapResult_Throws {A B} (f : A -> Result B) l e :
  mapResult f l = Throws e -> exists x, In x l /\ f x = Throws e.
Proof.
  induction l as [|x l IH]; cbn; [discriminate|].
  destruct (f x) as [y|e'] eqn:E.
  - destruct (mapResult f l) as [ys|e'']; [discriminate|].
    intros [= ->]. destruct IH as (x' & Hin & Hx'); eauto.
  - intros [= ->]. eauto.
Qed.

Lemma toItem_Returns allVideos selection item :
  toItem allVideos selection = Returns item
  <-> exists z video,
        integerValue (Selection.index selection - 1)%float = Some z
        /\ (0 <= z)%Z
        /\ nth_error allVideos (Z.to_nat z) = Some video
        /\ item = itemOf video selection.
Proof.
  unfold toItem, arrayGet, itemOf.
  destruct (integerValue (Selection.index selection - 1)%float) as [z|].
  - destruct (0 <=? z)%Z eqn:Ez.
    + apply Z.leb_le in Ez.
      destruct (nth_error allVideos (Z.to_nat z)) as [video|] eqn:En.
      * split.
        -- intros [= <-]. exists z, video. auto.
        -- intros (z' & video' & [= <-] & _ & Hn & ->).
           rewrite En in Hn. by injection Hn as <-.
      * split; [discriminate|]. intros (z' & video' & [= <-] & _ & Hn & _).
        rewrite En in Hn. discriminate.
    + apply Z.leb_gt in Ez. split; [discriminate|].
      intros (z' & video' & [= <-] & H & _). lia.
  - split; [discriminate|]. intros (z' & video' & H & _). discriminate.
Qed.

Lemma filter_filter {A} (f : A -> bool) l :
  List.filter f (List.filter f l) = List.filter f l.
Proof.
  induction l as [|a l IH]; cbn; [reflexivity|].
  destruct (f a) eqn:E; cbn; rewrite ?E, IH; reflexivity.
Qed.

(** Selections that fail the bounds check play no part in the result. *)
Lemma selectedItems_discards selectedVideos allVideos maxVideos :
  selectedItems selectedVideos allVideos maxVideos
  = selectedItems (List.filter (indexInBounds allVideos) selectedVideos)
                  allVideos maxVideos.
Proof. unfold selectedItems. by rewrite filter_filter. Qed.

(** When the assembly returns, every surviving selection has been mapped
    to the candidate that [index - 1] denotes. *)
Lemma selectedItems_Returns selectedVideos allVideos maxVideos items :
  selectedItems selectedVideos allVideos maxVideos = Returns items ->
  Forall2
    (fun selection item =>
       exists z video,
         integerValue (Selection.index selection - 1)%float = Some z
         /\ (0 <= z)%Z
         /\ nth_error allVideos (Z.to_nat z) = Some video
         /\ item = itemOf video selection)
    (sliceTo (List.filter (indexInBounds allVideos) selectedVideos) maxVideos)
    items.
Proof.
  unfold selectedItems. intros H. apply mapResult_Returns in H.
  eapply Forall2_impl; [exact H|]. intros s item Hs. by apply toItem_Returns.
Qed.

Lemma integerIndexFacts_small :
  forallb (fun z => forallb (integerIndexFacts z) smallCounts) smallIndices = true.
Proof. vm_compute. reflexivity. Qed.

Lemma integerIndexFacts_In z n :
  In z smallIndices -> In n smallCounts ->
  (0 <? Z2F z)%float = (0 <? z)%Z
  /\ (Z2F z <=? Z2F n)%float = (z <=? n)%Z
  /\ integerValue (Z2F z - 1)%float = Some (z - 1)%Z.
Proof.
  intros Hz Hn. pose proof integerIndexFacts_small as H.
  rewrite forallb_forall in H. specialize (H z Hz).
  rewrite forallb_forall in H. specialize (H n Hn).
  unfold integerIndexFacts in H.
  apply andb_true_iff in H as [H H3]. apply andb_true_iff in H as [H1 H2].
  apply Bool.eqb_prop in H1, H2.
  destruct (integerValue (Z2F z - 1)%float) as [y|]; [|discriminate].
  apply Z.eqb_eq in H3. subst y. auto.
Qed.

Lemma smallIndices_In z : (-100 <= z <= 100)%Z -> In z smallIndices.
Proof.
  intros Hz. unfold smallIndices. apply in_map_iff.
  exists (Z.to_nat (z + 100)). split; [lia|]. apply in_seq. lia.
Qed.

Lemma smallCounts_In n : n <= 20 -> In (Z.of_nat n) smallCounts.
Proof. intros Hn. unfold smallCounts. apply in_map, in_seq. lia. Qed.

Lemma sliceTo_In {A} (l : list A) e x : In x (sliceTo l e) -> In x l.
Proof.
  assert (Hfirst : forall n, In x (firstn n l) -> In x l).
  { intros n H. rewrite <- (firstn_skipn n l). apply in_or_app. by left. }
  unfold sliceTo. destruct (e <? 0)%Z; apply Hfirst.
Qed.

Lemma mapResult_all {A B} (f : A -> Result B) (R : A -> B -> Prop) l :
  (forall x, In x l -> exists y, f x = Returns y /\ R x y) ->
  exists ys, mapResult f l = Returns ys /\ Forall2 R l ys.
Proof.
  induction l as [|x l IH]; intros H; cbn.
  - exists []. split; [reflexivity|constructor].
  - destruct (H x) as (y & Hy & HR); [by left|].
    destruct IH as (ys & Hys & HF); [intros x' Hx'; apply H; by right|].
    exists (y :: ys). rewrite Hy, Hys. split; [reflexivity|by constructor].
Qed.

(** For integer indices (here between -100 and 100, over at most 20
    candidates) the bounds check keeps exactly the indices from 1 to N,
    the assembly returns, and every surviving selection is mapped to the
    candidate at its index. *)
Lemma selectedItems_integer_indices selectedVideos allVideos maxVideos :
  length allVideos <= 20 ->
  Forall (fun s => exists z, (-100 <= z <= 100)%Z /\ Selection.index s = Z2F z)
         selectedVideos ->
  (forall s z, In s selectedVideos -> (-100 <= z <= 100)%Z ->
               Selection.index s = Z2F z ->
               (indexInBounds allVideos s = true
                <-> (1 <= z <= Z.of_nat (length allVideos))%Z))
  /\ exists items,
       selectedItems selectedVideos allVideos maxVideos = Returns items
       /\ Forall2
            (fun s item =>
               exists z video,
                 Selection.index s = Z2F z
                 /\ (1 <= z <= Z.of_nat (length allVideos))%Z
                 /\ nth_error allVideos (Z.to_nat (z - 1)) = Some video
                 /\ item = itemOf video s)
            (sliceTo (List.filter (indexInBounds allVideos) selectedVideos)
                     maxVideos)
            items.
Proof.
  intros Hlen Hall.
  assert (Hbounds : forall s z, (-100 <= z <= 100)%Z ->
            Selection.index s = Z2F z ->
            (indexInBounds allVideos s = true
             <-> (1 <= z <= Z.of_nat (length allVideos))%Z)).
  { intros s z Hz Hs. unfold indexInBounds, lengthNumber. rewrite Hs.
    destruct (integerIndexFacts_In z (Z.of_nat (length allVideos))
                (smallIndices_In z Hz) (smallCounts_In _ Hlen)) as (-> & -> & _).
    rewrite andb_true_iff, Z.ltb_lt, Z.leb_le. lia. }
  split; [intros s z _; apply Hbounds|].
  unfold selectedItems. apply mapResult_all. intros s Hs.
  apply sliceTo_In, filter_In in Hs as [Hin Hb].
  rewrite List.Forall_forall in Hall. destruct (Hall s Hin) as (z & Hz & Hs).
  apply (Hbounds s z Hz Hs) in Hb.
  destruct (integerIndexFacts_In z (Z.of_nat (length allVideos))
              (smallIndices_In z Hz) (smallCounts_In _ Hlen)) as (_ & _ & Hint).
  destruct (nth_error allVideos (Z.to_nat (z - 1))) as [video|] eqn:En.
  - exists (itemOf video s). split.
    + apply toItem_Returns. exists (z - 1)%Z, video. rewrite Hs.
      repeat split; auto. lia.
    + exists z, video. auto.
  - apply nth_error_None in En. lia.
Qed.

(** C8, the failing input.  Over three candidates, a ranking response whose
    only selection has index 0.5 - outside [1, 3] - passes the bounds
    check ([0.5 > 0] and [0.5 <= 3]); [allVideos[-0.5]] is [undefined], and
    reading its [title] throws a [TypeError]: the assembly, and with it the
    pipeline, fails.  So does index 1.5.  The same response with index 0,
    4, -1 or NaN is discarded silently, and with index 2 it is mapped to
    the second candidate. *)
Lemma selectedItems_fractional_index_throws :
  indexInBounds [sampleVideo "a"; sampleVideo "b"; sampleVideo "c"]
                (Selection.mk 0.5 90 "fun") = true
  /\ selectedItems [Selection.mk 0.5 90 "fun"]
       [sampleVideo "a"; sampleVideo "b"; sampleVideo "c"] 8
     = Throws TypeError
  /\ selectedItems [Selection.mk 2 80 "good"; Selection.mk 1.5 90 "fun"]
       [sampleVideo "a"; sampleVideo "b"; sampleVideo "c"] 8
     = Throws TypeError
  /\ selectedItems [Selection.mk 0 90 "fun"; Selection.mk 4 90 "fun";
                    Selection.mk (-1) 90 "fun"; Selection.mk nan 90 "fun"]
       [sampleVideo "a"; sampleVideo "b"; sampleVideo "c"] 8
     = Returns []
  /\ selectedItems [Selection.mk 2 90 "fun"]
       [sampleVideo "a"; sampleVideo "b"; sampleVideo "c"] 8
     = Returns [itemOf (sampleVideo "b") (Selection.mk 2 90 "fun")].
Proof. repeat split; vm_compute; reflexivity. Qed.

(* ================================================================== *)
(** * The fenced block and [generateJSON]: proofs *)
(* ================================================================== *)

Lemma append_cons c (s t : string) : String c s ++ t = String c (s ++ t).
Proof. reflexivity. Qed.

Lemma append_nil (t : string) : "" ++ t = t.
Proof. reflexivity. Qed.

Local Open Scope list_scope.

Lemma stripUnits_app p s : stripUnits p (p ++ s) = Some s.
Proof.
  induction p as [|a p IH]; [reflexivity|].
  cbn [app stripUnits]. by rewrite N.eqb_refl.
Qed.

Lemma stripUnits_Some p s r : stripUnits p s = Some r -> s = p ++ r.
Proof.
  revert s. induction p as [|a p IH]; intros s; cbn [stripUnits].
  - by intros [= ->].
  - destruct s as [|b s]; [discriminate|].
    destruct (a =? b)%N eqn:E; [|discriminate].
    apply N.eqb_eq in E. subst b. intros H. cbn. f_equal. by apply IH.
Qed.

Lemma stripUnits_fence_other c s :
  (c =? backquote)%N = false -> stripUnits fence (c :: s) = None.
Proof.
  intros H. unfold fence. cbn [stripUnits].
  rewrite N.eqb_sym, H. reflexivity.
Qed.

(** Whether a fence begins at the first unit depends on three units only:
    if none begins when two backquotes follow [c :: s], none begins
    whatever follows. *)
Lemma stripUnits_fence_any c s t :
  stripUnits fence (c :: s ++ [backquote; backquote]) = None ->
  stripUnits fence (c :: s ++ t) = None.
Proof.
  unfold fence. cbn [stripUnits].
  destruct (backquote =? c)%N; [|reflexivity].
  destruct s as [|c1 s]; cbn [app stripUnits].
  - intros H. vm_compute in H. discriminate H.
  - destruct (backquote =? c1)%N; [|reflexivity].
    destruct s as [|c2 s]; cbn [app stripUnits].
    + intros H. vm_compute in H. discriminate H.
    + destruct (backquote =? c2)%N; [discriminate|reflexivity].
Qed.

Lemma isSpace_not_backquote c : isSpace c = true -> (c =? backquote)%N = false.
Proof.
  intros H. destruct (c =? backquote)%N eqn:E; [|reflexivity].
  apply N.eqb_eq in E. subst c. vm_compute in H. discriminate H.
Qed.

Lemma closesFence_unfold s :
  closesFence s
  = match stripUnits fence s with
    | Some _ => true
    | None => match s with
              | c :: rest => if isSpace c then closesFence rest else false
              | [] => false
              end
    end.
Proof. destruct s; reflexivity. Qed.

Lemma lazyBody_unfold s :
  lazyBody s
  = if closesFence s then Some []
    else match s with
         | c :: rest => option_map (cons c) (lazyBody rest)
         | [] => None
         end.
Proof. destruct s; reflexivity. Qed.

Lemma spacesThenBody_unfold s :
  spacesThenBody s
  = match s with
    | c :: rest =>
        if isSpace c then
          match spacesThenBody rest with
          | Some body => Some body
          | None => lazyBody s
          end
        else lazyBody s
    | [] => lazyBody s
    end.
Proof. destruct s; reflexivity. Qed.

Lemma fenceMatch_unfold response :
  fenceMatch response
  = match fenceAt response with
    | Some body => Some body
    | None => match response with
              | _ :: rest => fenceMatch rest
              | [] => None
              end
    end.
Proof. destruct response; reflexivity. Qed.

Lemma hasFence_unfold s :
  hasFence s
  = match stripUnits fence s with
    | Some _ => true
    | None => match s with
              | _ :: rest => hasFence rest
              | [] => false
              end
    end.
Proof. destruct s; reflexivity. Qed.

Lemma fenceFree_cons c s :
  fenceFree (c :: s) = true ->
  stripUnits fence (c :: s ++ [backquote; backquote]) = None
  /\ fenceFree s = true.
Proof.
  unfold fenceFree. intros H%negb_true_iff.
  change ((c :: s) ++ [backquote; backquote])
    with (c :: s ++ [backquote; backquote]) in H.
  rewrite hasFence_unfold in H.
  destruct (stripUnits fence (c :: s ++ [backquote; backquote]));
    [discriminate|]. by rewrite H.
Qed.

(** ** What the pattern recognises *)

Lemma closesFence_spaces ws post :
  allSpaces ws = true -> closesFence (ws ++ fence ++ post) = true.
Proof.
  induction ws as [|c ws IH]; intros H.
  - reflexivity.
  - cbn in H. apply andb_true_iff in H as [Hc Hws].
    change ((c :: ws) ++ fence ++ post) with (c :: ws ++ fence ++ post).
    rewrite closesFence_unfold.
    rewrite (stripUnits_fence_other _ _ (isSpace_not_backquote c Hc)), Hc.
    by apply IH.
Qed.

Lemma endsNonSpace_tail c body :
  endsNonSpace (c :: body) = true -> body = [] \/ endsNonSpace body = true.
Proof. destruct body; [by left|]. cbn. by right. Qed.

(** Inside a body that holds no fence and does not end in white space,
    the closing part of the pattern matches nowhere. *)
Lemma closesFence_body body rest :
  fenceFree body = true -> endsNonSpace body = true ->
  closesFence (body ++ rest) = false.
Proof.
  induction body as [|c body IH]; intros Hf He; [discriminate|].
  apply fenceFree_cons in Hf as [Hc Hf].
  change ((c :: body) ++ rest) with (c :: body ++ rest).
  rewrite closesFence_unfold, (stripUnits_fence_any _ _ rest Hc).
  destruct (isSpace c) eqn:Es; [|reflexivity].
  destruct (endsNonSpace_tail _ _ He) as [->|He'].
  - cbn in He. rewrite Es in He. discriminate.
  - by apply IH.
Qed.

Lemma lazyBody_body body ws post :
  fenceFree body = true -> body = [] \/ endsNonSpace body = true ->
  allSpaces ws = true ->
  lazyBody (body ++ ws ++ fence ++ post) = Some body.
Proof.
  intros Hf He Hws. induction body as [|c body IH].
  - cbn [app]. rewrite lazyBody_unfold. by rewrite closesFence_spaces.
  - destruct He as [He|He]; [discriminate|].
    pose proof (closesFence_body _ (ws ++ fence ++ post) Hf He) as Hc.
    apply fenceFree_cons in Hf as [_ Hf].
    change ((c :: body) ++ ws ++ fence ++ post)
      with (c :: body ++ ws ++ fence ++ post) in *.
    rewrite lazyBody_unfold, Hc.
    rewrite IH; [reflexivity|exact Hf|by eapply endsNonSpace_tail].
Qed.

Lemma spacesThenBody_spaces ws post :
  allSpaces ws = true -> spacesThenBody (ws ++ fence ++ post) = Some [].
Proof.
  induction ws as [|c ws IH]; intros H.
  - reflexivity.
  - cbn in H. apply andb_true_iff in H as [Hc Hws].
    change ((c :: ws) ++ fence ++ post) with (c :: ws ++ fence ++ post).
    rewrite spacesThenBody_unfold, Hc. by rewrite IH.
Qed.

Lemma spacesThenBody_body ws1 body ws2 post :
  allSpaces ws1 = true ->
  body = [] \/ (startsNonSpace body = true /\ endsNonSpace body = true) ->
  fenceFree body = true -> allSpaces ws2 = true ->
  spacesThenBody (ws1 ++ body ++ ws2 ++ fence ++ post) = Some body.
Proof.
  intros H1 Hb Hf H2. induction ws1 as [|c ws1 IH].
  - cbn [app]. destruct Hb as [->|[Hs He]].
    + by apply spacesThenBody_spaces.
    + destruct body as [|c body]; [discriminate|].
      cbn in Hs. apply negb_true_iff in Hs.
      change ((c :: body) ++ ws2 ++ fence ++ post)
        with (c :: body ++ ws2 ++ fence ++ post).
      rewrite spacesThenBody_unfold, Hs.
      apply (lazyBody_body (c :: body)); auto.
  - cbn in H1. apply andb_true_iff in H1 as [Hc H1].
    change ((c :: ws1) ++ body ++ ws2 ++ fence ++ post)
      with (c :: ws1 ++ body ++ ws2 ++ fence ++ post).
    rewrite spacesThenBody_unfold, Hc, IH; auto.
Qed.

(** A block in its place: the opening fence, the tag [json] or nothing
    that could be read as the tag, white space, the body, white space and
    the closing fence. *)
Lemma fenceAt_block tag ws1 body ws2 post :
  tag = jsonTag
  \/ (tag = [] /\ stripUnits jsonTag (ws1 ++ body ++ ws2 ++ fence ++ post) = None) ->
  allSpaces ws1 = true ->
  body = [] \/ (startsNonSpace body = true /\ endsNonSpace body = true) ->
  fenceFree body = true -> allSpaces ws2 = true ->
  fenceAt (fence ++ tag ++ ws1 ++ body ++ ws2 ++ fence ++ post) = Some body.
Proof.
  intros Htag H1 Hb Hf H2. unfold fenceAt.
  rewrite stripUnits_app. destruct Htag as [->|[-> Hj]].
  - rewrite stripUnits_app. by rewrite spacesThenBody_body.
  - cbn [app]. rewrite Hj. by apply spacesThenBody_body.
Qed.

(** The match is the leftmost one: text before the block that holds no
    fence is passed over. *)
Lemma fenceMatch_after pre s :
  fenceFree pre = true -> fenceMatch (pre ++ s) = fenceMatch s.
Proof.
  intros Hp. induction pre as [|c pre IH]; [reflexivity|].
  apply fenceFree_cons in Hp as [Hc Hp].
  change ((c :: pre) ++ s) with (c :: pre ++ s).
  rewrite fenceMatch_unfold. unfold fenceAt at 1.
  rewrite (stripUnits_fence_any _ _ s Hc). by apply IH.
Qed.

Lemma fenceMatch_block pre tag ws1 body ws2 post :
  fenceFree pre = true ->
  tag = jsonTag
  \/ (tag = [] /\ stripUnits jsonTag (ws1 ++ body ++ ws2 ++ fence ++ post) = None) ->
  allSpaces ws1 = true ->
  body = [] \/ (startsNonSpace body = true /\ endsNonSpace body = true) ->
  fenceFree body = true -> allSpaces ws2 = true ->
  fenceMatch (pre ++ fence ++ tag ++ ws1 ++ body ++ ws2 ++ fence ++ post)
  = Some body.
Proof.
  intros Hp Htag H1 Hb Hf H2. rewrite fenceMatch_after by exact Hp.
  rewrite fenceMatch_unfold. by rewrite fenceAt_block.
Qed.

(** ** What a match captures *)

Lemma closesFence_true s :
  closesFence s = true
  <-> exists ws post, allSpaces ws = true /\ s = ws ++ fence ++ post.
Proof.
  split; [|intros (ws & post & H & ->); by apply closesFence_spaces].
  induction s as [|c s IH]; rewrite closesFence_unfold.
  - discriminate.
  - destruct (stripUnits fence (c :: s)) as [post|] eqn:E.
    + intros _. apply stripUnits_Some in E. exists [], post. auto.
    + destruct (isSpace c) eqn:Ec; [|discriminate].
      intros (ws & post & Hws & ->)%IH. exists (c :: ws), post.
      split; [cbn; by rewrite Ec|reflexivity].
Qed.

(** The lazy body is a prefix after which the closing fence follows, and
    the shortest one. *)
Lemma lazyBody_Some s body :
  lazyBody s = Some body ->
  exists rest, s = body ++ rest /\ closesFence rest = true
               /\ forall b1 b2, body = b1 ++ b2 -> b2 <> [] ->
                                closesFence (b2 ++ rest) = false.
Proof.
  revert body. induction s as [|c s IH]; intros body; rewrite lazyBody_unfold.
  - destruct (closesFence []) eqn:E; [discriminate E|discriminate].
  - destruct (closesFence (c :: s)) eqn:E.
    + intros [= <-]. exists (c :: s). split; [reflexivity|].
      split; [exact E|]. intros b1 b2 H Hne.
      destruct b1; [cbn in H; congruence|discriminate].
    + destruct (lazyBody s) as [body'|] eqn:El; [|discriminate].
      cbn [option_map]. intros [= <-].
      destruct (IH body' eq_refl) as (rest & -> & Hc & Hmin).
      exists rest. split; [reflexivity|]. split; [exact Hc|].
      intros b1 b2 H Hne. destruct b1 as [|c1 b1].
      * cbn in H. subst b2. exact E.
      * cbn in H. injection H as _ H. by apply (Hmin b1).
Qed.

Lemma lazyBody_is_Some s :
  is_Some (lazyBody s) <-> exists mid post, s = mid ++ fence ++ post.
Proof.
  split.
  - intros [body (rest & -> & Hc & _)%lazyBody_Some].
    apply closesFence_true in Hc as (ws & post & _ & ->).
    exists (body ++ ws), post. by rewrite <- app_assoc.
  - intros (mid & post & ->). induction mid as [|c mid IH];
      rewrite lazyBody_unfold.
    + pose proof (closesFence_spaces [] post eq_refl) as Hc.
      cbn [app] in *. rewrite Hc. eauto.
    + destruct (closesFence _); [eauto|].
      change ((c :: mid) ++ fence ++ post) with (c :: mid ++ fence ++ post).
      destruct IH as [b ->]. cbn. eauto.
Qed.

Lemma lazyBody_spacesThenBody s :
  is_Some (lazyBody s) -> is_Some (spacesThenBody s).
Proof.
  intros H. rewrite spacesThenBody_unfold. destruct s as [|c s]; [exact H|].
  destruct (isSpace c); [|exact H]. destruct (spacesThenBody s); eauto.
Qed.

(** The capture after the white space: the white space is skipped as far
    as it goes, and the body is the lazy body of what follows. *)
Lemma spacesThenBody_Some s body :
  spacesThenBody s = Some body ->
  exists ws s', allSpaces ws = true /\ s = ws ++ s'
                /\ startsNonSpace s' = true /\ lazyBody s' = Some body.
Proof.
  induction s as [|c s IH]; rewrite spacesThenBody_unfold.
  - rewrite lazyBody_unfold. destruct (closesFence []) eqn:E; discriminate.
  - destruct (isSpace c) eqn:Ec.
    + destruct (spacesThenBody s) as [b|] eqn:Es.
      * intros [= <-]. destruct (IH eq_refl) as (ws & s' & H1 & -> & H3 & H4).
        exists (c :: ws), s'. split; [cbn; by rewrite Ec|]. auto.
      * intros Hl. exfalso.
        assert (Hs : is_Some (lazyBody s)).
        { rewrite lazyBody_unfold in Hl. rewrite closesFence_unfold in Hl.
          rewrite (stripUnits_fence_other _ _ (isSpace_not_backquote c Ec)) in Hl.
          rewrite Ec in Hl.
          destruct (closesFence s) eqn:Ecl.
          - rewrite lazyBody_unfold, Ecl. eauto.
          - destruct (lazyBody s); [eauto|discriminate]. }
        apply lazyBody_spacesThenBody in Hs. rewrite Es in Hs.
        by destruct Hs.
    + intros Hl. exists [], (c :: s). split; [reflexivity|].
      split; [reflexivity|]. split; [cbn; by rewrite Ec|exact Hl].
Qed.

Lemma spacesThenBody_is_Some s :
  is_Some (spacesThenBody s) <-> exists mid post, s = mid ++ fence ++ post.
Proof.
  rewrite <- lazyBody_is_Some. split; [|apply lazyBody_spacesThenBody].
  intros [body (ws & s' & H1 & -> & H3 & H4)%spacesThenBody_Some].
  apply lazyBody_is_Some.
  assert (Hs : is_Some (lazyBody s')) by eauto.
  apply lazyBody_is_Some in Hs as (mid & post & ->).
  exists (ws ++ mid), post. by rewrite <- app_assoc.
Qed.

(** The pattern matches at a position exactly when a fence stands there
    and another one follows it. *)
Lemma fenceAt_is_Some s :
  is_Some (fenceAt s) <-> exists mid post, s = fence ++ mid ++ fence ++ post.
Proof.
  unfold fenceAt. split.
  - destruct (stripUnits fence s) as [r|] eqn:E; [|by intros []].
    apply stripUnits_Some in E. subst s. intros H.
    assert (Hr : is_Some (spacesThenBody r)
                 \/ exists r', r = jsonTag ++ r' /\ is_Some (spacesThenBody r')).
    { destruct (stripUnits jsonTag r) as [r'|] eqn:Ej; [|by left].
      apply stripUnits_Some in Ej.
      destruct (spacesThenBody r') as [b|] eqn:Eb; [|by left].
      right. exists r'. rewrite Eb. eauto. }
    destruct Hr as [Hr|(r' & -> & Hr)].
    + apply spacesThenBody_is_Some in Hr as (mid & post & ->). eauto.
    + apply spacesThenBody_is_Some in Hr as (mid & post & ->).
      exists (jsonTag ++ mid), post. by rewrite <- app_assoc.
  - intros (mid & post & ->). rewrite stripUnits_app.
    assert (Hr : is_Some (spacesThenBody (mid ++ fence ++ post)))
      by (apply spacesThenBody_is_Some; eauto).
    destruct (stripUnits jsonTag _) as [r'|]; [|exact Hr].
    destruct (spacesThenBody r'); eauto.
Qed.

Lemma fenceMatch_is_Some response :
  is_Some (fenceMatch response)
  <-> exists pre mid post, response = pre ++ fence ++ mid ++ fence ++ post.
Proof.
  induction response as [|c response IH]; rewrite fenceMatch_unfold.
  - split; [intros [x H]; discriminate H|].
    intros (pre & mid & post & H). destruct pre; discriminate H.
  - destruct (fenceAt (c :: response)) as [b|] eqn:E.
    + split; [|eauto]. intros _.
      assert (Hs : is_Some (fenceAt (c :: response))) by eauto.
      apply fenceAt_is_Some in Hs as (mid & post & ->). by exists [], mid, post.
    + rewrite IH. split.
      * intros (pre & mid & post & ->). by exists (c :: pre), mid, post.
      * intros (pre & mid & post & H). destruct pre as [|c' pre].
        -- cbn [app] in H.
           assert (Hs : is_Some (fenceAt (c :: response)))
             by (apply fenceAt_is_Some; eauto).
           rewrite E in Hs. by destruct Hs.
        -- cbn in H. injection H as _ ->. eauto.
Qed.

Lemma fenceMatch_None response :
  fenceMatch response = None
  <-> forall pre mid post, response <> pre ++ fence ++ mid ++ fence ++ post.
Proof.
  split.
  - intros H pre mid post Heq.
    assert (Hs : is_Some (fenceMatch response))
      by (apply fenceMatch_is_Some; eauto).
    rewrite H in Hs. by destruct Hs.
  - intros H. destruct (fenceMatch response) as [b|] eqn:E; [|reflexivity].
    exfalso. assert (Hs : is_Some (fenceMatch response)) by eauto.
    apply fenceMatch_is_Some in Hs as (pre & mid & post & Heq).
    by apply (H pre mid post).
Qed.

Lemma fenceAt_Some s body :
  fenceAt s = Some body ->
  exists tag ws s',
    s = fence ++ tag ++ ws ++ s' /\ (tag = [] \/ tag = jsonTag)
    /\ allSpaces ws = true /\ startsNonSpace s' = true
    /\ lazyBody s' = Some body.
Proof.
  unfold fenceAt. destruct (stripUnits fence s) as [r|] eqn:E; [|discriminate].
  apply stripUnits_Some in E. subst s. intros H.
  assert (Hr : spacesThenBody r = Some body
               \/ exists r', r = jsonTag ++ r' /\ spacesThenBody r' = Some body).
  { destruct (stripUnits jsonTag r) as [r'|] eqn:Ej; [|by left].
    apply stripUnits_Some in Ej.
    destruct (spacesThenBody r') as [b|] eqn:Eb; [|by left].
    right. exists r'. split; [exact Ej|congruence]. }
  destruct Hr as [Hr|(r' & -> & Hr)];
    apply spacesThenBody_Some in Hr as (ws & s' & H1 & -> & H3 & H4).
  - exists [], ws, s'. cbn [app]. auto 6.
  - exists jsonTag, ws, s'. auto 6.
Qed.

Lemma fenceMatch_Some response body :
  fenceMatch response = Some body ->
  exists pre s, response = pre ++ s /\ fenceAt s = Some body.
Proof.
  induction response as [|c response IH]; rewrite fenceMatch_unfold.
  - destruct (fenceAt []) as [b|] eqn:E; [|discriminate].
    intros [= <-]. by exists [], [].
  - destruct (fenceAt (c :: response)) as [b|] eqn:E.
    + intros [= <-]. by exists [], (c :: response).
    + intros (pre & s & -> & Hs)%IH. by exists (c :: pre), s.
Qed.

Lemma endsNonSpace_false body :
  body <> [] -> endsNonSpace body = false ->
  exists b1 c, body = b1 ++ [c] /\ isSpace c = true.
Proof.
  induction body as [|c body IH]; intros Hne He; [contradiction|].
  destruct body as [|c' body].
  - exists [], c. split; [reflexivity|]. cbn in He.
    by apply negb_false_iff in He.
  - destruct IH as (b1 & c0 & Hb & Hc); [discriminate|exact He|].
    exists (c :: b1), c0. cbn. rewrite <- Hb. auto.
Qed.

(** The shape of a capture: what stands between the opening fence, with
    its optional tag, and the first closing fence after it, without the
    white space around it. *)
Lemma fenceMatch_shape response body :
  fenceMatch response = Some body ->
  (body = [] \/ (startsNonSpace body = true /\ endsNonSpace body = true))
  /\ (forall b1 b2, body <> b1 ++ fence ++ b2)
  /\ exists pre tag ws1 ws2 post,
       response = pre ++ fence ++ tag ++ ws1 ++ body ++ ws2 ++ fence ++ post
       /\ (tag = [] \/ tag = jsonTag)
       /\ allSpaces ws1 = true /\ allSpaces ws2 = true.
Proof.
  intros (pre & s & -> & Hat)%fenceMatch_Some.
  apply fenceAt_Some in Hat as (tag & ws1 & s' & -> & Htag & Hws1 & Hstart & Hl).
  apply lazyBody_Some in Hl as (rest & -> & Hc & Hmin).
  pose proof Hc as Hc'. apply closesFence_true in Hc' as (ws2 & post & Hws2 & ->).
  split; [|split].
  - destruct body as [|c body]; [by left|]. right.
    split; [exact Hstart|].
    destruct (endsNonSpace (c :: body)) eqn:He; [reflexivity|]. exfalso.
    apply endsNonSpace_false in He as (b1 & c0 & Hb & Hc0); [|discriminate].
    pose proof (Hmin b1 [c0] Hb ltac:(discriminate)) as Hf.
    change ([c0] ++ ws2 ++ fence ++ post) with (c0 :: ws2 ++ fence ++ post) in Hf.
    rewrite closesFence_unfold in Hf.
    rewrite (stripUnits_fence_other _ _ (isSpace_not_backquote c0 Hc0)) in Hf.
    rewrite Hc0, Hc in Hf. discriminate.
  - intros b1 b2 Hb.
    pose proof (Hmin b1 (fence ++ b2) Hb ltac:(discriminate)) as Hf.
    rewrite <- app_assoc, closesFence_unfold, stripUnits_app in Hf.
    discriminate.
  - exists pre, tag, ws1, ws2, post. auto.
Qed.

(** C9 (amended).  [generateJSON] returns what [JSON.parse] makes of the
    response when it parses.  Otherwise the response is searched for its
    first fenced block: a fence, optionally the tag [json], white space,
    a body, white space and the next fence.  Such a block is recognised
    whenever no fence begins before it, the tag is [json] or the block
    does not begin with [json], and the body is empty or has no white
    space at its ends, holds no fence and does not end in a backquote; if
    the body parses, its value is returned.  Conversely, a value that is
    not the value of the whole response is the value of such a body.  An
    error is thrown only if the response did not parse and, either, the
    text captured from its first block did not parse (the [SyntaxError] of
    [JSON.parse]), or it holds no two fences (an [Error] with the first
    200 units of the response). *)
Theorem generateJSON_recovers {T} (JSON_parse : text -> option T)
    (response : text) :
  (forall value, JSON_parse response = Some value ->
                 generateJSON JSON_parse response = Returns value)
  /\ (forall pre tag ws1 body ws2 post value,
        JSON_parse response = None ->
        response = pre ++ fence ++ tag ++ ws1 ++ body ++ ws2 ++ fence ++ post ->
        fenceFree pre = true ->
        tag = jsonTag
        \/ (tag = []
            /\ stripUnits jsonTag (ws1 ++ body ++ ws2 ++ fence ++ post) = None) ->
        allSpaces ws1 = true -> allSpaces ws2 = true ->
        body = [] \/ (startsNonSpace body = true /\ endsNonSpace body = true) ->
        fenceFree body = true ->
        JSON_parse body = Some value ->
        generateJSON JSON_parse response = Returns value)
  /\ (forall value,
        generateJSON JSON_parse response = Returns value ->
        JSON_parse response = Some value
        \/ (JSON_parse response = None
            /\ exists pre tag ws1 body ws2 post,
                 response
                 = pre ++ fence ++ tag ++ ws1 ++ body ++ ws2 ++ fence ++ post
                 /\ (tag = [] \/ tag = jsonTag)
                 /\ allSpaces ws1 = true /\ allSpaces ws2 = true
                 /\ (body = []
                     \/ (startsNonSpace body = true /\ endsNonSpace body = true))
                 /\ (forall b1 b2, body <> b1 ++ fence ++ b2)
                 /\ fenceMatch response = Some body
                 /\ JSON_parse body = Some value))
  /\ (forall e,
        generateJSON JSON_parse response = Throws e ->
        JSON_parse response = None
        /\ ((e = SyntaxError
             /\ exists body, fenceMatch response = Some body
                             /\ JSON_parse body = None)
            \/ (e = Error (failedToParse ++ substring200 response)
                /\ forall pre mid post,
                     response <> pre ++ fence ++ mid ++ fence ++ post))).
Proof.
  split; [|split; [|split]].
  - intros value H. unfold generateJSON. by rewrite H.
  - intros pre tag ws1 body ws2 post value Hp -> Hpre Htag H1 H2 Hb Hf Hv.
    unfold generateJSON. rewrite Hp.
    by rewrite (fenceMatch_block pre tag ws1 body ws2 post), Hv.
  - intros value. unfold generateJSON.
    destruct (JSON_parse response) as [v|] eqn:E1; [intros [= ->]; by left|].
    destruct (fenceMatch response) as [body|] eqn:E2; [|discriminate].
    destruct (JSON_parse body) as [v|] eqn:E3; [|discriminate].
    intros [= ->]. right. split; [reflexivity|].
    destruct (fenceMatch_shape _ _ E2)
      as (Hends & Hnf & pre & tag & ws1 & ws2 & post & -> & Htag & H1 & H2).
    exists pre, tag, ws1, body, ws2, post. auto 10.
  - intros e. unfold generateJSON.
    destruct (JSON_parse response) eqn:E1; [discriminate|].
    destruct (fenceMatch response) as [body|] eqn:E2.
    + destruct (JSON_parse body) eqn:E3; [discriminate|].
      intros [= <-]. split; [reflexivity|]. left. eauto.
    + intros [= <-]. split; [reflexivity|]. right.
      split; [reflexivity|]. by apply fenceMatch_None.
Qed.

(** C9, as stated, fails.  A fenced block whose body [{}] parses, under
    the tag [JSON] or [javascript], is not recovered: the tag is none the
    pattern knows, so it stays in the text handed to [JSON.parse], whose
    [SyntaxError] is what the caller gets. *)
Lemma generateJSON_other_tag :
  parseEmptyDocument (unitsOf "{}") = Some (unitsOf "{}")
  /\ fenceMatch (fence ++ unitsOf "JSON" ++ newline ++ unitsOf "{}"
                 ++ newline ++ fence)
     = Some (unitsOf "JSON" ++ newline ++ unitsOf "{}")
  /\ generateJSON parseEmptyDocument
       (fence ++ unitsOf "JSON" ++ newline ++ unitsOf "{}" ++ newline ++ fence)
     = Throws SyntaxError
  /\ generateJSON parseEmptyDocument
       (fence ++ unitsOf "javascript" ++ newline ++ unitsOf "{}" ++ newline
        ++ fence)
     = Throws SyntaxError
  /\ generateJSON parseEmptyDocument
       (fence ++ unitsOf "json" ++ newline ++ unitsOf "{}" ++ newline ++ fence)
     = Returns (unitsOf "{}").
Proof. repeat split; vm_compute; reflexivity. Qed.

(** The fenced body ends at the first closing fence: a response whose
    block holds a fence inside is cut there.  White space is that of the
    whole character set: a no-break space and a line separator around the
    body are dropped like a line feed. *)
Example fenceMatch_examples :
  fenceMatch (unitsOf "```json" ++ newline ++ unitsOf "{}" ++ newline
              ++ unitsOf "```") = Some (unitsOf "{}")
  /\ fenceMatch (unitsOf "Sure: ```" ++ newline ++ unitsOf "[]" ++ newline
                 ++ unitsOf "``` Done.") = Some (unitsOf "[]")
  /\ fenceMatch (unitsOf "no fence here") = None
  /\ fenceMatch (unitsOf "```json {a:```} ```") = Some (unitsOf "{a:")
  /\ fenceMatch (unitsOf "a ` b ```json {`} ```") = Some (unitsOf "{`}")
  /\ fenceMatch (fence ++ [160%N] ++ unitsOf "{}" ++ [8232%N; 65279%N] ++ fence)
     = Some (unitsOf "{}")
  /\ generateJSON parseEmptyDocument (unitsOf "{}") = Returns (unitsOf "{}")
  /\ generateJSON parseEmptyDocument
       (unitsOf "```json" ++ newline ++ unitsOf "{oops" ++ newline
        ++ unitsOf "```")
     = Throws SyntaxError
  /\ generateJSON parseEmptyDocument (unitsOf "oops")
     = Throws (Error (unitsOf "Failed to parse AI response as JSON: oops")).
Proof. repeat split; vm_compute; reflexivity. Qed.

Local Open Scope string_scope.

(* ================================================================== *)
(** * [parseDuration]: proofs *)
(* ================================================================== *)

Lemma append_assoc (a b c : string) : (a ++ b) ++ c = a ++ (b ++ c).
Proof.
  induction a as [|x a IH]; [reflexivity|].
  rewrite !append_cons. by rewrite IH.
Qed.

Lemma stripPrefix_append p s : stripPrefix p (p ++ s) = Some s.
Proof.
  induction p as [|a p IH]; [reflexivity|].
  rewrite append_cons. cbn [stripPrefix]. by rewrite Ascii.eqb_refl.
Qed.

Lemma stripPrefix_Some p s r : stripPrefix p s = Some r -> s = p ++ r.
Proof.
  revert s. induction p as [|a p IH]; intros s; cbn.
  - by intros [= ->].
  - destruct s as [|b s]; [discriminate|].
    destruct (Ascii.eqb a b) eqn:E; [|discriminate].
    apply Ascii.eqb_eq in E. subst b. intros H. rewrite append_cons.
    f_equal. by apply IH.
Qed.

Lemma durationMatch_unfold s :
  durationMatch s
  = match durationAt s with
    | Some groups => Some groups
    | None => match s with
              | String _ rest => durationMatch rest
              | EmptyString => None
              end
    end.
Proof. destruct s; reflexivity. Qed.



Lemma digitsThen_nil c : digitsThen c "" = None.
Proof. reflexivity. Qed.

Lemma digitsThen_unfold c d s :
  digitsThen c (String d s)
  = if isDigit d then
      match digitsThen c s with
      | Some (ds, rest) => Some (String d ds, rest)
      | None =>
          match s with
          | String c' rest =>
              if Ascii.eqb c' c then Some (String d EmptyString, rest) else None
          | EmptyString => None
          end
      end
    else None.
Proof. reflexivity. Qed.

(** Digits followed by another designator: the component is absent. *)
Lemma digitsThen_other c c' ds rest :
  isDigit c = false -> isDigit c' = false -> c' <> c ->
  stringForall isDigit ds = true ->
  digitsThen c (ds ++ String c' rest) = None.
Proof.
  intros Hc Hc' Hne. induction ds as [|d ds IH]; intros Hds.
  - rewrite append_nil, digitsThen_unfold. by rewrite Hc'.
  - cbn in Hds. apply andb_true_iff in Hds as [Hd Hds].
    rewrite append_cons, digitsThen_unfold, Hd, (IH Hds).
    destruct ds as [|d' ds'].
    + rewrite append_nil. destruct (Ascii.eqb c' c) eqn:E; [|reflexivity].
      apply Ascii.eqb_eq in E. contradiction.
    + rewrite append_cons. destruct (Ascii.eqb d' c) eqn:E; [|reflexivity].
      apply Ascii.eqb_eq in E. subst d'. cbn in Hds.
      rewrite Hc in Hds. discriminate.
Qed.

(** Digits followed by the designator: the component is present. *)
Lemma digitsThen_present c ds rest :
  isDigit c = false -> digits ds = true ->
  digitsThen c (ds ++ String c rest) = Some (ds, rest).
Proof.
  intros Hc Hds. unfold digits in Hds. apply andb_true_iff in Hds as [Hne Hds].
  induction ds as [|d ds IH]; [discriminate|].
  cbn in Hds. apply andb_true_iff in Hds as [Hd Hds].
  rewrite append_cons, digitsThen_unfold, Hd.
  destruct ds as [|d' ds'].
  - rewrite append_nil, digitsThen_unfold, Hc. by rewrite Ascii.eqb_refl.
  - rewrite IH; [reflexivity|reflexivity|exact Hds].
Qed.

Lemma append_nil_r (s : string) : s ++ "" = s.
Proof. induction s as [|a s IH]; [reflexivity|]. rewrite append_cons. by f_equal. Qed.

Lemma digits_all d : digits d = true -> stringForall isDigit d = true.
Proof. unfold digits. intros H. by apply andb_true_iff in H as [_ H]. Qed.

Lemma digitsThen_iso_other c c' ds rest :
  isDigit c = false -> isDigit c' = false -> c' <> c ->
  wellFormedCapture ds = true -> digitsThen c rest = None ->
  digitsThen c (isoComponent ds (String c' "") ++ rest) = None.
Proof.
  intros Hc Hc' Hne Hds Hrest. destruct ds as [d|]; cbn [isoComponent].
  - rewrite append_assoc, append_cons, append_nil.
    apply digitsThen_other; auto. by apply digits_all.
  - by rewrite append_nil.
Qed.

Lemma optionalComponent_iso c ds rest :
  isDigit c = false -> wellFormedCapture ds = true ->
  digitsThen c rest = None ->
  optionalComponent c (isoComponent ds (String c "") ++ rest) = (ds, rest).
Proof.
  intros Hc Hds Hrest. unfold optionalComponent.
  destruct ds as [d|]; cbn [isoComponent].
  - rewrite append_assoc, append_cons, append_nil.
    by rewrite digitsThen_present.
  - rewrite append_nil. by rewrite Hrest.
Qed.

(** The three captures of a duration in the form [PT#H#M#S], each
    component present or not. *)
Lemma durationMatch_iso h m s :
  wellFormedCapture h = true -> wellFormedCapture m = true ->
  wellFormedCapture s = true ->
  durationMatch ("PT" ++ isoComponent h "H" ++ isoComponent m "M"
                      ++ isoComponent s "S")
  = Some (h, m, s).
Proof.
  intros Hh Hm Hs. rewrite durationMatch_unfold. unfold durationAt.
  rewrite stripPrefix_append.
  assert (HS : digitsThen "S" "" = None) by reflexivity.
  assert (HM : digitsThen "M" (isoComponent s "S") = None).
  { rewrite <- (append_nil_r (isoComponent s "S")).
    apply digitsThen_iso_other; try reflexivity; try discriminate; auto. }
  assert (HH : digitsThen "H" (isoComponent m "M" ++ isoComponent s "S") = None).
  { apply digitsThen_iso_other; try reflexivity; try discriminate; auto.
    rewrite <- (append_nil_r (isoComponent s "S")).
    apply digitsThen_iso_other; try reflexivity; try discriminate; auto. }
  rewrite (optionalComponent_iso "H" h) by auto.
  rewrite (optionalComponent_iso "M" m) by auto.
  rewrite <- (append_nil_r (isoComponent s "S")).
  rewrite (optionalComponent_iso "S" s) by auto.
  reflexivity.
Qed.




(** Reading the digits from the left gives the number they denote. *)
Lemma parseDigits_decimalValue acc ds :
  parseDigits acc ds
  = (acc * 10 ^ N.of_nat (String.length ds) + decimalValue ds)%N.
Proof.
  revert acc. induction ds as [|c ds IH]; intros acc.
  - cbn. lia.
  - cbn [parseDigits decimalValue String.length]. rewrite IH.
    rewrite Nat2N.inj_succ, N.pow_succ_r'. lia.
Qed.

Lemma component_value capture :
  component capture = Z2F (Z.of_N (captureValue capture)).
Proof.
  destruct capture as [ds|]; [|reflexivity].
  unfold component, parseInt10. cbn [default from_option id captureValue].
  by rewrite parseDigits_decimalValue, N.mul_0_l, N.add_0_l.
Qed.

(** The sum of the three components is exact while it stays below 2^53. *)
Lemma duration_sum_exact (h m s : N) :
  (h * 3600 + m * 60 + s < 2 ^ 53)%N ->
  (Z2F (Z.of_N h) * 3600 + Z2F (Z.of_N m) * 60 + Z2F (Z.of_N s))%float
  = Z2F (Z.of_N (h * 3600 + m * 60 + s)).
Proof.
  intros H.
  assert (H' : (Z.of_N h * 3600 + Z.of_N m * 60 + Z.of_N s < 2 ^ 53)%Z) by lia.
  change 3600%float with (Z2F 3600). change 60%float with (Z2F 60).
  rewrite !Z2F_mul, !Z2F_add by lia. f_equal. lia.
Qed.



Example parseDuration_examples :
  parseDuration "PT4M13S" = 253%float
  /\ parseDuration "PT1H2M3S" = 3723%float
  /\ parseDuration "PT10H" = 36000%float
  /\ parseDuration "PT45S" = 45%float
  /\ parseDuration "PT" = 0%float
  /\ parseDuration "P1DT2H" = 0%float
  /\ parseDuration "four minutes" = 0%float
  /\ parseDuration "" = 0%float.
Proof. repeat split; vm_compute; reflexivity. Qed.

(* ================================================================== *)
(** * Reading the collections back: proofs *)
(* ================================================================== *)

Lemma whereProfileId_In {V} (f : V -> string) p (docs : gmap string V) k d :
  In (k, d) (whereProfileId f p docs) <-> docs !! k = Some d /\ f d = p.
Proof.
  unfold whereProfileId. rewrite filter_In. cbn [snd].
  rewrite <- list_elem_of_In, elem_of_map_to_list, String.eqb_eq. tauto.
Qed.

Lemma getWatchHistory_run p w :
  getWatchHistory p w
  = Ok (map (fun doc => watchRecordOf (fst doc) (snd doc))
            (whereProfileId WatchRecord.profileId p (watchHistory w))) w.
Proof. reflexivity. Qed.

Lemma getEarnedBadges_run p w :
  getEarnedBadges p w
  = Ok (map (fun doc => earnedBadgeOf (fst doc) (snd doc))
            (whereProfileId EarnedBadge.profileId p (earnedBadges w))) w.
Proof. reflexivity. Qed.

Lemma getWatchHistory_In p w r :
  In r (default [] (valueOf (getWatchHistory p) w))
  <-> exists k d, watchHistory w !! k = Some d
                  /\ WatchRecord.profileId d = p /\ r = watchRecordOf k d.
Proof.
  unfold valueOf. rewrite getWatchHistory_run. cbn [default from_option id].
  rewrite in_map_iff. split.
  - intros [[k d] [<- H]]. apply whereProfileId_In in H as [H1 H2].
    exists k, d. auto.
  - intros (k & d & H1 & H2 & ->). exists (k, d). split; [reflexivity|].
    apply whereProfileId_In. auto.
Qed.

(** What a progress report leaves in the store: the one document of the
    pair, which carries the progress fields of the record handed back and
    the identity fields it had before, if it existed. *)
Lemma updateWatchProgress_world p l i pos dur w :
  exists r nc d',
    updateWatchProgress p l i pos dur w
    = Ok (r, nc)
         (withWatchHistory (<[watchDocId p i := d']> (watchHistory w)) (tick w))
    /\ progressOf d' = progressOf r
    /\ WatchRecord.id r = watchDocId p i
    /\ WatchRecord.profileId r = p
    /\ WatchRecord.laneId r = l
    /\ WatchRecord.itemId r = i
    /\ WatchRecord.lastPosition r = pos
    /\ WatchRecord.duration r = dur
    /\ WatchRecord.completed r = completedOf (progressPercentOf pos dur)
    /\ WatchRecord.updatedAt r = clock w (ticks w)
    /\ match watchHistory w !! watchDocId p i with
       | Some d =>
           WatchRecord.id d' = WatchRecord.id d
           /\ WatchRecord.profileId d' = WatchRecord.profileId d
           /\ WatchRecord.laneId d' = WatchRecord.laneId d
           /\ WatchRecord.itemId d' = WatchRecord.itemId d
           /\ WatchRecord.startedAt d' = WatchRecord.startedAt d
           /\ nc = completedOf (progressPercentOf pos dur)
                   && negb (WatchRecord.completed d)
       | None =>
           d' = r
           /\ WatchRecord.startedAt r = clock w (ticks w)
           /\ nc = completedOf (progressPercentOf pos dur)
       end.
Proof.
  rewrite updateWatchProgress_run. cbv zeta.
  destruct (watchHistory w !! watchDocId p i) as [d|] eqn:E.
  - eexists _, _, _. split; [reflexivity|]. cbn. repeat split; reflexivity.
  - eexists _, _, _. split; [reflexivity|]. cbn. repeat split; reflexivity.
Qed.

(** X1.  A progress report always returns, and it writes one document
    only: the one of the (profile, item) pair.  Every other watch
    document, the earned badges and the client's atoms are left as they
    were, and the clock is read once.  The document written carries the
    progress fields of the record handed back; of a document that existed
    it keeps the identity fields ([id], [profileId], [laneId], [itemId])
    and [startedAt]; a document that did not exist is the record handed
    back, started at the time of the call. *)
Theorem updateWatchProgress_touches_one_document p l i pos dur w :
  exists r nc w' d',
    updateWatchProgress p l i pos dur w = Ok (r, nc) w'
    /\ watchHistory w' !! watchDocId p i = Some d'
    /\ (forall k, k <> watchDocId p i ->
                  watchHistory w' !! k = watchHistory w !! k)
    /\ earnedBadges w' = earnedBadges w
    /\ progressStore w' = progressStore w
    /\ clock w' = clock w
    /\ ticks w' = S (ticks w)
    /\ progressOf d' = progressOf r
    /\ WatchRecord.updatedAt r = clock w (ticks w)
    /\ match watchHistory w !! watchDocId p i with
       | Some d =>
           WatchRecord.id d' = WatchRecord.id d
           /\ WatchRecord.profileId d' = WatchRecord.profileId d
           /\ WatchRecord.laneId d' = WatchRecord.laneId d
           /\ WatchRecord.itemId d' = WatchRecord.itemId d
           /\ WatchRecord.startedAt d' = WatchRecord.startedAt d
       | None => d' = r /\ WatchRecord.startedAt r = clock w (ticks w)
       end.
Proof.
  destruct (updateWatchProgress_world p l i pos dur w)
    as (r & nc & d' & Hrun & Hprog & _ & _ & _ & _ & _ & _ & _ & Hupd & Hold).
  eexists r, nc, _, d'. split; [exact Hrun|].
  cbn [watchHistory withWatchHistory earnedBadges progressStore clock ticks tick].
  split; [apply lookup_insert_eq|].
  split; [intros k Hk; by rewrite lookup_insert_ne|].
  do 4 (split; [reflexivity|]).
  split; [exact Hprog|]. split; [exact Hupd|].
  destruct (watchHistory w !! watchDocId p i) as [d|].
  - destruct Hold as (H1 & H2 & H3 & H4 & H5 & _). auto.
  - destruct Hold as (H1 & H2 & _). auto.
Qed.

(** X2.  Reading a record back.  After a progress report, [getWatchRecord]
    for the pair finds a record under the same id and with the progress
    fields of the record the report handed back.  When the pair had no
    document before, it is that very record.  When it had one, the record
    read back keeps the stored [profileId], [laneId] and [itemId]: the lane
    is the one of the first report, whatever lane later reports name.
    Records under other ids read back as before. *)
Theorem getWatchRecord_after_update p l i pos dur w :
  exists r nc w' r',
    updateWatchProgress p l i pos dur w = Ok (r, nc) w'
    /\ getWatchRecord p i w' = Ok (Some r') w'
    /\ WatchRecord.id r' = WatchRecord.id r
    /\ progressOf r' = progressOf r
    /\ (watchHistory w !! watchDocId p i = None -> r' = r)
    /\ (forall d, watchHistory w !! watchDocId p i = Some d ->
          WatchRecord.profileId r' = WatchRecord.profileId d
          /\ WatchRecord.laneId r' = WatchRecord.laneId d
          /\ WatchRecord.itemId r' = WatchRecord.itemId d)
    /\ (forall q j, watchDocId q j <> watchDocId p i ->
          valueOf (getWatchRecord q j) w' = valueOf (getWatchRecord q j) w).
Proof.
  destruct (updateWatchProgress_world p l i pos dur w)
    as (r & nc & d' & Hrun & Hprog & Hid & Hp & Hl & Hi & _ & _ & _ & _ & Hold).
  eexists r, nc, _, (watchRecordOf (watchDocId p i) d').
  split; [exact Hrun|].
  split.
  { unfold getWatchRecord, bind, getWatchDoc, ret.
    cbn [watchHistory withWatchHistory]. by rewrite lookup_insert_eq. }
  split; [by rewrite Hid|].
  split; [exact Hprog|].
  split.
  { intros E. rewrite E in Hold. destruct Hold as (-> & _).
    destruct r. cbn in *. by subst. }
  split.
  { intros d E. rewrite E in Hold.
    destruct Hold as (_ & H2 & H3 & H4 & _). cbn. auto. }
  intros q j Hne. unfold valueOf, getWatchRecord, bind, getWatchDoc, ret.
  cbn [watchHistory withWatchHistory].
  rewrite lookup_insert_ne by congruence.
  by destruct (watchHistory w !! watchDocId q j).
Qed.

Lemma getCompletedItemIds_run p w :
  getCompletedItemIds p w
  = Ok (completedItemIds (default [] (valueOf (getWatchHistory p) w))) w.
Proof. reflexivity. Qed.

Lemma getCompletedItemIds_elem p w j :
  j ∈ completedItemIds (default [] (valueOf (getWatchHistory p) w))
  <-> exists k d, watchHistory w !! k = Some d
                  /\ WatchRecord.profileId d = p
                  /\ WatchRecord.itemId d = j
                  /\ WatchRecord.completed d = true.
Proof.
  unfold completedItemIds. rewrite completedItemIds_spec. unfold hasCompletedRecord.
  split.
  - intros (r & Hin & Hc & Hj). apply getWatchHistory_In in Hin
      as (k & d & H1 & H2 & ->). exists k, d. cbn in *. auto.
  - intros (k & d & H1 & H2 & H3 & H4). exists (watchRecordOf k d).
    split; [|cbn; auto]. apply getWatchHistory_In. eauto.
Qed.

Lemma keyedByWatch_empty clock : keyedByWatch (watchHistory (emptyWorld clock)).
Proof. intros k d H. cbn in H. by rewrite lookup_empty in H. Qed.

Lemma ownsWatchDoc_empty clock p i :
  ownsWatchDoc (watchHistory (emptyWorld clock)) p i.
Proof. intros d H. cbn in H. by rewrite lookup_empty in H. Qed.

(** A report keeps the documents under their own ids. *)
Lemma updateWatchProgress_keeps_keyed p l i pos dur w :
  keyedByWatch (watchHistory w) ->
  ownsWatchDoc (watchHistory w) p i ->
  keyedByWatch (watchHistory (worldAfter (updateWatchProgress p l i pos dur) w))
  /\ ownsWatchDoc
       (watchHistory (worldAfter (updateWatchProgress p l i pos dur) w)) p i.
Proof.
  intros Hkeyed Howns. unfold worldAfter.
  destruct (updateWatchProgress_world p l i pos dur w)
    as (r & nc & d' & -> & _ & _ & Hp & _ & Hi & _ & _ & _ & _ & Hold).
  cbn [watchHistory withWatchHistory].
  assert (Hd' : WatchRecord.profileId d' = p /\ WatchRecord.itemId d' = i).
  { destruct (watchHistory w !! watchDocId p i) as [d|] eqn:E.
    - destruct Hold as (_ & H2 & _ & H4 & _). rewrite H2, H4. by apply Howns.
    - destruct Hold as (-> & _). auto. }
  destruct Hd' as [Hp' Hi']. split.
  - intros k d. destruct (decide (k = watchDocId p i)) as [->|Hne].
    + rewrite lookup_insert_eq. intros [= <-]. congruence.
    + rewrite lookup_insert_ne by congruence. apply Hkeyed.
  - intros d. rewrite lookup_insert_eq. intros [= <-]. auto.
Qed.

(** X3.  The completed set follows the reports.  In a store whose watch
    documents sit under their own ids, and where the document of the pair,
    if any, is the pair's own, a progress report puts the item into
    [getCompletedItemIds] of the profile exactly when its sample is at 90%
    or more, leaves every other item of the profile as it was, and
    announces [newlyCompleted] exactly when the item enters the set.  Both
    conditions on the store hold again afterwards. *)
Theorem getCompletedItemIds_after_update p l i pos dur w :
  keyedByWatch (watchHistory w) ->
  ownsWatchDoc (watchHistory w) p i ->
  exists r nc w' before after,
    updateWatchProgress p l i pos dur w = Ok (r, nc) w'
    /\ getCompletedItemIds p w = Ok before w
    /\ getCompletedItemIds p w' = Ok after w'
    /\ (i ∈ after <-> completedOf (progressPercentOf pos dur) = true)
    /\ (forall j, j <> i -> (j ∈ after <-> j ∈ before))
    /\ (nc = true <-> (i ∉ before) /\ (i ∈ after))
    /\ keyedByWatch (watchHistory w')
    /\ ownsWatchDoc (watchHistory w') p i.
Proof.
  intros Hkeyed Howns.
  destruct (updateWatchProgress_world p l i pos dur w)
    as (r & nc & d' & Hrun & Hprog & Hid & Hp & Hl & Hi & _ & _ & Hc & _ & Hold).
  set (w' := withWatchHistory (<[watchDocId p i := d']> (watchHistory w)) (tick w))
    in *.
  assert (Hc' : WatchRecord.completed d' = completedOf (progressPercentOf pos dur)).
  { rewrite <- Hc. unfold progressOf in Hprog. congruence. }
  assert (Hd' : WatchRecord.profileId d' = p /\ WatchRecord.itemId d' = i).
  { destruct (watchHistory w !! watchDocId p i) as [d|] eqn:E.
    - destruct Hold as (_ & H2 & _ & H4 & _). rewrite H2, H4. by apply Howns.
    - destruct Hold as (-> & _). auto. }
  destruct Hd' as [Hp' Hi'].
  assert (Hi_after :
    i ∈ completedItemIds (default [] (valueOf (getWatchHistory p) w'))
    <-> completedOf (progressPercentOf pos dur) = true).
  { rewrite getCompletedItemIds_elem. subst w'. cbn [watchHistory withWatchHistory].
    split.
    - intros (k & d & H1 & H2 & H3 & H4).
      destruct (decide (k = watchDocId p i)) as [->|Hne].
      + rewrite lookup_insert_eq in H1. injection H1 as <-. congruence.
      + rewrite lookup_insert_ne in H1 by congruence.
        apply Hkeyed in H1. rewrite H2, H3 in H1. contradiction.
    - intros H. exists (watchDocId p i), d'.
      rewrite lookup_insert_eq. repeat split; congruence. }
  assert (Hi_before :
    i ∈ completedItemIds (default [] (valueOf (getWatchHistory p) w))
    <-> exists d, watchHistory w !! watchDocId p i = Some d
                  /\ WatchRecord.completed d = true).
  { rewrite getCompletedItemIds_elem. split.
    - intros (k & d & H1 & H2 & H3 & H4). exists d. split; [|exact H4].
      pose proof (Hkeyed _ _ H1) as Hk. rewrite H2, H3 in Hk. by subst k.
    - intros (d & H1 & H2). exists (watchDocId p i), d.
      destruct (Howns _ H1). auto. }
  eexists r, nc, w', _, _.
  split; [exact Hrun|].
  split; [apply getCompletedItemIds_run|].
  split; [apply getCompletedItemIds_run|].
  split; [exact Hi_after|].
  split.
  { intros j Hj. rewrite !getCompletedItemIds_elem. subst w'.
    cbn [watchHistory withWatchHistory].
    split; intros (k & d & H1 & H2 & H3 & H4).
    - destruct (decide (k = watchDocId p i)) as [->|Hne].
      + rewrite lookup_insert_eq in H1. injection H1 as <-. congruence.
      + rewrite lookup_insert_ne in H1 by congruence. eauto 8.
    - destruct (decide (k = watchDocId p i)) as [->|Hne].
      + destruct (Howns _ H1). congruence.
      + exists k, d. rewrite lookup_insert_ne by congruence. auto. }
  split.
  { rewrite Hi_after, Hi_before.
    destruct (watchHistory w !! watchDocId p i) as [d|] eqn:E.
    - destruct Hold as (_ & _ & _ & _ & _ & ->).
      destruct (completedOf (progressPercentOf pos dur)),
               (WatchRecord.completed d) eqn:Ed; cbn.
      + split; [discriminate|]. intros [H _]. exfalso. apply H. eauto.
      + split; [|reflexivity]. intros _. split; [|reflexivity].
        intros (d0 & [= <-] & H). congruence.
      + split; [discriminate|]. intros [_ H]. discriminate.
      + split; [discriminate|]. intros [_ H]. discriminate.
    - destruct Hold as (_ & _ & ->).
      destruct (completedOf (progressPercentOf pos dur)).
      + split; [|reflexivity]. intros _. split; [|reflexivity].
        intros (d0 & H & _). discriminate.
      + split; [discriminate|]. intros [_ H]. discriminate. }
  split.
  { intros k d. subst w'. cbn [watchHistory withWatchHistory].
    destruct (decide (k = watchDocId p i)) as [->|Hne].
    - rewrite lookup_insert_eq. intros [= <-]. congruence.
    - rewrite lookup_insert_ne by congruence. apply Hkeyed. }
  intros d. subst w'. cbn [watchHistory withWatchHistory].
  rewrite lookup_insert_eq. intros [= <-]. auto.
Qed.

Lemma getCompletedItemIds_after_update_witness :
  let w1 := worldAfter (updateWatchProgress "kid" "lane-1" "item-1" 50 100)
                       (emptyWorld secondsClock) in
  keyedByWatch (watchHistory w1)
  /\ ownsWatchDoc (watchHistory w1) "kid" "item-1"
  /\ exists r nc w' before after,
       updateWatchProgress "kid" "lane-1" "item-1" 95 100 w1 = Ok (r, nc) w'
       /\ getCompletedItemIds "kid" w1 = Ok before w1
       /\ getCompletedItemIds "kid" w' = Ok after w'
       /\ ("item-1" ∈ after <-> completedOf (progressPercentOf 95 100) = true)
       /\ (forall j, j <> "item-1" -> (j ∈ after <-> j ∈ before))
       /\ (nc = true <-> ("item-1" ∉ before) /\ ("item-1" ∈ after))
       /\ keyedByWatch (watchHistory w')
       /\ ownsWatchDoc (watchHistory w') "kid" "item-1".
Proof.
  intros w1.
  destruct (updateWatchProgress_keeps_keyed "kid" "lane-1" "item-1" 50 100
              (emptyWorld secondsClock)
              (keyedByWatch_empty _) (ownsWatchDoc_empty _ _ _)) as [Hk Ho].
  fold w1 in Hk, Ho.
  split; [exact Hk|]. split; [exact Ho|].
  exact (getCompletedItemIds_after_update "kid" "lane-1" "item-1" 95 100 w1 Hk Ho).
Defined.

(** ** Document ids *)

Lemma underscore_split (p q a b : string) :
  noUnderscore p = true -> noUnderscore q = true ->
  p ++ "_" ++ a = q ++ "_" ++ b -> p = q /\ a = b.
Proof.
  revert q. induction p as [|c p IH]; intros [|c' q] Hp Hq H.
  - rewrite !append_nil in H. apply (string_app_inv_head "_") in H. auto.
  - rewrite append_nil, !append_cons, append_nil in H. injection H as <- _.
    cbn in Hq. discriminate.
  - rewrite append_nil, !append_cons, append_nil in H. injection H as -> _.
    cbn in Hp. discriminate.
  - rewrite !append_cons in H. injection H as -> H.
    cbn in Hp, Hq. apply andb_true_iff in Hp as [_ Hp].
    apply andb_true_iff in Hq as [_ Hq].
    destruct (IH q Hp Hq H) as [-> ->]. auto.
Qed.

(** X4.  What a document id identifies.  When profile ids contain no
    underscore, the id of a watch document determines its (profile, item)
    pair and the id of a badge document its (profile, kind) pair; a store
    of watch documents kept under their own ids then holds, under the id of
    a pair, only that pair's document.  Without the condition the ids are
    shared: the profile [p_x] with the item [i] and the profile [p] with the
    item [x_i] have one watch document, and the profile [p_twenty] with the
    badge [five_videos] and the profile [p] with [twenty_five_videos] have
    one badge document. *)
Theorem document_ids_identify_pairs :
  (forall p q i j,
      noUnderscore p = true -> noUnderscore q = true ->
      watchDocId p i = watchDocId q j -> p = q /\ i = j)
  /\ (forall p q b c,
        noUnderscore p = true -> noUnderscore q = true ->
        badgeDocId p b = badgeDocId q c -> p = q /\ b = c)
  /\ (forall store p i,
        keyedByWatch store ->
        (forall k d, store !! k = Some d ->
                     noUnderscore (WatchRecord.profileId d) = true) ->
        noUnderscore p = true ->
        ownsWatchDoc store p i)
  /\ (forall p x i, watchDocId (p ++ "_" ++ x) i = watchDocId p (x ++ "_" ++ i))
  /\ (forall p, badgeDocId (p ++ "_twenty") five_videos
                = badgeDocId p twenty_five_videos).
Proof.
  split; [|split; [|split; [|split]]].
  - intros p q i j Hp Hq H. by apply underscore_split.
  - intros p q b c Hp Hq H. unfold badgeDocId in H.
    apply underscore_split in H as [-> H]; auto.
    split; [reflexivity|]. by apply BadgeType_string_inj.
  - intros store p i Hkeyed Hids Hp d Hd.
    pose proof (Hkeyed _ _ Hd) as Hk.
    apply underscore_split in Hk as [-> ->]; eauto.
  - intros p x i. unfold watchDocId. by rewrite !append_assoc.
  - intros p. unfold badgeDocId. cbn [BadgeType_string].
    by rewrite !append_assoc.
Qed.

(** ** Clearing a profile *)

Lemma cleared_lookup {V} (f : V -> string) p (m : gmap string V) k d :
  foldr delete m (map fst (whereProfileId f p m)) !! k = Some d
  <-> m !! k = Some d /\ f d <> p.
Proof.
  rewrite lookup_foldr_delete_Some, list_elem_of_In, in_map_iff. split.
  - intros [Hn H]. split; [exact H|]. intros Hp. apply Hn.
    exists (k, d). split; [reflexivity|]. by apply whereProfileId_In.
  - intros [H Hp]. split; [|exact H].
    intros [[k' d'] [Hk Hin]]. cbn in Hk. subst k'.
    apply whereProfileId_In in Hin as [H1 H2]. congruence.
Qed.

Lemma whereProfileId_cleared {V} (f : V -> string) p (m : gmap string V) :
  whereProfileId f p (foldr delete m (map fst (whereProfileId f p m))) = [].
Proof.
  destruct (whereProfileId f p _) as [|[k d] rest] eqn:E; [reflexivity|].
  assert (H : In (k, d) ((k, d) :: rest)) by (left; reflexivity).
  rewrite <- E in H. apply whereProfileId_In in H as [H1 H2].
  apply cleared_lookup in H1 as [_ H1]. contradiction.
Qed.

(** X5.  [clearWatchHistoryForProfile] deletes the watch documents whose
    [profileId] is the given one, all of them and no other: what stays in
    the collection is exactly what was there under another profile.  It
    returns the number of records [getWatchHistory] listed for the profile,
    after it [getWatchHistory] lists none, and a second call deletes
    nothing and returns 0.  The earned badges and the client's atoms are
    not touched. *)
Theorem clearWatchHistoryForProfile_clears p w :
  exists history n w',
    getWatchHistory p w = Ok history w
    /\ clearWatchHistoryForProfile p w = Ok n w'
    /\ n = length history
    /\ (forall k d, watchHistory w' !! k = Some d
                    <-> watchHistory w !! k = Some d
                        /\ WatchRecord.profileId d <> p)
    /\ getWatchHistory p w' = Ok [] w'
    /\ clearWatchHistoryForProfile p w' = Ok 0 w'
    /\ earnedBadges w' = earnedBadges w
    /\ progressStore w' = progressStore w.
Proof.
  eexists _, _, _. split; [apply getWatchHistory_run|].
  split; [reflexivity|].
  split; [by rewrite length_map|].
  cbn [watchHistory withWatchHistory earnedBadges progressStore].
  split; [intros k d; apply cleared_lookup|].
  split.
  { rewrite getWatchHistory_run. cbn [watchHistory withWatchHistory].
    by rewrite whereProfileId_cleared. }
  split.
  { unfold clearWatchHistoryForProfile, bind, getWatchDocs, deleteWatchDocs, ret.
    cbn [watchHistory withWatchHistory earnedBadges progressStore clock ticks].
    rewrite whereProfileId_cleared. reflexivity. }
  split; reflexivity.
Qed.

Lemma filter_none {A} (f : A -> bool) (l : list A) :
  (forall x, In x l -> f x = false) -> List.filter f l = [].
Proof.
  induction l as [|x l IH]; intros H; [reflexivity|]. cbn.
  rewrite (H x) by (left; reflexivity). apply IH.
  intros y Hy. apply H. by right.
Qed.

Lemma clearBadgesForProfile_run p w :
  clearBadgesForProfile p w
  = Ok (length (whereProfileId EarnedBadge.profileId p (earnedBadges w)))
       (withEarnedBadges
          (foldr delete (earnedBadges w)
             (map fst (whereProfileId EarnedBadge.profileId p (earnedBadges w))))
          w).
Proof. reflexivity. Qed.

(** X6.  [clearBadgesForProfile] deletes the badge documents whose
    [profileId] is the given one, all of them and no other, and returns
    the number of badges [getEarnedBadges] listed for the profile; after
    it the profile holds no badge of any kind.  When the documents sit
    under their own ids and profile ids contain no underscore, every badge
    is then earnable again: the next evaluation awards exactly the badges
    that are due. *)
Theorem clearBadgesForProfile_resets p h lanes w :
  keyedByBadge (earnedBadges w) ->
  (forall k e, earnedBadges w !! k = Some e ->
               noUnderscore (EarnedBadge.profileId e) = true) ->
  noUnderscore p = true ->
  exists listed n w1 newBadges w2,
    getEarnedBadges p w = Ok listed w
    /\ clearBadgesForProfile p w = Ok n w1
    /\ n = length listed
    /\ (forall k e, earnedBadges w1 !! k = Some e
                    <-> earnedBadges w !! k = Some e
                        /\ EarnedBadge.profileId e <> p)
    /\ getEarnedBadges p w1 = Ok [] w1
    /\ (forall b, badgesOf (earnedBadges w1) p b = [])
    /\ watchHistory w1 = watchHistory w
    /\ progressStore w1 = progressStore w
    /\ keyedByBadge (earnedBadges w1)
    /\ checkAndAwardBadges p h lanes w1 = Ok newBadges w2
    /\ (forall b, In b (map EarnedBadge.badgeType newBadges)
                  <-> badgeDue b h lanes).
Proof.
  intros Hkeyed Hids Hp.
  set (w1 := withEarnedBadges
               (foldr delete (earnedBadges w)
                  (map fst (whereProfileId EarnedBadge.profileId p
                                           (earnedBadges w)))) w).
  assert (Hlookup : forall k e, earnedBadges w1 !! k = Some e
                    <-> earnedBadges w !! k = Some e
                        /\ EarnedBadge.profileId e <> p).
  { intros k e. apply cleared_lookup. }
  assert (Hnone : forall b, earnedBadges w1 !! badgeDocId p b = None).
  { intros b. destruct (earnedBadges w1 !! badgeDocId p b) as [e|] eqn:E;
      [|reflexivity].
    apply Hlookup in E as [E Hne]. exfalso. apply Hne.
    pose proof (Hkeyed _ _ E) as Hk. unfold badgeDocId in Hk.
    apply underscore_split in Hk as [-> _]; eauto. }
  destruct (checkAndAwardBadges_run p h lanes w1)
    as (newBadges & w2 & Hrun & Htypes & _).
  exists (map (fun doc => earnedBadgeOf (fst doc) (snd doc))
              (whereProfileId EarnedBadge.profileId p (earnedBadges w))),
         (length (whereProfileId EarnedBadge.profileId p (earnedBadges w))),
         w1, newBadges, w2.
  split; [apply getEarnedBadges_run|].
  split; [apply clearBadgesForProfile_run|].
  split; [by rewrite length_map|].
  split; [exact Hlookup|].
  split.
  { rewrite getEarnedBadges_run. subst w1. cbn [earnedBadges withEarnedBadges].
    by rewrite whereProfileId_cleared. }
  split.
  { intros b. unfold badgesOf. apply filter_none. intros e H1.
    apply bool_decide_eq_false. intros [H2 _].
    apply in_map_iff in H1 as [[k e'] [<- H1]].
    apply list_elem_of_In, elem_of_map_to_list in H1.
    apply Hlookup in H1 as [_ H1]. contradiction. }
  split; [reflexivity|]. split; [reflexivity|].
  split.
  { intros k e H. apply Hlookup in H as [H _]. by apply Hkeyed. }
  split; [exact Hrun|].
  intros b. rewrite Htypes, filter_In, attempts_badgeDue.
  unfold notEarned. rewrite bool_decide_eq_true. split; [tauto|].
  intros H. split; [exact H|apply Hnone].
Qed.

Lemma clearBadgesForProfile_resets_witness :
  let w := worldAfter (awardBadge "kid" first_watch None)
                      (emptyWorld secondsClock) in
  let h := [sampleRecord "item-1" "lane-1" true] in
  let lanes := [sampleLane "lane-1" Science ["item-1"]] in
  keyedByBadge (earnedBadges w)
  /\ (forall k e, earnedBadges w !! k = Some e ->
                  noUnderscore (EarnedBadge.profileId e) = true)
  /\ noUnderscore "kid" = true
  /\ exists listed n w1 newBadges w2,
       getEarnedBadges "kid" w = Ok listed w
       /\ clearBadgesForProfile "kid" w = Ok n w1
       /\ n = length listed
       /\ (forall k e, earnedBadges w1 !! k = Some e
                       <-> earnedBadges w !! k = Some e
                           /\ EarnedBadge.profileId e <> "kid")
       /\ getEarnedBadges "kid" w1 = Ok [] w1
       /\ (forall b, badgesOf (earnedBadges w1) "kid" b = [])
       /\ watchHistory w1 = watchHistory w
       /\ progressStore w1 = progressStore w
       /\ keyedByBadge (earnedBadges w1)
       /\ checkAndAwardBadges "kid" h lanes w1 = Ok newBadges w2
       /\ (forall b, In b (map EarnedBadge.badgeType newBadges)
                     <-> badgeDue b h lanes).
Proof.
  intros w h lanes.
  assert (Hk : keyedByBadge (earnedBadges w))
    by (apply awardBadge_keyed, keyedByBadge_empty).
  assert (Hids : forall k e, earnedBadges w !! k = Some e ->
                             noUnderscore (EarnedBadge.profileId e) = true).
  { intros k e. subst w. unfold worldAfter. rewrite awardBadge_run.
    change (earnedBadges (emptyWorld secondsClock)) with
      (∅ : gmap string EarnedBadge.t).
    rewrite lookup_empty. cbn [earnedBadges withEarnedBadges].
    intros [[_ <-]|[_ H]]%lookup_insert_Some; [reflexivity|].
    by rewrite lookup_empty in H. }
  split; [exact Hk|]. split; [exact Hids|]. split; [reflexivity|].
  exact (clearBadgesForProfile_resets "kid" h lanes w Hk Hids eq_refl).
Defined.

(** X7.  What an evaluation awards is listed afterwards.  Every badge that
    [checkAndAwardBadges] hands back for a profile is then returned by
    [getEarnedBadges] of that profile, as the same record; every badge
    listed before is still listed; and nothing is listed but those: old
    ones and new ones.  All listed badges carry the profile's id. *)
Theorem getEarnedBadges_after_evaluation p h lanes w :
  exists before newBadges w' after,
    getEarnedBadges p w = Ok before w
    /\ checkAndAwardBadges p h lanes w = Ok newBadges w'
    /\ getEarnedBadges p w' = Ok after w'
    /\ (forall e, In e after <-> In e before \/ In e newBadges)
    /\ (forall e, In e after -> EarnedBadge.profileId e = p)
    /\ (forall q, q <> p ->
          forall e, In e (default [] (valueOf (getEarnedBadges q) w'))
                    <-> In e (default [] (valueOf (getEarnedBadges q) w))).
Proof.
  destruct (checkAndAwardBadges_run p h lanes w)
    as (newBadges & w' & Hrun & Htypes & Hnew & Hstore & _).
  assert (Hlisted : forall q w0 e,
            In e (map (fun doc => earnedBadgeOf (fst doc) (snd doc))
                      (whereProfileId EarnedBadge.profileId q (earnedBadges w0)))
            <-> exists k d, earnedBadges w0 !! k = Some d
                            /\ EarnedBadge.profileId d = q
                            /\ e = earnedBadgeOf k d).
  { intros q w0 e. rewrite in_map_iff. split.
    - intros [[k d] [<- H]]. apply whereProfileId_In in H as [H1 H2]. eauto.
    - intros (k & d & H1 & H2 & ->). exists (k, d). split; [reflexivity|].
      by apply whereProfileId_In. }
  assert (Hown : forall e, In e newBadges ->
                           EarnedBadge.profileId e = p
                           /\ earnedBadgeOf (EarnedBadge.id e) e = e).
  { intros e He. rewrite List.Forall_forall in Hnew.
    destruct (Hnew e He) as (_ & H2 & _). split; [exact H2|]. by destruct e. }
  eexists _, newBadges, w', _.
  split; [apply getEarnedBadges_run|].
  split; [exact Hrun|].
  split; [apply getEarnedBadges_run|].
  split.
  { intros e. rewrite !Hlisted. split.
    - intros (k & d & H1 & H2 & ->). apply Hstore in H1 as [H1|[H1 ->]].
      + left. eauto.
      + right. destruct (Hown d H1) as [_ ->]. exact H1.
    - intros [(k & d & H1 & H2 & ->)|He].
      + exists k, d. split; [|auto]. apply Hstore. by left.
      + destruct (Hown e He) as [H1 H2]. exists (EarnedBadge.id e), e.
        split; [apply Hstore; by right|]. auto. }
  split.
  { intros e. rewrite Hlisted. intros (k & d & _ & H & ->). exact H. }
  intros q Hq e. unfold valueOf. rewrite !getEarnedBadges_run.
  cbn [default from_option id]. rewrite !Hlisted.
  split; intros (k & d & H1 & H2 & ->); exists k, d; (split; [|auto]).
  - apply Hstore in H1 as [H1|[H1 _]]; [exact H1|].
    destruct (Hown d H1) as [H3 _]. congruence.
  - apply Hstore. by left.
Qed.

(* ================================================================== *)
(** * The progress store: proofs *)
(* ================================================================== *)

Lemma findIndex_Some {A} (f : A -> bool) l n :
  findIndex f l = Some n ->
  exists l1 x l2, l = (l1 ++ x :: l2)%list /\ length l1 = n /\ f x = true
                  /\ forall y, In y l1 -> f y = false.
Proof.
  revert n. induction l as [|a l IH]; intros n; cbn; [discriminate|].
  destruct (f a) eqn:E.
  - intros [= <-]. exists [], a, l. repeat split; auto. intros y [].
  - destruct (findIndex f l) as [m|]; [|discriminate]. cbn. intros [= <-].
    destruct (IH m eq_refl) as (l1 & x & l2 & -> & Hlen & Hx & Hl1).
    exists (a :: l1), x, l2. cbn. repeat split; auto.
    intros y [<-|Hy]; auto.
Qed.

Lemma findIndex_None {A} (f : A -> bool) l :
  findIndex f l = None -> forall y, In y l -> f y = false.
Proof.
  induction l as [|a l IH]; cbn; [intros _ y []|].
  destruct (f a) eqn:E; [discriminate|].
  destruct (findIndex f l); [discriminate|]. intros _ y [<-|Hy]; auto.
Qed.

Lemma insert_middle {A} (l1 : list A) x l2 r :
  <[length l1 := r]> (l1 ++ x :: l2)%list = (l1 ++ r :: l2)%list.
Proof.
  rewrite <- (Nat.add_0_r (length l1)). by rewrite insert_app_r.
Qed.

(** The shape of the local history after a report for the item [i]: the
    first record of the item is replaced where it stood, or the record is
    appended when the item had none. *)
Lemma updatedHistoryOf_shape i r h :
  (exists l1 x l2, h = (l1 ++ x :: l2)%list
                   /\ WatchRecord.itemId x = i
                   /\ (forall y, In y l1 -> WatchRecord.itemId y <> i)
                   /\ updatedHistoryOf i r h = (l1 ++ r :: l2)%list)
  \/ ((forall y, In y h -> WatchRecord.itemId y <> i)
      /\ updatedHistoryOf i r h = (h ++ [r])%list).
Proof.
  unfold updatedHistoryOf.
  destruct (findIndex _ h) as [n|] eqn:E.
  - left. apply findIndex_Some in E as (l1 & x & l2 & -> & <- & Hx & Hl1).
    exists l1, x, l2. split; [reflexivity|].
    split; [by apply String.eqb_eq|].
    split; [|apply insert_middle].
    intros y Hy Heq. apply Hl1 in Hy. apply String.eqb_neq in Hy. contradiction.
  - right. split; [|reflexivity]. intros y Hy Heq.
    apply (findIndex_None _ _ E) in Hy. apply String.eqb_neq in Hy. contradiction.
Qed.

Lemma Map_of_fold_notin {V} (l : list (string * V)) (m : gmap string V) k :
  ~ In k (map fst l) ->
  fold_left (fun m entry => <[fst entry := snd entry]> m) l m !! k = m !! k.
Proof.
  revert m. induction l as [|[k' v'] l IH]; intros m Hn; [reflexivity|].
  cbn in *. rewrite IH by tauto. apply lookup_insert_ne. tauto.
Qed.

Lemma Map_of_fold_in {V} (l : list (string * V)) (m : gmap string V) k v :
  List.NoDup (map fst l) -> In (k, v) l ->
  fold_left (fun m entry => <[fst entry := snd entry]> m) l m !! k = Some v.
Proof.
  revert m. induction l as [|[k' v'] l IH]; intros m Hnd Hin; [destruct Hin|].
  cbn in *. inversion Hnd as [|? ? Hk' Hnd']; subst.
  destruct Hin as [[= -> ->]|Hin].
  - rewrite Map_of_fold_notin by exact Hk'. apply lookup_insert_eq.
  - by apply IH.
Qed.

(** With one entry per key, [new Map(entries)] holds exactly the entries. *)
Lemma Map_of_lookup {V} (l : list (string * V)) k v :
  List.NoDup (map fst l) -> Map_of l !! k = Some v <-> In (k, v) l.
Proof.
  intros Hnd. unfold Map_of. split.
  - intros H. destruct (in_dec string_dec k (map fst l)) as [Hin|Hn].
    + apply in_map_iff in Hin as [[k' v'] [Hk Hin]]. cbn in Hk. subst k'.
      rewrite (Map_of_fold_in l ∅ k v' Hnd Hin) in H. by injection H as ->.
    + rewrite Map_of_fold_notin in H by exact Hn.
      by rewrite lookup_empty in H.
  - by apply Map_of_fold_in.
Qed.

Lemma watchProgressMap_lookup h j r :
  List.NoDup (map WatchRecord.itemId h) ->
  watchProgressMap h !! j = Some r <-> In r h /\ WatchRecord.itemId r = j.
Proof.
  intros Hnd. unfold watchProgressMap. rewrite Map_of_lookup.
  - rewrite in_map_iff. split.
    + intros (x & [= <- <-] & Hx). auto.
    + intros [H <-]. eauto.
  - by rewrite map_map.
Qed.

Lemma saveWatchProgress_run p l i pos dur lanes w :
  exists r nc w1,
    updateWatchProgress p l i pos dur w = Ok (r, nc) w1
    /\ saveWatchProgress p l i pos dur lanes w
       = let store := progressStore w1 in
         let updatedHistory := updatedHistoryOf i r (atom_watchHistory store) in
         let w2 := withProgressStore
                     (mkProgressStore updatedHistory (atom_earnedBadges store)
                                      (atom_newBadges store)) w1 in
         if nc then
           match checkAndAwardBadges p updatedHistory lanes w2 with
           | Ok newBadges w3 =>
               Ok newBadges
                  (if (0 <? length newBadges)%nat
                   then withProgressStore
                          (mkProgressStore
                             (atom_watchHistory (progressStore w3))
                             (atom_earnedBadges (progressStore w3) ++ newBadges)%list
                             newBadges) w3
                   else w3)
           | Throw _ w3 => Ok [] w3
           end
         else Ok [] w2.
Proof.
  destruct (updateWatchProgress_world p l i pos dur w)
    as (r & nc & d' & Hrun & _).
  eexists r, nc, _. split; [exact Hrun|].
  unfold saveWatchProgress, tryCatch, bind at 1. rewrite Hrun.
  cbn [fst snd]. unfold bind at 1, getStore at 1. unfold bind at 1.
  unfold setStore at 1. cbv zeta. fold (updatedHistoryOf i r).
  destruct nc; [|reflexivity].
  unfold bind at 1.
  destruct (checkAndAwardBadges _ _ _ _) as [nb w3|e w3]; [|reflexivity].
  unfold bind at 1.
  destruct (0 <? length nb)%nat; reflexivity.
Qed.

(** X8.  The local history keeps one record per item.  When the atom
    [$watchHistory] holds at most one record per item, it still does after
    [saveWatchProgress]; the record of the reported item is then the one
    [updateWatchProgress] handed back, which is what [getItemProgress]
    returns for it, and the progress of every other item is what it was.
    The call itself always returns, and its badge evaluation leaves the
    watch documents as the report wrote them. *)
Theorem saveWatchProgress_local_history p l i pos dur lanes w :
  NoDup (map WatchRecord.itemId (atom_watchHistory (progressStore w))) ->
  exists r nc w1 newBadges w',
    updateWatchProgress p l i pos dur w = Ok (r, nc) w1
    /\ saveWatchProgress p l i pos dur lanes w = Ok newBadges w'
    /\ watchHistory w' = watchHistory w1
    /\ atom_watchHistory (progressStore w')
       = updatedHistoryOf i r (atom_watchHistory (progressStore w))
    /\ NoDup (map WatchRecord.itemId (atom_watchHistory (progressStore w')))
    /\ getItemProgress i w' = Ok (Some r) w'
    /\ (forall j, j <> i ->
          valueOf (getItemProgress j) w' = valueOf (getItemProgress j) w).
Proof.
  intros Hnd%NoDup_ListNoDup.
  destruct (updateWatchProgress_world p l i pos dur w)
    as (r & nc0 & d' & Hrun0 & _ & _ & _ & _ & Hi & _).
  destruct (saveWatchProgress_run p l i pos dur lanes w)
    as (r1 & nc1 & w1 & Hrun & Hsave).
  rewrite Hrun0 in Hrun. injection Hrun as E1 E2 E3. subst r1 nc1 w1.
  set (w1 := withWatchHistory _ (tick w)) in *.
  set (h := atom_watchHistory (progressStore w)) in *.
  change (progressStore w1) with (progressStore w) in Hsave.
  cbv zeta in Hsave. fold h in Hsave.
  set (h' := updatedHistoryOf i r h) in *.
  set (w2 := withProgressStore _ w1) in *.
  assert (Hnd' : List.NoDup (map WatchRecord.itemId h')).
  { subst h'. destruct (updatedHistoryOf_shape i r h)
      as [(l1 & x & l2 & Hh & Hx & _ & ->)|[Hn ->]].
    - rewrite Hh in Hnd. rewrite map_app in *. cbn [map] in *. congruence.
    - rewrite map_app. cbn [map]. rewrite Hi.
      apply NoDup_ListNoDup, NoDup_app. split; [by apply NoDup_ListNoDup|].
      split; [|apply NoDup_singleton].
      intros j Hj ->%list_elem_of_singleton.
      apply list_elem_of_In, in_map_iff in Hj as (y & Hy & Hin).
      by apply (Hn y). }
  assert (Hin : In r h').
  { subst h'. destruct (updatedHistoryOf_shape i r h)
      as [(l1 & x & l2 & _ & _ & _ & ->)|[_ ->]];
      apply in_or_app; right; left; reflexivity. }
  assert (Hother : forall j x, j <> i ->
            (In x h' /\ WatchRecord.itemId x = j)
            <-> (In x h /\ WatchRecord.itemId x = j)).
  { intros j x Hj. subst h'. destruct (updatedHistoryOf_shape i r h)
      as [(l1 & y & l2 & Hh & Hy & _ & ->)|[_ ->]].
    - rewrite Hh, !in_app_iff. cbn [In]. split.
      + intros [[H|[<-|H]] Hx]; auto. congruence.
      + intros [[H|[<-|H]] Hx]; auto. congruence.
    - rewrite in_app_iff. cbn [In]. split.
      + intros [[H|[<-|[]]] Hx]; auto. congruence.
      + intros [H Hx]. auto. }
  assert (Hfinal : exists newBadges w',
            saveWatchProgress p l i pos dur lanes w = Ok newBadges w'
            /\ watchHistory w' = watchHistory w1
            /\ atom_watchHistory (progressStore w') = h').
  { rewrite Hsave. destruct nc0; [|eexists _, _; repeat split; reflexivity].
    destruct (checkAndAwardBadges_run p h' lanes w2)
      as (nb & w3 & -> & _ & _ & _ & Hw & Hps & _).
    eexists _, _. split; [reflexivity|].
    destruct (0 <? length nb)%nat;
      cbn [watchHistory progressStore withProgressStore atom_watchHistory];
      rewrite ?Hw, ?Hps; split; reflexivity. }
  destruct Hfinal as (newBadges & w' & Hsave' & Hw' & Hh').
  exists r, nc0, w1, newBadges, w'.
  split; [exact Hrun0|]. split; [exact Hsave'|]. split; [exact Hw'|].
  split; [exact Hh'|].
  split; [rewrite Hh'; by apply NoDup_ListNoDup|].
  split.
  { unfold getItemProgress, bind, getStore, ret. rewrite Hh'.
    f_equal. apply watchProgressMap_lookup; auto. }
  intros j Hj. unfold valueOf, getItemProgress, bind, getStore, ret.
  rewrite Hh'. fold h. f_equal. apply option_eq. intros x.
  rewrite !watchProgressMap_lookup by assumption. by apply Hother.
Qed.

Lemma saveWatchProgress_local_history_witness :
  let w := worldAfter (saveWatchProgress "kid" "lane-1" "item-1" 50 100 [])
                      (emptyWorld secondsClock) in
  NoDup (map WatchRecord.itemId (atom_watchHistory (progressStore w)))
  /\ exists r nc w1 newBadges w',
       updateWatchProgress "kid" "lane-1" "item-1" 95 100 w = Ok (r, nc) w1
       /\ saveWatchProgress "kid" "lane-1" "item-1" 95 100 [] w = Ok newBadges w'
       /\ watchHistory w' = watchHistory w1
       /\ atom_watchHistory (progressStore w')
          = updatedHistoryOf "item-1" r (atom_watchHistory (progressStore w))
       /\ NoDup (map WatchRecord.itemId (atom_watchHistory (progressStore w')))
       /\ getItemProgress "item-1" w' = Ok (Some r) w'
       /\ (forall j, j <> "item-1" ->
             valueOf (getItemProgress j) w' = valueOf (getItemProgress j) w).
Proof.
  intros w.
  assert (H : NoDup (map WatchRecord.itemId (atom_watchHistory (progressStore w)))).
  { vm_compute. apply NoDup_singleton. }
  split; [exact H|].
  exact (saveWatchProgress_local_history "kid" "lane-1" "item-1" 95 100 [] w H).
Defined.

(** X9.  What [saveWatchProgress] announces.  The call always returns.
    When it returns badges, the sample was at 90% or more, the atom
    [$newBadges] holds exactly the badges returned and [$earnedBadges] has
    them appended; when it returns none, both atoms and the earned-badge
    collection are as before.  Every badge returned belongs to the
    profile, had no document before the call and has one after it; no
    earned-badge document that existed is changed or removed. *)
Theorem saveWatchProgress_announces p l i pos dur lanes w :
  exists newBadges w',
    saveWatchProgress p l i pos dur lanes w = Ok newBadges w'
    /\ (newBadges <> [] ->
          completedOf (progressPercentOf pos dur) = true
          /\ atom_newBadges (progressStore w') = newBadges
          /\ atom_earnedBadges (progressStore w')
             = (atom_earnedBadges (progressStore w) ++ newBadges)%list)
    /\ (newBadges = [] ->
          atom_newBadges (progressStore w') = atom_newBadges (progressStore w)
          /\ atom_earnedBadges (progressStore w')
             = atom_earnedBadges (progressStore w)
          /\ earnedBadges w' = earnedBadges w)
    /\ (forall e, In e newBadges ->
          EarnedBadge.profileId e = p
          /\ earnedBadges w !! EarnedBadge.id e = None
          /\ earnedBadges w' !! EarnedBadge.id e = Some e)
    /\ (forall k e, earnedBadges w !! k = Some e ->
                    earnedBadges w' !! k = Some e).
Proof.
  destruct (updateWatchProgress_world p l i pos dur w)
    as (r & nc0 & d' & Hrun0 & _ & _ & _ & _ & _ & _ & _ & _ & _ & Hold).
  destruct (saveWatchProgress_run p l i pos dur lanes w)
    as (r1 & nc1 & w1 & Hrun & Hsave).
  rewrite Hrun0 in Hrun. injection Hrun as E1 E2 E3. subst r1 nc1 w1.
  set (w1 := withWatchHistory _ (tick w)) in *.
  change (progressStore w1) with (progressStore w) in Hsave.
  cbv zeta in Hsave.
  set (h' := updatedHistoryOf i r (atom_watchHistory (progressStore w))) in *.
  set (w2 := withProgressStore _ w1) in *.
  assert (Hnc : nc0 = true -> completedOf (progressPercentOf pos dur) = true).
  { destruct (watchHistory w !! watchDocId p i).
    - destruct Hold as (_ & _ & _ & _ & _ & ->). by intros [H _]%andb_true_iff.
    - destruct Hold as (_ & _ & ->). auto. }
  rewrite Hsave. destruct nc0.
  - destruct (checkAndAwardBadges_run p h' lanes w2)
      as (nb & w3 & -> & Htypes & Hnew & Hstore & Hw & Hps & _).
    pose proof (newBadges_fresh p h' lanes w2 nb Htypes Hnew) as Hfresh.
    eexists _, _. split; [reflexivity|].
    assert (Heb : forall st : ProgressStore,
              earnedBadges (if (0 <? length nb)%nat
                            then withProgressStore st w3 else w3)
              = earnedBadges w3) by (intros st; by destruct (0 <? length nb)%nat).
    split; [|split; [|split]].
    + intros Hne. split; [by apply Hnc|].
      destruct nb as [|e nb]; [contradiction|]. cbn [length Nat.ltb Nat.leb].
      cbn [progressStore withProgressStore atom_newBadges atom_earnedBadges].
      rewrite Hps. split; reflexivity.
    + intros ->. cbn [length Nat.ltb Nat.leb]. rewrite Hps.
      split; [reflexivity|]. split; [reflexivity|].
      apply map_eq. intros k. apply option_eq. intros e.
      rewrite Hstore. cbn [In]. split; [intros [H|[[] _]]; exact H|by left].
    + intros e He. rewrite Heb. rewrite List.Forall_forall in Hnew.
      destruct (Hnew e He) as (_ & H2 & _). split; [exact H2|].
      split; [exact (Hfresh e He)|]. apply Hstore. by right.
    + intros k e H. rewrite Heb. apply Hstore. by left.
  - eexists _, _. split; [reflexivity|].
    split; [intros H; by contradiction H|].
    split; [intros _; repeat split; reflexivity|].
    split; [intros e []|]. intros k e H. exact H.
Qed.

(* ================================================================== *)
(** * Durations: printing and reading back *)
(* ================================================================== *)

Lemma parseDigits_pos d acc :
  parseDigits (Npos acc) (NilEmpty.string_of_uint d)
  = Npos (Pos.of_uint_acc d acc).
Proof.
  revert acc.
  induction d as [|d IH|d IH|d IH|d IH|d IH|d IH|d IH|d IH|d IH|d IH];
    intros acc; cbn [NilEmpty.string_of_uint parseDigits Pos.of_uint_acc];
    [reflexivity|..];
    (etransitivity; [|apply IH]); f_equal; vm_compute (N_of_ascii _ - 48)%N; lia.
Qed.

Lemma parseDigits_zero d :
  parseDigits 0 (NilEmpty.string_of_uint d) = Pos.of_uint d.
Proof.
  induction d as [|d IH|d IH|d IH|d IH|d IH|d IH|d IH|d IH|d IH|d IH];
    cbn [NilEmpty.string_of_uint parseDigits Pos.of_uint];
    [reflexivity|exact IH|..]; apply (parseDigits_pos d).
Qed.

(** The digits of [n] denote [n]. *)
Lemma decimalValue_toString n : decimalValue (toString n) = n.
Proof.
  pose proof (parseDigits_decimalValue 0 (toString n)) as H.
  rewrite N.mul_0_l, N.add_0_l in H. rewrite <- H.
  unfold toString. rewrite parseDigits_zero.
  apply DecimalN.Unsigned.of_to.
Qed.

Lemma string_of_uint_digits d :
  stringForall isDigit (NilEmpty.string_of_uint d) = true.
Proof. induction d; cbn; auto. Qed.

(** [n.toString()] is a non-empty string of digits. *)
Lemma digits_toString n : digits (toString n) = true.
Proof.
  unfold digits, toString. rewrite string_of_uint_digits, andb_true_r.
  destruct n as [|p]; [reflexivity|]. cbn [N.to_uint].
  pose proof (DecimalPos.Unsigned.to_uint_nonnil p) as H.
  by destruct (Pos.to_uint p).
Qed.

Lemma capture_toString (n : option N) :
  wellFormedCapture (option_map toString n) = true
  /\ captureValue (option_map toString n) = default 0%N n.
Proof.
  destruct n as [n|]; cbn [option_map wellFormedCapture captureValue].
  - split; [apply digits_toString|apply decimalValue_toString].
  - split; reflexivity.
Qed.

(** The duration [PT#H#M#S] of three numbers whose total stays below
    2^53 is read exactly. *)
Lemma parseDuration_iso_exact (h m s : option N) :
  (default 0 h * 3600 + default 0 m * 60 + default 0 s < 2 ^ 53)%N ->
  parseDuration ("PT" ++ isoComponent (option_map toString h) "H"
                      ++ isoComponent (option_map toString m) "M"
                      ++ isoComponent (option_map toString s) "S")
  = Z2F (Z.of_N (default 0 h * 3600 + default 0 m * 60 + default 0 s)%N).
Proof.
  intros Hb.
  destruct (capture_toString h) as [Hh Eh].
  destruct (capture_toString m) as [Hm Em].
  destruct (capture_toString s) as [Hs Es].
  unfold parseDuration. rewrite durationMatch_iso by assumption.
  rewrite !component_value, Eh, Em, Es. by apply duration_sum_exact.
Qed.

(** X10.  [parseDuration] reads a duration back.  For the ISO-8601 text
    [PT#H#M#S] of hours, minutes and seconds, each component written in
    decimal or left out, whose total
    [hours * 3600 + minutes * 60 + seconds] stays below 2^53 (a component
    left out counting 0), the result is exactly that total; minutes and
    seconds need not be below 60. *)
Theorem parseDuration_reads_iso (h m s : option N) :
  (default 0 h * 3600 + default 0 m * 60 + default 0 s < 2 ^ 53)%N ->
  parseDuration ("PT" ++ isoComponent (option_map toString h) "H"
                      ++ isoComponent (option_map toString m) "M"
                      ++ isoComponent (option_map toString s) "S")
  = Z2F (Z.of_N (default 0 h * 3600 + default 0 m * 60 + default 0 s)%N)
  /\ integerValue
       (parseDuration ("PT" ++ isoComponent (option_map toString h) "H"
                            ++ isoComponent (option_map toString m) "M"
                            ++ isoComponent (option_map toString s) "S"))
     = Some (Z.of_N (default 0 h * 3600 + default 0 m * 60 + default 0 s)%N).
Proof.
  intros Hb. rewrite (parseDuration_iso_exact h m s Hb).
  split; [reflexivity|]. apply integerValue_Z2F. lia.
Qed.

Lemma parseDuration_reads_iso_witness :
  (default 0 (Some 1) * 3600 + default 0 None * 60 + default 0 (Some 90)
   < 2 ^ 53)%N
  /\ parseDuration "PT1H90S" = 3690%float
  /\ integerValue (parseDuration "PT1H90S") = Some 3690%Z.
Proof.
  assert (Hb : (default 0 (Some 1) * 3600 + default 0 None * 60
                + default 0 (Some 90) < 2 ^ 53)%N) by (vm_compute; reflexivity).
  split; [exact Hb|].
  destruct (parseDuration_reads_iso (Some 1%N) None (Some 90%N) Hb) as [H1 H2].
  split; [exact H1|exact H2].
Defined.

(** ** Printing *)

Lemma allBelow_spec f n :
  allBelow f n = true -> forall z, (0 <= z < Z.pos n)%Z -> f z = true.
Proof.
  unfold allBelow.
  set (step := fun st : Z * bool => ((fst st + 1)%Z, snd st && f (fst st))).
  assert (H : forall k,
            fst (Pos.iter step (0%Z, true) k) = Z.pos k
            /\ (snd (Pos.iter step (0%Z, true) k) = true ->
                forall z, (0 <= z < Z.pos k)%Z -> f z = true)).
  { induction k as [|k [IH1 IH2]] using Pos.peano_ind.
    - cbn. split; [reflexivity|]. intros Hf z Hz.
      replace z with 0%Z by lia. exact Hf.
    - rewrite Pos.iter_succ. unfold step at 1 3. cbn [fst snd].
      rewrite IH1. split; [lia|].
      intros [Hs Hf]%andb_true_iff z Hz.
      destruct (Z.eq_dec z (Z.pos k)) as [->|Hne]; [exact Hf|].
      apply IH2; [exact Hs|lia]. }
  intros Hall. apply (proj2 (H n)). exact Hall.
Qed.

Lemma numberOf_Z2F z : (0 <= z < 2 ^ 53)%Z -> numberOf z = Z2F z.
Proof.
  intros Hz. unfold numberOf. apply Prim2SF_inj.
  rewrite of_uint63_spec, Uint63.of_Z_spec, Z.mod_small
    by (change Uint63.wB with (2 ^ 63)%Z; lia).
  destruct z as [|p|p]; [reflexivity| |lia].
  rewrite Prim2SF_Z2F_pos by lia. cbn [binary_normalize].
  apply (binary_round_exact false p p 0); lia.
Qed.

(** The remainder of natural numbers is exact. *)
Lemma Number_rem_exact a b :
  (0 <= a < 2 ^ 53)%Z -> (0 < b < 2 ^ 53)%Z ->
  Number_rem (Z2F a) (Z2F b) = Z2F (a mod b).
Proof.
  intros Ha Hb. unfold Number_rem.
  destruct b as [|pb|pb]; try lia. rewrite (Prim2SF_Z2F_pos pb) by lia.
  destruct a as [|pa|pa]; [| |lia].
  { rewrite Z2F_zero, Z.mod_0_l by lia. reflexivity. }
  rewrite (Prim2SF_Z2F_pos pa) by lia.
  pose proof (log2_bound pa ltac:(lia)) as Hla.
  pose proof (log2_bound pb ltac:(lia)) as Hlb.
  unfold canonical. cbv zeta.
  rewrite !canonical_mantissa_pos by lia.
  set (ka := (53 - Z.log2 (Z.pos pa) - 1)%Z) in *.
  set (kb := (53 - Z.log2 (Z.pos pb) - 1)%Z) in *.
  replace (Z.min (- ka) (- kb)) with (- Z.max ka kb)%Z by lia.
  rewrite !Z.shiftl_mul_pow2 by lia.
  replace (Z.pos pa * 2 ^ ka * 2 ^ (- ka - - Z.max ka kb))%Z
    with (Z.pos pa * 2 ^ Z.max ka kb)%Z
    by (rewrite <- Z.mul_assoc, <- Z.pow_add_r by lia; do 2 f_equal; lia).
  replace (Z.pos pb * 2 ^ kb * 2 ^ (- kb - - Z.max ka kb))%Z
    with (Z.pos pb * 2 ^ Z.max ka kb)%Z
    by (rewrite <- Z.mul_assoc, <- Z.pow_add_r by lia; do 2 f_equal; lia).
  assert (Hpow : (0 < 2 ^ Z.max ka kb)%Z) by (apply Z.pow_pos_nonneg; lia).
  rewrite Z.rem_mod_nonneg by lia.
  rewrite Z.mul_mod_distr_r by lia.
  pose proof (Z.mod_pos_bound (Z.pos pa) (Z.pos pb) ltac:(lia)) as Hr.
  destruct (Z.pos pa mod Z.pos pb)%Z as [|r|r] eqn:Er; try lia.
  - reflexivity.
  - assert (Hne : (Z.pos r * 2 ^ Z.max ka kb =? 0)%Z = false)
      by (apply Z.eqb_neq; lia).
    rewrite Hne. unfold Z2F. f_equal.
    assert (Hq : (0 < Z.pos r * 2 ^ Z.max ka kb)%Z) by lia.
    destruct (Z.pos r * 2 ^ Z.max ka kb)%Z as [|q|q] eqn:Eq; try lia.
    cbn [binary_normalize].
    rewrite (binary_round_exact false r q (Z.max ka kb)) by lia.
    symmetry. apply (binary_round_exact false r r 0); lia.
Qed.

Lemma hoursFact_small : allBelow hoursFact 360000 = true.
Proof. vm_cast_no_check (eq_refl true). Qed.

Lemma minutesFact_small : allBelow minutesFact 3600 = true.
Proof. vm_cast_no_check (eq_refl true). Qed.

Lemma printFact_small : allBelow printFact 100 = true.
Proof. vm_cast_no_check (eq_refl true). Qed.

Lemma Number_toString_small k :
  (k < 100)%N ->
  Number_toString (Z2F (Z.of_N k)) = toString k
  /\ (0 <? Z2F (Z.of_N k))%float = (0 <? k)%N.
Proof.
  intros Hk.
  pose proof (allBelow_spec _ _ printFact_small (Z.of_N k) ltac:(lia)) as F.
  unfold printFact in F. rewrite numberOf_Z2F in F by lia.
  apply andb_true_iff in F as [F1 F2].
  apply String.eqb_eq in F1. apply Bool.eqb_prop in F2.
  rewrite N2Z.id in F1. split; [exact F1|]. rewrite F2.
  destruct k; reflexivity.
Qed.

(** The three fields of [formatDuration], for a duration below 100 hours
    given in whole seconds. *)
Lemma formatDuration_numbers h m s :
  (h < 100)%N -> (m < 60)%N -> (s < 60)%N ->
  let seconds := Z2F (Z.of_N (h * 3600 + m * 60 + s)%N) in
  Math_floor (seconds / 3600) = Z2F (Z.of_N h)
  /\ Math_floor (Number_rem seconds 3600 / 60) = Z2F (Z.of_N m)
  /\ Number_rem seconds 60 = Z2F (Z.of_N s).
Proof.
  intros Hh Hm Hs seconds. subst seconds.
  set (S := Z.of_N (h * 3600 + m * 60 + s)%N).
  assert (HS : (0 <= S < 360000)%Z) by (unfold S; lia).
  assert (E1 : (S / 3600 = Z.of_N h)%Z).
  { symmetry. apply (Z.div_unique _ _ _ (Z.of_N (m * 60 + s)%N)); unfold S; lia. }
  assert (E2 : (S mod 3600 = Z.of_N (m * 60 + s))%Z).
  { symmetry. apply (Z.mod_unique _ _ (Z.of_N h)); unfold S; lia. }
  assert (E3 : (Z.of_N (m * 60 + s) / 60 = Z.of_N m)%Z).
  { symmetry. apply (Z.div_unique _ _ _ (Z.of_N s)); lia. }
  assert (E4 : (S mod 60 = Z.of_N s)%Z).
  { symmetry. apply (Z.mod_unique _ _ (Z.of_N (h * 60 + m)%N)); unfold S; lia. }
  split; [|split].
  - pose proof (allBelow_spec _ _ hoursFact_small S ltac:(lia)) as F.
    unfold hoursFact in F. apply FloatAxioms.Leibniz.eqb_spec in F.
    rewrite !numberOf_Z2F in F by lia. by rewrite F, E1.
  - change 3600%float with (Z2F 3600).
    rewrite Number_rem_exact, E2 by lia.
    pose proof (allBelow_spec _ _ minutesFact_small (Z.of_N (m * 60 + s)%N)
                  ltac:(lia)) as F.
    unfold minutesFact in F. apply FloatAxioms.Leibniz.eqb_spec in F.
    rewrite !numberOf_Z2F in F by lia. by rewrite F, E3.
  - change 60%float with (Z2F 60). by rewrite Number_rem_exact, E4 by lia.
Qed.

Lemma sexagesimal_In k : (k < 60)%N -> In k sexagesimal.
Proof.
  intros H. unfold sexagesimal. apply in_map_iff. exists (N.to_nat k).
  split; [apply N2Nat.id|]. apply in_seq. lia.
Qed.

Lemma sexagesimal_fields :
  forallb (fun k => (String.length (padStart2 (toString k)) =? 2)%nat
                    && (decimalValue (padStart2 (toString k)) =? k)%N
                    && stringForall isDigit (padStart2 (toString k)))
          sexagesimal = true.
Proof. vm_compute. reflexivity. Qed.

Lemma padStart2_field k :
  (k < 60)%N ->
  String.length (padStart2 (toString k)) = 2
  /\ decimalValue (padStart2 (toString k)) = k
  /\ stringForall isDigit (padStart2 (toString k)) = true.
Proof.
  intros H. apply sexagesimal_In in H.
  pose proof sexagesimal_fields as F. rewrite forallb_forall in F.
  specialize (F k H). apply andb_true_iff in F as [F F3].
  apply andb_true_iff in F as [F1 F2].
  apply Nat.eqb_eq in F1. apply N.eqb_eq in F2. auto.
Qed.

Lemma formatDuration_fields h m s :
  (h < 100)%N -> (m < 60)%N -> (s < 60)%N ->
  formatDuration (Z2F (Z.of_N (h * 3600 + m * 60 + s)%N))
  = if (0 <? h)%N
    then toString h ++ ":" ++ padStart2 (toString m) ++ ":"
         ++ padStart2 (toString s)
    else toString m ++ ":" ++ padStart2 (toString s).
Proof.
  intros Hh Hm Hs. unfold formatDuration.
  destruct (formatDuration_numbers h m s Hh Hm Hs) as (E1 & E2 & E3).
  cbv zeta in E1, E2, E3. cbv zeta. rewrite E1, E2, E3.
  destruct (Number_toString_small h Hh) as [Ph Zh].
  destruct (Number_toString_small m ltac:(lia)) as [Pm _].
  destruct (Number_toString_small s ltac:(lia)) as [Ps _].
  by rewrite Zh, Ph, Pm, Ps.
Qed.

(** X11.  What the pipeline shows for a video.  For a duration below 100
    hours given in whole seconds, [hours * 3600 + minutes * 60 + seconds]
    with minutes and seconds below 60, [formatDuration] prints [h:mm:ss]
    when there are hours and [m:ss] when there are none: hours (or
    minutes, without hours) are written without padding, the fields after
    them always with exactly two digits, and each field denotes its
    number.  This is what [formatDuration(parseDuration(text))] gives for
    the ISO-8601 text [PT#H#M#S] of the three numbers. *)
Theorem formatDuration_clock h m s :
  (h < 100)%N -> (m < 60)%N -> (s < 60)%N ->
  formatDuration (Z2F (Z.of_N (h * 3600 + m * 60 + s)%N))
  = (if (0 <? h)%N
     then toString h ++ ":" ++ padStart2 (toString m) ++ ":"
          ++ padStart2 (toString s)
     else toString m ++ ":" ++ padStart2 (toString s))
  /\ formatDuration
       (parseDuration ("PT" ++ toString h ++ "H" ++ toString m ++ "M"
                            ++ toString s ++ "S"))
     = formatDuration (Z2F (Z.of_N (h * 3600 + m * 60 + s)%N))
  /\ String.length (padStart2 (toString m)) = 2
  /\ String.length (padStart2 (toString s)) = 2
  /\ decimalValue (toString h) = h
  /\ decimalValue (padStart2 (toString m)) = m
  /\ decimalValue (padStart2 (toString s)) = s.
Proof.
  intros Hh Hm Hs.
  destruct (padStart2_field m Hm) as (M1 & M2 & _).
  destruct (padStart2_field s Hs) as (S1 & S2 & _).
  split; [by apply formatDuration_fields|].
  split.
  { pose proof (parseDuration_iso_exact (Some h) (Some m) (Some s)) as H.
    cbn [option_map isoComponent default from_option id] in H.
    rewrite !append_assoc in H. rewrite H; [reflexivity|lia]. }
  split; [exact M1|]. split; [exact S1|].
  split; [apply decimalValue_toString|]. split; [exact M2|exact S2].
Qed.

Lemma formatDuration_clock_witness :
  (1 < 100)%N /\ (13 < 60)%N /\ (7 < 60)%N
  /\ formatDuration 4387 = "1:13:07"
  /\ formatDuration (parseDuration "PT1H13M7S") = "1:13:07"
  /\ formatDuration 253 = "4:13".
Proof.
  split; [reflexivity|]. split; [reflexivity|]. split; [reflexivity|].
  destruct (formatDuration_clock 1 13 7 eq_refl eq_refl eq_refl)
    as (H1 & H2 & _).
  split; [exact H1|]. split; [|vm_compute; reflexivity].
  etransitivity; [exact H2|exact H1].
Defined.

(** [formatDuration] on other Numbers: a fraction of a second is printed
    with its digits, a negative duration with its signs, and beyond 2^53
    the digits are those of the nearest double. *)
Example formatDuration_examples :
  formatDuration 90.5 = "1:30.5"
  /\ formatDuration (-5) = "-1:-5"
  /\ formatDuration 1e21 = "277777777777777800:46:40"
  /\ formatDuration nan = "NaN:NaN"
  /\ formatDuration infinity = "Infinity:NaN:NaN"
  /\ formatDuration 0 = "0:00"
  /\ formatDuration 359999 = "99:59:59".
Proof. repeat split; vm_compute; reflexivity. Qed.

(* ================================================================== *)
(** * Video identifiers: proofs *)
(* ================================================================== *)

Lemma takeWhile_prefix P s : exists post, s = takeWhile P s ++ post.
Proof.
  induction s as [|c s [post IH]]; [by exists ""|]. cbn [takeWhile].
  destruct (P c).
  - exists post. rewrite append_cons. by rewrite <- IH.
  - by exists (String c s).
Qed.

Lemma takeWhile_forall P s : stringForall P (takeWhile P s) = true.
Proof.
  induction s as [|c s IH]; [reflexivity|]. cbn [takeWhile].
  destruct (P c) eqn:E; [|reflexivity]. cbn. by rewrite E.
Qed.

Lemma takeWhile_app P id rest :
  stringForall P id = true ->
  match rest with EmptyString => true | String c _ => negb (P c) end = true ->
  takeWhile P (id ++ rest) = id.
Proof.
  intros Hid Hrest. induction id as [|c id IH].
  - rewrite append_nil. destruct rest as [|c rest]; [reflexivity|].
    cbn [takeWhile]. apply negb_true_iff in Hrest. by rewrite Hrest.
  - cbn in Hid. apply andb_true_iff in Hid as [Hc Hid].
    rewrite append_cons. cbn [takeWhile]. rewrite Hc. by rewrite IH.
Qed.

Lemma idRun_Some s id :
  idRun s = Some id ->
  id <> "" /\ stringForall isIdChar id = true /\ exists post, s = id ++ post.
Proof.
  unfold idRun. pose proof (takeWhile_forall isIdChar s) as Hall.
  destruct (takeWhile_prefix isIdChar s) as [post Hpost].
  destruct (takeWhile isIdChar s) as [|c run] eqn:E; [discriminate|].
  intros [= <-]. split; [discriminate|]. split; [exact Hall|]. eauto.
Qed.

Lemma idRun_app id rest :
  id <> "" -> stringForall isIdChar id = true -> endsId rest = true ->
  idRun (id ++ rest) = Some id.
Proof.
  intros Hne Hid Hrest. unfold idRun. rewrite takeWhile_app; auto.
  by destruct id.
Qed.

Lemma afterMarker_Some marker s id :
  afterMarker marker s = Some id ->
  id <> "" /\ stringForall isIdChar id = true
  /\ exists post, s = marker ++ id ++ post.
Proof.
  unfold afterMarker. destruct (stripPrefix marker s) as [r|] eqn:E;
    [|discriminate].
  intros (H1 & H2 & post & ->)%idRun_Some. apply stripPrefix_Some in E.
  eauto.
Qed.

Lemma videoUrlAt_Some s id :
  videoUrlAt s = Some id ->
  id <> "" /\ stringForall isIdChar id = true
  /\ exists marker post, In marker markers /\ s = marker ++ id ++ post.
Proof.
  unfold videoUrlAt, markers.
  destruct (afterMarker "youtube.com/watch?v=" s) as [x|] eqn:E1.
  { intros [= <-]. apply afterMarker_Some in E1 as (H1 & H2 & post & H3).
    repeat split; auto. exists "youtube.com/watch?v=", post. cbn. auto. }
  destruct (afterMarker "youtu.be/" s) as [x|] eqn:E2.
  { intros [= <-]. apply afterMarker_Some in E2 as (H1 & H2 & post & H3).
    repeat split; auto. exists "youtu.be/", post. cbn. auto. }
  intros E3. apply afterMarker_Some in E3 as (H1 & H2 & post & H3).
  repeat split; auto. exists "youtube.com/embed/", post. cbn. auto.
Qed.

Lemma videoUrlMatch_unfold url :
  videoUrlMatch url
  = match videoUrlAt url with
    | Some id => Some id
    | None => match url with
              | String _ rest => videoUrlMatch rest
              | EmptyString => None
              end
    end.
Proof. destruct url; reflexivity. Qed.

Lemma videoUrlMatch_Some url id :
  videoUrlMatch url = Some id ->
  id <> "" /\ stringForall isIdChar id = true
  /\ exists pre marker post,
       In marker markers /\ url = pre ++ marker ++ id ++ post.
Proof.
  induction url as [|c url IH]; rewrite videoUrlMatch_unfold.
  - destruct (videoUrlAt "") as [x|] eqn:E; [|discriminate].
    intros [= <-]. apply videoUrlAt_Some in E as (H1 & H2 & m & post & H3 & H4).
    repeat split; auto. exists "", m, post. auto.
  - destruct (videoUrlAt (String c url)) as [x|] eqn:E.
    + intros [= <-].
      apply videoUrlAt_Some in E as (H1 & H2 & m & post & H3 & H4).
      repeat split; auto. exists "", m, post. auto.
    + intros (H1 & H2 & pre & m & post & H3 & ->)%IH.
      repeat split; auto. exists (String c pre), m, post. auto.
Qed.

Lemma videoUrlAt_marker marker id rest :
  In marker markers ->
  id <> "" -> stringForall isIdChar id = true -> endsId rest = true ->
  videoUrlAt (marker ++ id ++ rest) = Some id.
Proof.
  intros Hm Hne Hid Hrest. pose proof (idRun_app id rest Hne Hid Hrest) as Hrun.
  unfold markers in Hm. cbn [In] in Hm.
  destruct Hm as [<-|[<-|[<-|[]]]]; unfold videoUrlAt.
  - unfold afterMarker at 1. by rewrite stripPrefix_append, Hrun.
  - assert (E : afterMarker "youtube.com/watch?v=" ("youtu.be/" ++ id ++ rest)
                = None) by reflexivity.
    rewrite E. unfold afterMarker. by rewrite stripPrefix_append, Hrun.
  - assert (E1 : afterMarker "youtube.com/watch?v="
                   ("youtube.com/embed/" ++ id ++ rest) = None) by reflexivity.
    assert (E2 : afterMarker "youtu.be/" ("youtube.com/embed/" ++ id ++ rest)
                 = None) by reflexivity.
    rewrite E1, E2. unfold afterMarker. by rewrite stripPrefix_append, Hrun.
Qed.

Lemma videoUrlAt_other c s :
  Ascii.eqb c "y" = false -> videoUrlAt (String c s) = None.
Proof.
  intros H. unfold videoUrlAt, afterMarker. cbn [stripPrefix].
  rewrite Ascii.eqb_sym in H. by rewrite H.
Qed.

Lemma videoUrlMatch_skip before s :
  noMarkerStart before = true -> videoUrlMatch (before ++ s) = videoUrlMatch s.
Proof.
  intros H. induction before as [|c before IH]; [by rewrite append_nil|].
  cbn in H. apply andb_true_iff in H as [Hc H]. apply negb_true_iff in Hc.
  rewrite append_cons, videoUrlMatch_unfold, videoUrlAt_other by exact Hc.
  by apply IH.
Qed.

(** X12.  [extractYouTubeVideoId] finds the identifier of a video URL.
    For each of the three forms ([youtube.com/watch?v=], [youtu.be/] and
    [youtube.com/embed/]), whatever stands before the form as long as it
    holds no letter y (a scheme and a host prefix such as [https://www.]),
    the result is the identifier that follows: the non-empty text up to
    the end of the URL or up to the first [&], [?], [#] or line feed. *)
Theorem extractYouTubeVideoId_finds before marker id rest :
  noMarkerStart before = true ->
  In marker markers ->
  id <> "" ->
  stringForall isIdChar id = true ->
  endsId rest = true ->
  extractYouTubeVideoId (before ++ marker ++ id ++ rest) = Some id.
Proof.
  intros Hb Hm Hne Hid Hrest. unfold extractYouTubeVideoId.
  rewrite videoUrlMatch_skip by exact Hb.
  rewrite videoUrlMatch_unfold, videoUrlAt_marker by assumption. reflexivity.
Qed.

Lemma extractYouTubeVideoId_finds_witness :
  noMarkerStart "https://www." = true
  /\ In "youtube.com/watch?v=" markers
  /\ "dQw4w9WgXcQ" <> ""
  /\ stringForall isIdChar "dQw4w9WgXcQ" = true
  /\ endsId "&t=42s" = true
  /\ extractYouTubeVideoId "https://www.youtube.com/watch?v=dQw4w9WgXcQ&t=42s"
     = Some "dQw4w9WgXcQ".
Proof.
  split; [reflexivity|]. split; [left; reflexivity|].
  split; [discriminate|]. split; [reflexivity|]. split; [reflexivity|].
  exact (extractYouTubeVideoId_finds "https://www." "youtube.com/watch?v="
           "dQw4w9WgXcQ" "&t=42s" eq_refl (or_introl eq_refl)
           (fun H => eq_ind "dQw4w9WgXcQ"
                       (fun s => match s with
                                 | EmptyString => False
                                 | String _ _ => True
                                 end) I "" H)
           eq_refl eq_refl).
Defined.

Lemma stripPrefix_forall P m s r :
  stripPrefix m s = Some r -> stringForall P s = true ->
  stringForall P m = true.
Proof.
  revert s. induction m as [|a m IH]; intros s; [reflexivity|].
  cbn [stripPrefix]. destruct s as [|b s]; [discriminate|].
  destruct (Ascii.eqb a b) eqn:E; [|discriminate].
  apply Ascii.eqb_eq in E. subst b. cbn. intros H [Ha Hs]%andb_true_iff.
  rewrite Ha. by apply (IH s).
Qed.

Lemma videoUrlAt_plain s :
  stringForall isVideoIdChar s = true -> videoUrlAt s = None.
Proof.
  intros H. unfold videoUrlAt, afterMarker.
  destruct (stripPrefix "youtube.com/watch?v=" s) as [r|] eqn:E1.
  { apply (stripPrefix_forall isVideoIdChar) in E1; [discriminate|exact H]. }
  destruct (stripPrefix "youtu.be/" s) as [r|] eqn:E2.
  { apply (stripPrefix_forall isVideoIdChar) in E2; [discriminate|exact H]. }
  destruct (stripPrefix "youtube.com/embed/" s) as [r|] eqn:E3.
  { apply (stripPrefix_forall isVideoIdChar) in E3; [discriminate|exact H]. }
  reflexivity.
Qed.

Lemma videoUrlMatch_plain s :
  stringForall isVideoIdChar s = true -> videoUrlMatch s = None.
Proof.
  induction s as [|c s IH]; intros H;
    rewrite videoUrlMatch_unfold, videoUrlAt_plain by exact H;
    [reflexivity|].
  cbn in H. apply andb_true_iff in H as [_ H]. by apply IH.
Qed.

Lemma isVideoIdChar_isIdChar c : isVideoIdChar c = true -> isIdChar c = true.
Proof.
  destruct c as [[] [] [] [] [] [] [] []]; vm_compute; congruence.
Qed.

Lemma stringForall_impl (P Q : ascii -> bool) s :
  (forall c, P c = true -> Q c = true) ->
  stringForall P s = true -> stringForall Q s = true.
Proof.
  intros HPQ. induction s as [|c s IH]; [reflexivity|]. cbn.
  intros [Hc Hs]%andb_true_iff. by rewrite (HPQ c Hc), IH.
Qed.

Lemma directVideoId_Some url id :
  directVideoId url = Some id
  <-> id = url /\ String.length url = 11
      /\ stringForall isVideoIdChar url = true.
Proof.
  unfold directVideoId.
  destruct ((String.length url =? 11)%nat && stringForall isVideoIdChar url)
    eqn:E.
  - apply andb_true_iff in E as [E1 E2]. apply Nat.eqb_eq in E1.
    split; [intros [= <-]; auto|]. by intros (-> & _).
  - split; [discriminate|]. intros (_ & H1 & H2).
    rewrite H1, H2 in E. discriminate.
Qed.

Lemma videoUrlAt_is_Some marker c post :
  In marker markers -> isIdChar c = true ->
  is_Some (videoUrlAt (marker ++ String c post)).
Proof.
  intros Hm Hc.
  assert (Hrun : forall m, is_Some (afterMarker m (m ++ String c post))).
  { intros m. unfold afterMarker, idRun. rewrite stripPrefix_append.
    cbn [takeWhile]. rewrite Hc. eauto. }
  unfold markers in Hm. cbn [In] in Hm. unfold videoUrlAt.
  destruct Hm as [<-|[<-|[<-|[]]]].
  - destruct (Hrun "youtube.com/watch?v=") as [x ->]. eauto.
  - destruct (afterMarker "youtube.com/watch?v=" _); [eauto|].
    destruct (Hrun "youtu.be/") as [x ->]. eauto.
  - destruct (afterMarker "youtube.com/watch?v=" _); [eauto|].
    destruct (afterMarker "youtu.be/" _); [eauto|]. apply Hrun.
Qed.

Lemma videoUrlMatch_is_Some pre s :
  is_Some (videoUrlAt s) -> is_Some (videoUrlMatch (pre ++ s)).
Proof.
  intros [x Hx]. induction pre as [|c pre IH].
  - rewrite append_nil, videoUrlMatch_unfold, Hx. eauto.
  - rewrite append_cons, videoUrlMatch_unfold.
    destruct (videoUrlAt (String c (pre ++ s))); [eauto|exact IH].
Qed.

(** The first pattern matches exactly when one of the three forms occurs
    with an identifier character after it. *)
Lemma videoUrlMatch_None url :
  videoUrlMatch url = None
  <-> forall pre marker c post,
        In marker markers -> url = pre ++ marker ++ String c post ->
        isIdChar c = false.
Proof.
  split.
  - intros Hnone pre marker c post Hm ->.
    destruct (isIdChar c) eqn:Hc; [|reflexivity]. exfalso.
    destruct (videoUrlMatch_is_Some pre (marker ++ String c post)
                (videoUrlAt_is_Some marker c post Hm Hc)) as [x Hx].
    congruence.
  - intros H. destruct (videoUrlMatch url) as [id|] eqn:E; [|reflexivity].
    exfalso.
    apply videoUrlMatch_Some in E as (Hne & Hid & pre & m & post & Hm & ->).
    destruct id as [|c id]; [contradiction|].
    cbn in Hid. apply andb_true_iff in Hid as [Hc _].
    rewrite append_cons in H. rewrite (H pre m c (id ++ post) Hm eq_refl) in Hc.
    discriminate.
Qed.

(** X13.  What [extractYouTubeVideoId] returns.  A result is never empty,
    holds none of [&], [?], [#] and line feed, and is a piece of the input:
    the text after one of the three URL forms, or else the whole input
    when that is 11 characters of letters, digits, [_] and [-].  Such a
    bare identifier is returned as it is.  The result is [null] exactly
    when none of the three forms occurs with an identifier character after
    it and the input is no bare identifier. *)
Theorem extractYouTubeVideoId_result url :
  (forall id, extractYouTubeVideoId url = Some id ->
     id <> "" /\ stringForall isIdChar id = true
     /\ ((exists pre marker post,
            In marker markers /\ url = pre ++ marker ++ id ++ post)
         \/ (id = url /\ String.length url = 11
             /\ stringForall isVideoIdChar url = true)))
  /\ (String.length url = 11 -> stringForall isVideoIdChar url = true ->
      extractYouTubeVideoId url = Some url)
  /\ (extractYouTubeVideoId url = None
      <-> (forall pre marker c post,
             In marker markers -> url = pre ++ marker ++ String c post ->
             isIdChar c = false)
          /\ ~ (String.length url = 11
                /\ stringForall isVideoIdChar url = true)).
Proof.
  split; [|split].
  - intros id. unfold extractYouTubeVideoId.
    destruct (videoUrlMatch url) as [x|] eqn:E.
    + intros [= <-]. apply videoUrlMatch_Some in E as (H1 & H2 & H3). auto.
    + intros (-> & H1 & H2)%directVideoId_Some.
      split; [by destruct url|].
      split; [|right; auto].
      by apply (stringForall_impl isVideoIdChar), H2; apply isVideoIdChar_isIdChar.
  - intros H1 H2. unfold extractYouTubeVideoId.
    rewrite videoUrlMatch_plain by exact H2. by apply directVideoId_Some.
  - rewrite <- videoUrlMatch_None. unfold extractYouTubeVideoId.
    destruct (videoUrlMatch url) as [x|] eqn:E.
    + split; [discriminate|]. by intros [H _].
    + split.
      * intros Hd. split; [reflexivity|]. intros [H1 H2].
        assert (Hs : directVideoId url = Some url) by by apply directVideoId_Some.
        congruence.
      * intros [_ Hn]. destruct (directVideoId url) as [x|] eqn:Ed;
          [|reflexivity].
        apply directVideoId_Some in Ed as (_ & H1 & H2). exfalso. auto.
Qed.

(* ================================================================== *)
(** * Lane generation pipeline: bounds *)
(* ================================================================== *)

Lemma firstSeen_sublist seen videos :
  length (firstSeen seen videos) <= length videos
  /\ forall v, In v (firstSeen seen videos) -> In v videos.
Proof.
  revert seen. induction videos as [|x videos IH]; intros seen; cbn.
  - split; [lia|tauto].
  - destruct (bool_decide _).
    + destruct (IH seen) as [H1 H2]. split; [lia|]. intros v Hv. right. auto.
    + destruct (IH ({[YouTubeVideoDetails.videoId x]} ∪ seen)) as [H1 H2].
      cbn. split; [lia|]. intros v [<-|Hv]; auto.
Qed.

Lemma returned_length youtube queries :
  (forall n q videos, youtube n q = Some videos -> length videos <= 5) ->
  forall n, length (returned youtube n queries) <= 5 * length queries.
Proof.
  intros Hmax. induction queries as [|q queries IH]; intros n; cbn [returned length].
  - lia.
  - rewrite length_app. specialize (IH (S n)).
    destruct (youtube n _) as [videos|] eqn:E; cbn [default from_option id length].
    + apply Hmax in E. lia.
    + lia.
Qed.

Lemma returned_all_failed youtube queries :
  (forall n q, youtube n q = None) ->
  forall n, returned youtube n queries = [].
Proof.
  intros Hfail. induction queries as [|q queries IH]; intros n; cbn [returned].
  - reflexivity.
  - by rewrite Hfail, IH.
Qed.

(** X14.  The candidates of the search step.  Every candidate is a video
    that one of the first four calls returned, and there are no more
    candidates than videos returned; when every call fails there is no
    candidate, and the step still yields its (empty) list.  With a Search
    Service that honours [maxResults: 5] the step yields at most 20
    candidates. *)
Theorem searchStep_bounded (youtube : SearchService) (searchQueries : list string) :
  (forall v, In v (searchStep youtube searchQueries) ->
             In v (returned youtube 0 (firstn 4 searchQueries)))
  /\ length (searchStep youtube searchQueries)
     <= length (returned youtube 0 (firstn 4 searchQueries))
  /\ ((forall n q, youtube n q = None) -> searchStep youtube searchQueries = [])
  /\ ((forall n q videos, youtube n q = Some videos -> length videos <= 5) ->
      length (searchStep youtube searchQueries) <= 20).
Proof.
  rewrite searchStep_firstSeen.
  destruct (firstSeen_sublist ∅ (returned youtube 0 (firstn 4 searchQueries)))
    as [Hlen Hin].
  split; [exact Hin|]. split; [exact Hlen|]. split.
  - intros Hfail. by rewrite returned_all_failed.
  - intros Hmax.
    pose proof (returned_length youtube (firstn 4 searchQueries) Hmax 0) as H.
    pose proof (firstn_le_length 4 searchQueries) as H4.
    rewrite length_firstn in H. lia.
Qed.

Lemma Forall2_length_eq {A B} (R : A -> B -> Prop) l1 l2 :
  Forall2 R l1 l2 -> length l1 = length l2.
Proof. induction 1; cbn; auto. Qed.

Lemma sliceTo_length {A} (l : list A) e :
  (0 <= e)%Z -> (Z.of_nat (length (sliceTo l e)) <= e)%Z
                /\ length (sliceTo l e) <= length l.
Proof.
  intros He. unfold sliceTo.
  destruct (e <? 0)%Z eqn:E; [apply Z.ltb_lt in E; lia|].
  rewrite length_firstn. lia.
Qed.

Lemma filter_length_le {A} (f : A -> bool) l :
  length (List.filter f l) <= length l.
Proof. induction l as [|x l IH]; cbn; [lia|]. destruct (f x); cbn; lia. Qed.

(** ** Sorting *)

Lemma insertSorted_Permutation {A} (f : A -> A -> number) x l :
  Permutation (insertSorted f x l) (x :: l).
Proof.
  induction l as [|y l IH]; cbn; [reflexivity|].
  destruct (0 <? f x y)%float; [|reflexivity].
  rewrite IH. apply perm_swap.
Qed.

(** Sorting moves the elements and keeps them all. *)
Lemma Array_sort_Permutation {A} (f : A -> A -> number) l :
  Permutation (Array_sort f l) l.
Proof.
  induction l as [|x l IH]; cbn; [reflexivity|].
  rewrite insertSorted_Permutation. by rewrite IH.
Qed.

Lemma insertSorted_Sorted {A} (cmp : A -> A -> number) (key : A -> Z)
    (P : A -> Prop) :
  (forall x y, P x -> P y -> (0 <? cmp x y)%float = (key y <? key x)%Z) ->
  forall x l, P x -> Forall P l ->
    Sorted (fun a b => (key a <= key b)%Z) l ->
    Sorted (fun a b => (key a <= key b)%Z) (insertSorted cmp x l).
Proof.
  intros Hcmp x l Hx. induction l as [|y l IH]; intros Hl Hs; cbn.
  - repeat constructor.
  - apply Forall_cons in Hl as [Hy Hl]. inversion Hs as [|? ? Hs' Hhd]; subst.
    rewrite (Hcmp x y Hx Hy). destruct (key y <? key x)%Z eqn:E.
    + apply Z.ltb_lt in E. constructor; [by apply IH|].
      destruct l as [|z l]; cbn.
      * constructor. lia.
      * apply Forall_cons in Hl as [Hz _]. rewrite (Hcmp x z Hx Hz).
        inversion Hhd; subst. destruct (key z <? key x)%Z; constructor; lia.
    + apply Z.ltb_ge in E. constructor; [exact Hs|]. by constructor.
Qed.

Lemma Array_sort_Sorted {A} (cmp : A -> A -> number) (key : A -> Z)
    (P : A -> Prop) l :
  (forall x y, P x -> P y -> (0 <? cmp x y)%float = (key y <? key x)%Z) ->
  Forall P l ->
  Sorted (fun a b => (key a <= key b)%Z) (Array_sort cmp l)
  /\ Forall P (Array_sort cmp l).
Proof.
  intros Hcmp. induction l as [|x l IH]; intros Hl; cbn.
  - split; constructor.
  - apply Forall_cons in Hl as [Hx Hl]. destruct (IH Hl) as [Hs Hp].
    split; [by apply (insertSorted_Sorted cmp key P)|].
    apply Forall_forall. intros y Hy%list_elem_of_In.
    apply (Permutation_in _ (insertSorted_Permutation cmp x _)) in Hy.
    destruct Hy as [<-|Hy]; [exact Hx|].
    rewrite Forall_forall in Hp. by apply Hp, list_elem_of_In.
Qed.

Lemma Sorted_weaken {A} (R R' : A -> A -> Prop) l :
  (forall a b, R a b -> R' a b) -> Sorted R l -> Sorted R' l.
Proof.
  intros HR. induction 1 as [|x l Hs IH Hhd]; constructor; [exact IH|].
  destruct Hhd; constructor; auto.
Qed.

Lemma wholeScores_In z : (0 <= z <= 100)%Z -> In z wholeScores.
Proof.
  intros Hz. unfold wholeScores. apply in_map_iff.
  exists (Z.to_nat z). split; [lia|]. apply in_seq. lia.
Qed.

Lemma scoreFacts_whole :
  forallb (fun a => forallb (scoreFacts a) wholeScores) wholeScores = true.
Proof. vm_compute. reflexivity. Qed.

Lemma scoreFacts_In a b :
  (0 <= a <= 100)%Z -> (0 <= b <= 100)%Z ->
  (0 <? Z2F b - Z2F a)%float = (a <? b)%Z.
Proof.
  intros Ha%wholeScores_In Hb%wholeScores_In.
  pose proof scoreFacts_whole as F. rewrite forallb_forall in F.
  specialize (F a Ha). rewrite forallb_forall in F. specialize (F b Hb).
  by apply Bool.eqb_prop in F.
Qed.

(** X15.  The items of a generated lane.  When [maxVideos] is not
    negative and the assembly returns, the lane has at most [maxVideos]
    items and at most one per selection; every item is built from a
    candidate and from a selection that passed the bounds check.  The
    items are those of the first [maxVideos] selections in bounds, each
    once, with the score and the reason of its selection, in the order
    the sort by relevance leaves them in; when the scores are whole
    numbers from 0 to 100 that order is by descending score. *)
Theorem selectedItems_bounded selectedVideos allVideos maxVideos items :
  (0 <= maxVideos)%Z ->
  laneItems selectedVideos allVideos maxVideos = Returns items ->
  (Z.of_nat (length items) <= maxVideos)%Z
  /\ length items <= length selectedVideos
  /\ (forall item, In item items ->
        exists video selection,
          In video allVideos /\ In selection selectedVideos
          /\ indexInBounds allVideos selection = true
          /\ item = itemOf video selection)
  /\ Permutation
       (map (fun item => (GeneratedItem.relevanceScore item,
                          GeneratedItem.reason item)) items)
       (map (fun s => (Selection.relevanceScore s, Selection.reason s))
            (sliceTo (List.filter (indexInBounds allVideos) selectedVideos)
                     maxVideos))
  /\ ((forall s, In s selectedVideos ->
         exists z, (0 <= z <= 100)%Z /\ Selection.relevanceScore s = Z2F z) ->
      Sorted (fun a b => (scoreOf b <= scoreOf a)%Z) items).
Proof.
  intros Hmax. unfold laneItems.
  destruct (selectedItems selectedVideos allVideos maxVideos)
    as [built|e] eqn:Hret; [|discriminate].
  intros [= <-].
  set (cmp := fun a b : GeneratedItem.t =>
                (GeneratedItem.relevanceScore b
                 - GeneratedItem.relevanceScore a)%float).
  pose proof (Array_sort_Permutation cmp built) as Hperm.
  apply selectedItems_Returns in Hret.
  pose proof (Forall2_length_eq _ _ _ Hret) as Hlen.
  destruct (sliceTo_length (List.filter (indexInBounds allVideos) selectedVideos)
              maxVideos Hmax) as [H1 H2].
  pose proof (filter_length_le (indexInBounds allVideos) selectedVideos) as H3.
  pose proof Hperm as Hl. apply Permutation_length in Hl.
  assert (Hbuilt : forall item, In item built ->
            exists video selection,
              In video allVideos /\ In selection selectedVideos
              /\ indexInBounds allVideos selection = true
              /\ item = itemOf video selection).
  { intros item Hitem.
    assert (Hex : exists s, In s (sliceTo (List.filter (indexInBounds allVideos)
                                           selectedVideos) maxVideos)
                  /\ exists z video,
                       integerValue (Selection.index s - 1)%float = Some z
                       /\ (0 <= z)%Z
                       /\ nth_error allVideos (Z.to_nat z) = Some video
                       /\ item = itemOf video s).
    { clear -Hret Hitem. induction Hret as [|s y l l' Hsy _ IH];
        [destruct Hitem|].
      destruct Hitem as [<-|Hitem].
      - exists s. split; [by left|exact Hsy].
      - destruct (IH Hitem) as (s' & Hs' & H). exists s'. split; [by right|exact H]. }
    destruct Hex as (s & Hs & z & video & _ & _ & Hnth & ->).
    apply sliceTo_In, filter_In in Hs as [Hs Hb].
    exists video, s. repeat split; auto. by apply nth_error_In in Hnth. }
  split; [lia|]. split; [lia|]. split; [|split].
  - intros item Hitem. apply Hbuilt.
    by apply (Permutation_in _ Hperm).
  - rewrite Hperm.
    assert (E : map (fun item => (GeneratedItem.relevanceScore item,
                                  GeneratedItem.reason item)) built
                = map (fun s => (Selection.relevanceScore s, Selection.reason s))
                      (sliceTo (List.filter (indexInBounds allVideos)
                                  selectedVideos) maxVideos)).
    { clear -Hret. induction Hret as [|s y l l' Hsy _ IH]; [reflexivity|].
      cbn [map]. rewrite IH. destruct Hsy as (z & video & _ & _ & _ & ->).
      reflexivity. }
    by rewrite E.
  - intros Hscores.
    set (P := fun item : GeneratedItem.t =>
                (0 <= scoreOf item <= 100)%Z
                /\ GeneratedItem.relevanceScore item = Z2F (scoreOf item)).
    assert (HP : Forall P built).
    { apply Forall_forall. intros item Hitem%list_elem_of_In.
      destruct (Hbuilt item Hitem) as (video & s & _ & Hs & _ & ->).
      destruct (Hscores s Hs) as (z & Hz & Ez).
      unfold P, scoreOf, itemOf. cbn [GeneratedItem.relevanceScore].
      rewrite Ez, integerValue_Z2F by lia. cbn. auto. }
    assert (Hcmp : forall x y, P x -> P y ->
              (0 <? cmp x y)%float = (- scoreOf y <? - scoreOf x)%Z).
    { intros x y [Hx Ex] [Hy Ey]. unfold cmp. rewrite Ex, Ey.
      rewrite scoreFacts_In by lia.
      destruct (scoreOf x <? scoreOf y)%Z eqn:E1;
        destruct (- scoreOf y <? - scoreOf x)%Z eqn:E2; try reflexivity;
        rewrite ?Z.ltb_lt, ?Z.ltb_ge in *; lia. }
    destruct (Array_sort_Sorted cmp (fun item => (- scoreOf item)%Z) P built
                Hcmp HP) as [Hs _].
    eapply Sorted_weaken; [|exact Hs]. cbn. intros a b H. lia.
Qed.

Lemma selectedItems_bounded_witness :
  (0 <= 2)%Z
  /\ laneItems [Selection.mk 2 70 "good"; Selection.mk 7 80 "far";
                Selection.mk 3 90 "fun"; Selection.mk 1 60 "late"]
       [sampleVideo "a"; sampleVideo "b"; sampleVideo "c"] 2
     = Returns [itemOf (sampleVideo "c") (Selection.mk 3 90 "fun");
                itemOf (sampleVideo "b") (Selection.mk 2 70 "good")]
  /\ (Z.of_nat (length [itemOf (sampleVideo "c") (Selection.mk 3 90 "fun");
                        itemOf (sampleVideo "b") (Selection.mk 2 70 "good")])
      <= 2)%Z.
Proof.
  assert (H : laneItems [Selection.mk 2 70 "good"; Selection.mk 7 80 "far";
                         Selection.mk 3 90 "fun"; Selection.mk 1 60 "late"]
                [sampleVideo "a"; sampleVideo "b"; sampleVideo "c"] 2
              = Returns [itemOf (sampleVideo "c") (Selection.mk 3 90 "fun");
                         itemOf (sampleVideo "b") (Selection.mk 2 70 "good")])
    by (vm_compute; reflexivity).
  split; [lia|]. split; [exact H|].
  exact (proj1 (selectedItems_bounded _ _ 2 _ ltac:(lia) H)).
Defined.

(** No Number is both above 0 and at most 0. *)
Lemma nothing_in_empty_bounds (x : float) :
  (0 <? x)%float && (x <=? 0)%float = false.
Proof.
  rewrite FloatAxioms.ltb_spec, FloatAxioms.leb_spec.
  change (Prim2SF 0%float) with (S754_zero false).
  destruct (Prim2SF x) as [[]|[]| |[] ? ?]; reflexivity.
Qed.

(** X16.  Nothing to select.  With no candidate at all, whatever the
    ranking response selects, the assembly returns the empty list: every
    index fails the bounds check, none is looked up, nothing is thrown.
    It also returns the empty list for an empty response, for
    [maxVideos = 0], and whenever no selection passes the bounds check. *)
Theorem selectedItems_nothing_to_select :
  (forall selectedVideos maxVideos,
      selectedItems selectedVideos [] maxVideos = Returns [])
  /\ (forall allVideos maxVideos, selectedItems [] allVideos maxVideos = Returns [])
  /\ (forall selectedVideos allVideos,
        selectedItems selectedVideos allVideos 0 = Returns [])
  /\ (forall selectedVideos allVideos maxVideos,
        Forall (fun s => indexInBounds allVideos s = false) selectedVideos ->
        selectedItems selectedVideos allVideos maxVideos = Returns []).
Proof.
  assert (Hnone : forall selectedVideos allVideos maxVideos,
            Forall (fun s => indexInBounds allVideos s = false) selectedVideos ->
            selectedItems selectedVideos allVideos maxVideos = Returns []).
  { intros sels all e H. unfold selectedItems.
    rewrite filter_none by (by apply List.Forall_forall).
    unfold sliceTo. destruct (e <? 0)%Z; by rewrite firstn_nil. }
  split; [|split; [|split]].
  - intros sels e. apply Hnone. apply List.Forall_forall. intros s _.
    unfold indexInBounds, lengthNumber.
    change (Z2F (Z.of_nat (length (@nil YouTubeVideoDetails.t)))) with 0%float.
    apply nothing_in_empty_bounds.
  - intros all e. apply Hnone. constructor.
  - intros sels all. unfold selectedItems, sliceTo. reflexivity.
  - exact Hnone.
Qed.

(** X17.  Search and assembly together.  With a Search Service that
    honours [maxResults: 5] and a ranking response whose indices are
    integers (between -100 and 100), the assembly over the candidates of
    the search step returns: it throws nothing, and every item is the
    candidate its selection points to, one of the videos the service
    returned. *)
Theorem pipeline_assembles (youtube : SearchService) searchQueries
    selectedVideos maxVideos :
  (forall n q videos, youtube n q = Some videos -> length videos <= 5) ->
  Forall (fun s => exists z, (-100 <= z <= 100)%Z /\ Selection.index s = Z2F z)
         selectedVideos ->
  exists items,
    selectedItems selectedVideos (searchStep youtube searchQueries) maxVideos
    = Returns items
    /\ forall item, In item items ->
         exists z video selection,
           In selection selectedVideos
           /\ Selection.index selection = Z2F z
           /\ nth_error (searchStep youtube searchQueries) (Z.to_nat (z - 1))
              = Some video
           /\ In video (returned youtube 0 (firstn 4 searchQueries))
           /\ item = itemOf video selection.
Proof.
  intros Hmax Hint.
  assert (Hlen : length (searchStep youtube searchQueries) <= 20).
  { rewrite searchStep_firstSeen.
    destruct (firstSeen_sublist ∅ (returned youtube 0 (firstn 4 searchQueries)))
      as [Hlen _].
    pose proof (returned_length youtube (firstn 4 searchQueries) Hmax 0) as H.
    rewrite length_firstn in H. lia. }
  destruct (selectedItems_integer_indices selectedVideos
              (searchStep youtube searchQueries) maxVideos Hlen Hint)
    as (_ & items & Hret & Hall).
  exists items. split; [exact Hret|]. intros item Hitem.
  assert (Hex : exists s,
            In s (sliceTo (List.filter
                             (indexInBounds (searchStep youtube searchQueries))
                             selectedVideos) maxVideos)
            /\ exists z video,
                 Selection.index s = Z2F z
                 /\ (1 <= z <= Z.of_nat (length (searchStep youtube searchQueries)))%Z
                 /\ nth_error (searchStep youtube searchQueries)
                              (Z.to_nat (z - 1)) = Some video
                 /\ item = itemOf video s).
  { clear -Hall Hitem. induction Hall as [|s y l l' Hsy _ IH];
      [destruct Hitem|].
    destruct Hitem as [<-|Hitem].
    - exists s. split; [by left|exact Hsy].
    - destruct (IH Hitem) as (s' & Hs' & H). exists s'. split; [by right|exact H]. }
  destruct Hex as (s & Hs & z & video & Hz & _ & Hnth & ->).
  apply sliceTo_In, filter_In in Hs as [Hs _].
  exists z, video, s. repeat split; auto.
  apply nth_error_In in Hnth. rewrite searchStep_firstSeen in Hnth.
  by apply firstSeen_sublist in Hnth.
Qed.

Lemma pipeline_assembles_witness :
  (forall n q videos, sampleService n q = Some videos -> length videos <= 5)
  /\ Forall (fun s => exists z, (-100 <= z <= 100)%Z /\ Selection.index s = Z2F z)
            [Selection.mk 3 90 "fun"; Selection.mk 9 80 "far"]
  /\ searchStep sampleService ["planets"; "moons"; "stars"]
     = [sampleVideo "a"; sampleVideo "b"; sampleVideo "c"]
  /\ exists items,
       selectedItems [Selection.mk 3 90 "fun"; Selection.mk 9 80 "far"]
         (searchStep sampleService ["planets"; "moons"; "stars"]) 8
       = Returns items
       /\ forall item, In item items ->
            exists z video selection,
              In selection [Selection.mk 3 90 "fun"; Selection.mk 9 80 "far"]
              /\ Selection.index selection = Z2F z
              /\ nth_error (searchStep sampleService ["planets"; "moons"; "stars"])
                           (Z.to_nat (z - 1)) = Some video
              /\ In video (returned sampleService 0
                             (firstn 4 ["planets"; "moons"; "stars"]))
              /\ item = itemOf video selection.
Proof.
  assert (H1 : forall n q videos,
            sampleService n q = Some videos -> length videos <= 5).
  { intros [|[|n]] q videos; cbn; intros [= <-]; cbn; lia. }
  assert (H2 : Forall (fun s => exists z, (-100 <= z <= 100)%Z
                                          /\ Selection.index s = Z2F z)
                 [Selection.mk 3 90 "fun"; Selection.mk 9 80 "far"]).
  { repeat constructor.
    - exists 3%Z. split; [lia|]. vm_compute. reflexivity.
    - exists 9%Z. split; [lia|]. vm_compute. reflexivity. }
  split; [exact H1|]. split; [exact H2|].
  split; [vm_compute; reflexivity|].
  exact (pipeline_assembles sampleService ["planets"; "moons"; "stars"]
           [Selection.mk 3 90 "fun"; Selection.mk 9 80 "far"] 8 H1 H2).
Defined.

(* ================================================================== *)
(** * Sequences of reports, and time stamps *)
(* ================================================================== *)

Lemma replaySamples_app p l i s1 s2 w :
  replaySamples p l i (s1 ++ s2) w
  = bind (replaySamples p l i s1) (fun _ => replaySamples p l i s2) w.
Proof.
  revert w. induction s1 as [|[pos dur] s1 IH]; intros w; [reflexivity|].
  cbn [replaySamples app]. unfold bind in *.
  destruct (updateWatchProgress p l i pos dur w) as [a w1|e w1]; [|reflexivity].
  apply IH.
Qed.

(** A sequence of reports for one pair always runs to its end; it reads
    the clock once per report, writes the document of the pair only, and
    leaves it with the [startedAt] it had, or with the time of the first
    report when the sequence created it. *)
Lemma replaySamples_frame p l i samples :
  forall w, exists w',
    replaySamples p l i samples w = Ok tt w'
    /\ ticks w' = ticks w + length samples
    /\ clock w' = clock w
    /\ earnedBadges w' = earnedBadges w
    /\ progressStore w' = progressStore w
    /\ (forall k, k <> watchDocId p i ->
                  watchHistory w' !! k = watchHistory w !! k)
    /\ (forall d', watchHistory w' !! watchDocId p i = Some d' ->
          WatchRecord.startedAt d'
          = match watchHistory w !! watchDocId p i with
            | Some d => WatchRecord.startedAt d
            | None => clock w (ticks w)
            end)
    /\ (watchHistory w' !! watchDocId p i = None ->
        samples = [] /\ watchHistory w !! watchDocId p i = None).
Proof.
  induction samples as [|[pos dur] samples IH]; intros w.
  - exists w. cbn. rewrite Nat.add_0_r. repeat split; auto.
    intros d' H. by rewrite H.
  - cbn [replaySamples]. unfold bind.
    destruct (updateWatchProgress_world p l i pos dur w)
      as (r & nc & d1 & -> & Hprog & _ & _ & _ & _ & _ & _ & _ & _ & Hold).
    set (w1 := withWatchHistory _ (tick w)).
    assert (H1 : watchHistory w1 !! watchDocId p i = Some d1).
    { subst w1. cbn [watchHistory withWatchHistory]. apply lookup_insert_eq. }
    assert (Hst : WatchRecord.startedAt d1
                  = match watchHistory w !! watchDocId p i with
                    | Some d => WatchRecord.startedAt d
                    | None => clock w (ticks w)
                    end).
    { destruct (watchHistory w !! watchDocId p i).
      - by destruct Hold as (_ & _ & _ & _ & H5 & _).
      - destruct Hold as (-> & H2 & _). exact H2. }
    destruct (IH w1) as (w' & -> & Ht & Hc & Hb & Hs & Hk & Hd & Hn).
    exists w'. split; [reflexivity|]. cbn [length].
    split; [rewrite Ht; cbn; lia|]. split; [exact Hc|]. split; [exact Hb|].
    split; [exact Hs|]. split.
    { intros k Hne. rewrite Hk by exact Hne. subst w1.
      cbn [watchHistory withWatchHistory]. by rewrite lookup_insert_ne. }
    split.
    { intros d' Hd'. rewrite (Hd d' Hd'), H1. exact Hst. }
    intros Hnone. destruct (Hn Hnone) as [_ H]. congruence.
Qed.

(** X18.  Only the last report counts.  After any sequence of progress
    reports for one pair, the stored position, duration, percentage and
    completed flag are those of the last report, whatever the reports
    before it were, and [updatedAt] is the time of the last report;
    [startedAt] is the one the document had before the sequence, or the
    time of the first report when the sequence created it.  The sequence
    always runs to its end, reads the clock once per report and writes no
    other document. *)
Theorem replaySamples_last p l i samples pos dur w :
  exists w' d',
    replaySamples p l i (samples ++ [(pos, dur)]) w = Ok tt w'
    /\ watchHistory w' !! watchDocId p i = Some d'
    /\ WatchRecord.lastPosition d' = pos
    /\ WatchRecord.duration d' = dur
    /\ WatchRecord.progressPercent d' = progressPercentOf pos dur
    /\ WatchRecord.completed d' = completedOf (progressPercentOf pos dur)
    /\ WatchRecord.updatedAt d' = clock w (ticks w + length samples)
    /\ WatchRecord.startedAt d'
       = match watchHistory w !! watchDocId p i with
         | Some d => WatchRecord.startedAt d
         | None => clock w (ticks w)
         end
    /\ ticks w' = S (ticks w + length samples)
    /\ (forall k, k <> watchDocId p i ->
                  watchHistory w' !! k = watchHistory w !! k)
    /\ earnedBadges w' = earnedBadges w.
Proof.
  rewrite replaySamples_app. unfold bind.
  destruct (replaySamples_frame p l i samples w)
    as (w1 & -> & Ht & Hc & Hb & _ & Hk & Hd & Hn).
  cbn [replaySamples]. unfold bind.
  rewrite updateWatchProgress_run. cbv zeta. rewrite Hc, Ht.
  destruct (watchHistory w1 !! watchDocId p i) as [d1|] eqn:E1.
  - eexists _, _. split; [reflexivity|].
    cbn [watchHistory withWatchHistory earnedBadges ticks tick].
    rewrite lookup_insert_eq. split; [reflexivity|]. cbn.
    do 5 (split; [reflexivity|]). split; [exact (Hd d1 eq_refl)|].
    split; [by rewrite Ht|]. split; [|exact Hb].
    intros k Hne. rewrite lookup_insert_ne by congruence. by apply Hk.
  - destruct (Hn eq_refl) as [-> Hnone]. rewrite Hnone.
    eexists _, _. split; [reflexivity|].
    cbn [watchHistory withWatchHistory earnedBadges ticks tick].
    rewrite lookup_insert_eq. split; [reflexivity|]. cbn.
    rewrite Nat.add_0_r.
    do 6 (split; [reflexivity|]).
    split; [rewrite Ht; cbn; lia|]. split; [|exact Hb].
    intros k Hne. rewrite lookup_insert_ne by congruence. by apply Hk.
Qed.

Lemma monotoneClock_seconds : monotoneClock secondsClock.
Proof. intros n m H. unfold secondsClock. lia. Qed.

(** X19.  Time stamps stay in order.  With a clock that never goes back
    and a store whose watch records are stamped in order (started, then
    completed if stamped, then last updated, none later than now, and
    every completed record stamped), a progress report leaves every watch
    record stamped in order: the report keeps [startedAt], stamps
    [completedAt] inside the life of the record and never leaves a
    completed record without it. *)
Theorem updateWatchProgress_keeps_stamps p l i pos dur w :
  monotoneClock (clock w) ->
  (forall k d, watchHistory w !! k = Some d ->
               stampedInOrder (clock w (ticks w)) d) ->
  exists r nc w',
    updateWatchProgress p l i pos dur w = Ok (r, nc) w'
    /\ (forall k d, watchHistory w' !! k = Some d ->
                    stampedInOrder (clock w' (ticks w')) d)
    /\ monotoneClock (clock w')
    /\ (WatchRecord.completed r = true -> is_Some (WatchRecord.completedAt r)).
Proof.
  intros Hmono Hinv.
  pose proof (Hmono (ticks w) (S (ticks w)) ltac:(lia)) as Hnext.
  rewrite updateWatchProgress_run. cbv zeta.
  destruct (watchHistory w !! watchDocId p i) as [d0|] eqn:E.
  - destruct (Hinv _ _ E) as (H1 & H2 & H3 & H4).
    eexists _, _, _. split; [reflexivity|].
    cbn [watchHistory withWatchHistory clock ticks tick WatchRecord.completed
         WatchRecord.completedAt].
    assert (Hstamp : completedOf (progressPercentOf pos dur) = true ->
              is_Some (if completedOf (progressPercentOf pos dur)
                          && negb (WatchRecord.completed d0)
                       then Some (clock w (ticks w))
                       else WatchRecord.completedAt d0)).
    { intros ->. destruct (WatchRecord.completed d0) eqn:Ec; cbn; eauto. }
    split; [|split; [exact Hmono|exact Hstamp]].
    intros k d. destruct (decide (k = watchDocId p i)) as [->|Hne].
    + rewrite lookup_insert_eq. intros [= <-]. unfold stampedInOrder. cbn.
      split; [lia|]. split; [lia|]. split; [|exact Hstamp].
      intros t. destruct (completedOf _ && negb _).
      * intros [= <-]. lia.
      * intros Ht. specialize (H3 t Ht). lia.
    + rewrite lookup_insert_ne by congruence. intros Hd.
      destruct (Hinv _ _ Hd) as (G1 & G2 & G3 & G4).
      split; [exact G1|]. split; [lia|]. split; [exact G3|exact G4].
  - eexists _, _, _. split; [reflexivity|].
    cbn [watchHistory withWatchHistory clock ticks tick WatchRecord.completed
         WatchRecord.completedAt].
    assert (Hstamp : completedOf (progressPercentOf pos dur) = true ->
              is_Some (if completedOf (progressPercentOf pos dur)
                       then Some (clock w (ticks w)) else None)).
    { intros ->. eauto. }
    split; [|split; [exact Hmono|exact Hstamp]].
    intros k d. destruct (decide (k = watchDocId p i)) as [->|Hne].
    + rewrite lookup_insert_eq. intros [= <-]. unfold stampedInOrder. cbn.
      split; [lia|]. split; [lia|]. split; [|exact Hstamp].
      intros t. destruct (completedOf _); [|discriminate].
      intros [= <-]. lia.
    + rewrite lookup_insert_ne by congruence. intros Hd.
      destruct (Hinv _ _ Hd) as (G1 & G2 & G3 & G4).
      split; [exact G1|]. split; [lia|]. split; [exact G3|exact G4].
Qed.

Lemma updateWatchProgress_keeps_stamps_witness :
  let w := worldAfter (updateWatchProgress "kid" "lane-1" "item-1" 95 100)
                      (emptyWorld secondsClock) in
  monotoneClock (clock w)
  /\ (forall k d, watchHistory w !! k = Some d ->
                  stampedInOrder (clock w (ticks w)) d)
  /\ exists r nc w',
       updateWatchProgress "kid" "lane-1" "item-1" 10 100 w = Ok (r, nc) w'
       /\ (forall k d, watchHistory w' !! k = Some d ->
                       stampedInOrder (clock w' (ticks w')) d)
       /\ monotoneClock (clock w')
       /\ (WatchRecord.completed r = true -> is_Some (WatchRecord.completedAt r)).
Proof.
  intros w.
  assert (H0 : forall k d,
            watchHistory (emptyWorld secondsClock) !! k = Some d ->
            stampedInOrder (clock (emptyWorld secondsClock)
                                  (ticks (emptyWorld secondsClock))) d).
  { intros k d H. cbn in H. by rewrite lookup_empty in H. }
  destruct (updateWatchProgress_keeps_stamps "kid" "lane-1" "item-1" 95 100
              (emptyWorld secondsClock) monotoneClock_seconds H0)
    as (r1 & nc1 & w1 & Hrun & Hinv & Hmono & _).
  assert (Hw : w = w1) by (subst w; unfold worldAfter; by rewrite Hrun).
  rewrite Hw. split; [exact Hmono|]. split; [exact Hinv|].
  exact (updateWatchProgress_keeps_stamps "kid" "lane-1" "item-1" 10 100
           w1 Hmono Hinv).
Defined.

(* ================================================================== *)
(** * The fenced block: what the pattern matches and captures *)
(* ================================================================== *)

Local Open Scope list_scope.



(** X21.  The errors of [generateJSON].  The service throws in two cases
    only, and only after the response failed to parse as it is.  With a
    fenced block in the response whose body does not parse, it throws the
    [SyntaxError] of [JSON.parse].  With no fenced block - that is, when
    the response does not hold two fences, one after the other - it throws
    an [Error] whose message is the fixed preamble followed by the first
    200 code units of the response at most. *)
Theorem generateJSON_errors {T} (JSON_parse : text -> option T)
    (response : text) :
  (fenceMatch response = None
   <-> forall pre mid post, response <> pre ++ fence ++ mid ++ fence ++ post)
  /\ (generateJSON JSON_parse response = Throws SyntaxError
      <-> JSON_parse response = None
          /\ exists body, fenceMatch response = Some body
                          /\ JSON_parse body = None)
  /\ (forall message,
        generateJSON JSON_parse response = Throws (Error message)
        <-> JSON_parse response = None
            /\ (forall pre mid post,
                  response <> pre ++ fence ++ mid ++ fence ++ post)
            /\ message = failedToParse ++ substring200 response)
  /\ length (substring200 response) <= 200
  /\ (forall n, n < 200 ->
        nth_error (substring200 response) n = nth_error response n)
  /\ (forall e, generateJSON JSON_parse response = Throws e ->
                e = SyntaxError \/ exists message, e = Error message).
Proof.
  pose proof (fenceMatch_None response) as Hnone.
  split; [exact Hnone|].
  split; [|split; [|split; [|split]]].
  - unfold generateJSON.
    destruct (JSON_parse response) as [v|]; [split; [discriminate|by intros [H _]]|].
    destruct (fenceMatch response) as [body|].
    + destruct (JSON_parse body) as [v|] eqn:Eb.
      * split; [discriminate|]. intros (_ & b & [= <-] & H). congruence.
      * split; [eauto|reflexivity].
    + split; [discriminate|]. by intros (_ & b & H & _).
  - intros message. split.
    + unfold generateJSON. destruct (JSON_parse response) as [v|]; [discriminate|].
      destruct (fenceMatch response) as [body|] eqn:E.
      * destruct (JSON_parse body) as [v|]; discriminate.
      * intros [= <-]. split; [reflexivity|]. split; [by apply Hnone|reflexivity].
    + intros (H1 & H2 & ->). apply Hnone in H2. unfold generateJSON.
      by rewrite H1, H2.
  - unfold substring200. rewrite length_firstn. lia.
  - intros n Hn. unfold substring200. rewrite nth_error_firstn.
    apply Nat.ltb_lt in Hn. by rewrite Hn.
  - intros e. unfold generateJSON.
    destruct (JSON_parse response) as [v|]; [discriminate|].
    destruct (fenceMatch response) as [body|].
    + destruct (JSON_parse body) as [v|]; [discriminate|].
      intros [= <-]. by left.
    + intros [= <-]. right. eauto.
Qed.

Local Open Scope string_scope.

(* ================================================================== *)
(** * The lane catalogue: proofs *)
(* ================================================================== *)

Lemma values_In {V} (m : gmap string V) v :
  In v (map snd (map_to_list m)) <-> exists k, m !! k = Some v.
Proof.
  rewrite in_map_iff. split.
  - intros [[k v'] [<- H]]. exists k.
    by apply list_elem_of_In, elem_of_map_to_list in H.
  - intros [k H]. exists (k, v). split; [reflexivity|].
    by apply list_elem_of_In, elem_of_map_to_list.
Qed.

Lemma getItemsForLane_In laneId c item :
  In item (getItemsForLane laneId c)
  <-> exists k, itemsOf c laneId !! k = Some item.
Proof. apply values_In. Qed.

Lemma getLanesForProfile_In p inc c lane :
  In lane (getLanesForProfile p inc c)
  <-> (exists k, laneDocs c !! k = Some lane)
      /\ Lane.profileId lane = p
      /\ (inc = true \/ Lane.isActive lane = true).
Proof.
  unfold getLanesForProfile. cbv zeta.
  rewrite (Permutation_in' eq_refl (Array_sort_Permutation _ _)).
  assert (Hall : In lane (map snd (whereProfileId Lane.profileId p (laneDocs c)))
                 <-> (exists k, laneDocs c !! k = Some lane)
                     /\ Lane.profileId lane = p).
  { rewrite in_map_iff. split.
    - intros [[k d] [<- H]]. apply whereProfileId_In in H as [H1 H2]. eauto.
    - intros [[k H1] H2]. exists (k, lane). split; [reflexivity|].
      by apply whereProfileId_In. }
  destruct inc; cbn [negb].
  - rewrite Hall. intuition.
  - rewrite filter_In, Hall. intuition discriminate.
Qed.

(** X22.  The lanes a profile sees.  [getLanesForProfile] returns the lane
    documents of the profile, each once: all of them when inactive lanes
    are asked for, and only the active ones otherwise; sorting changes
    the order only.  It returns no lane of another profile and, without
    the request, no inactive lane. *)
Theorem getLanesForProfile_lists p includeInactive c :
  (forall lane, In lane (getLanesForProfile p includeInactive c)
     <-> (exists k, laneDocs c !! k = Some lane)
         /\ Lane.profileId lane = p
         /\ (includeInactive = true \/ Lane.isActive lane = true))
  /\ Permutation (getLanesForProfile p includeInactive c)
       (List.filter (fun lane => includeInactive || Lane.isActive lane)
          (map snd (whereProfileId Lane.profileId p (laneDocs c))))
  /\ (forall lane, In lane (getLanesForProfile p false c) ->
                   In lane (getLanesForProfile p true c))
  /\ length (getLanesForProfile p includeInactive c)
     <= length (getLanesForProfile p true c).
Proof.
  assert (Hperm : forall inc,
            Permutation (getLanesForProfile p inc c)
              (List.filter (fun lane => inc || Lane.isActive lane)
                 (map snd (whereProfileId Lane.profileId p (laneDocs c))))).
  { intros inc. unfold getLanesForProfile. cbv zeta.
    rewrite Array_sort_Permutation. destruct inc; cbn [negb orb]; [|reflexivity].
    induction (map snd _) as [|x l IH]; cbn; [reflexivity|]. by rewrite <- IH. }
  split; [intros lane; apply getLanesForProfile_In|].
  split; [apply Hperm|]. split.
  - intros lane. rewrite !getLanesForProfile_In. intuition.
  - rewrite (Permutation_length (Hperm includeInactive)),
            (Permutation_length (Hperm true)).
    cbn [orb]. etransitivity; [apply filter_length_le|].
    assert (Hall : forall l : list Lane.t, List.filter (fun _ => true) l = l).
    { induction l as [|x l IH]; [reflexivity|]. cbn. by rewrite IH. }
    by rewrite Hall.
Qed.

Lemma itemsOf_deleteLane laneId c :
  itemsOf (deleteLane laneId c) laneId = ∅.
Proof.
  unfold itemsOf, deleteLane. cbn [itemDocs]. rewrite lookup_insert_eq.
  cbn [default from_option id]. apply map_eq. intros k. rewrite lookup_empty.
  destruct (default ∅ (itemDocs c !! laneId) !! k) as [v|] eqn:E.
  - apply lookup_foldr_delete. apply list_elem_of_In, in_map_iff.
    exists (k, v). split; [reflexivity|].
    by apply list_elem_of_In, elem_of_map_to_list.
  - rewrite lookup_foldr_delete_not_elem_of; [exact E|].
    intros (kv & Hk & H)%list_elem_of_In%in_map_iff. destruct kv as [k' v].
    cbn in Hk. subst k'. apply list_elem_of_In, elem_of_map_to_list in H.
    unfold itemsOf in H. congruence.
Qed.

(** X23.  Deleting a lane takes its items with it.  After [deleteLane]
    the lane is not found and it has no item left, whether or not the lane
    document existed; no profile is shown the lane any more; every other
    lane, with its items, is as it was. *)
Theorem deleteLane_cascade laneId c :
  getLaneWithItems laneId (deleteLane laneId c) = None
  /\ getItemsForLane laneId (deleteLane laneId c) = []
  /\ (forall other, other <> laneId ->
        getLaneWithItems other (deleteLane laneId c) = getLaneWithItems other c
        /\ getItemsForLane other (deleteLane laneId c) = getItemsForLane other c)
  /\ (forall p inc lane,
        In lane (getLanesForProfile p inc (deleteLane laneId c))
        <-> (exists k, k <> laneId /\ laneDocs c !! k = Some lane)
            /\ Lane.profileId lane = p
            /\ (inc = true \/ Lane.isActive lane = true)).
Proof.
  split; [|split; [|split]].
  - unfold getLaneWithItems, deleteLane. cbn [laneDocs].
    by rewrite lookup_delete_eq.
  - unfold getItemsForLane. rewrite itemsOf_deleteLane.
    by rewrite map_to_list_empty.
  - intros other Hne.
    assert (Hitems : itemsOf (deleteLane laneId c) other = itemsOf c other).
    { unfold itemsOf, deleteLane. cbn [itemDocs].
      by rewrite lookup_insert_ne by congruence. }
    unfold getLaneWithItems, getItemsForLane. rewrite Hitems.
    unfold deleteLane at 1. cbn [laneDocs].
    rewrite lookup_delete_ne by congruence. auto.
  - intros p inc lane. rewrite getLanesForProfile_In.
    unfold deleteLane. cbn [laneDocs]. split.
    + intros ([k Hk] & H2 & H3). apply lookup_delete_Some in Hk as [Hne Hk].
      split; [exists k; auto|auto].
    + intros ((k & Hne & Hk) & H2 & H3). split; [|auto].
      exists k. apply lookup_delete_Some. auto.
Qed.

(** X24.  Creating and deleting an item.  [createItem] stores the item
    under a new id, [item-] followed by the identifier drawn, in the
    subcollection of the lane, whether or not the lane exists, and hands
    back what it stored: the item is then among the items of the lane, the
    lanes and the items of other lanes are as before.  When the id was not
    in use, the items of the lane are the ones it had and the new one, and
    [deleteItem] of the new id gives back the items it had. *)
Theorem createItem_round_trip laneId item c :
  exists created c',
    createItem laneId item c = (created, c')
    /\ LaneItem.id created = "item-" ++ uuids c (drawn c)
    /\ LaneItem.title created = LaneItem.title item
    /\ LaneItem.thumbnailUrl created = LaneItem.thumbnailUrl item
    /\ LaneItem.type created = LaneItem.type item
    /\ drawn c' = S (drawn c)
    /\ laneDocs c' = laneDocs c
    /\ In created (getItemsForLane laneId c')
    /\ (forall other, other <> laneId ->
          getItemsForLane other c' = getItemsForLane other c)
    /\ (itemsOf c laneId !! LaneItem.id created = None ->
        (forall it, In it (getItemsForLane laneId c')
                    <-> it = created \/ In it (getItemsForLane laneId c))
        /\ forall it,
             In it (getItemsForLane laneId
                      (deleteItem laneId (LaneItem.id created) c'))
             <-> In it (getItemsForLane laneId c)).
Proof.
  eexists _, _. split; [reflexivity|]. cbn [LaneItem.id LaneItem.title
    LaneItem.thumbnailUrl LaneItem.type drawn laneDocs].
  do 6 (split; [reflexivity|]).
  set (id := "item-" ++ uuids c (drawn c)).
  set (created := LaneItem.mk id _ _ _).
  set (c' := mkCatalog _ _ _ _).
  assert (Hitems : itemsOf c' laneId = <[id := created]> (itemsOf c laneId)).
  { unfold itemsOf at 1. subst c'. cbn [itemDocs]. by rewrite lookup_insert_eq. }
  split; [|split].
  - apply getItemsForLane_In. exists id. rewrite Hitems. apply lookup_insert_eq.
  - intros other Hne. unfold getItemsForLane, itemsOf. subst c'. cbn [itemDocs].
    by rewrite lookup_insert_ne by congruence.
  - intros Hfresh. split.
    + intros it. rewrite !getItemsForLane_In, Hitems. split.
      * intros [k [[_ <-]|[_ H]]%lookup_insert_Some]; eauto.
      * intros [->|[k H]].
        -- exists id. apply lookup_insert_eq.
        -- exists k. rewrite lookup_insert_ne; [exact H|]. congruence.
    + intros it. rewrite !getItemsForLane_In.
      assert (Hdel : itemsOf (deleteItem laneId id c') laneId = itemsOf c laneId).
      { unfold itemsOf at 1, deleteItem. cbn [itemDocs].
        rewrite lookup_insert_eq. cbn [default from_option id].
        fold (itemsOf c' laneId). rewrite Hitems.
        rewrite delete_insert_eq. by apply delete_id. }
      by rewrite Hdel.
Qed.

(** X25.  The life of a lane.  [createLane] stores the lane under a new
    id, [lane-] followed by the identifier drawn, and hands back what it
    stored; the lane is then found by [getLaneWithItems], with the items
    that stand under its id, and the administrator's list of the profile
    shows it; a child's list shows it exactly when it is active.
    [updateLane] on an id without a lane is rejected.  Switching a lane
    off with [updateLane] keeps everything else of the lane, its items
    included; the lane then stays in the administrator's list and is in no
    child's list. *)
Theorem lane_lifecycle lane c :
  exists created c1,
    createLane lane c = (created, c1)
    /\ created = Lane.mk ("lane-" ++ uuids c (drawn c)) (Lane.profileId lane)
                   (Lane.title lane) (Lane.category lane) (Lane.isActive lane)
                   (Lane.sortOrder lane)
    /\ getLaneWithItems (Lane.id created) c1
       = Some (LaneWithItems.mk (Lane.id created) (Lane.profileId lane)
                 (Lane.title lane) (Lane.category lane) (Lane.isActive lane)
                 (Lane.sortOrder lane) (getItemsForLane (Lane.id created) c))
    /\ In created (getLanesForProfile (Lane.profileId lane) true c1)
    /\ (In created (getLanesForProfile (Lane.profileId lane) false c1)
        <-> Lane.isActive lane = true)
    /\ (forall k, k <> Lane.id created -> laneDocs c1 !! k = laneDocs c !! k)
    /\ (forall k updates, laneDocs c1 !! k = None ->
          updateLane k updates c1 = Throws (NotFound k))
    /\ exists c2,
         updateLane (Lane.id created) (setActive false) c1 = Returns c2
         /\ getLaneWithItems (Lane.id created) c2
            = Some (LaneWithItems.mk (Lane.id created) (Lane.profileId lane)
                      (Lane.title lane) (Lane.category lane) false
                      (Lane.sortOrder lane)
                      (getItemsForLane (Lane.id created) c))
         /\ (forall p l, In l (getLanesForProfile p false c2) ->
                         laneDocs c2 !! Lane.id created <> Some l)
         /\ (exists l, laneDocs c2 !! Lane.id created = Some l
                       /\ In l (getLanesForProfile (Lane.profileId lane) true c2))
         /\ (forall k, k <> Lane.id created ->
                       laneDocs c2 !! k = laneDocs c1 !! k)
         /\ itemDocs c2 = itemDocs c.
Proof.
  eexists _, _. split; [reflexivity|]. split; [reflexivity|].
  set (id := "lane-" ++ uuids c (drawn c)).
  set (created := Lane.mk id _ _ _ _ _).
  set (c1 := mkCatalog _ _ _ _).
  assert (H1 : laneDocs c1 !! id = Some created)
    by (subst c1; cbn [laneDocs]; apply lookup_insert_eq).
  change (Lane.id created) with id.
  split.
  { unfold getLaneWithItems. rewrite H1. reflexivity. }
  split.
  { apply getLanesForProfile_In. split; [eauto|]. split; [reflexivity|by left]. }
  split.
  { rewrite getLanesForProfile_In. cbn [Lane.isActive Lane.profileId]. split.
    - intros (_ & _ & [H|H]); [discriminate|exact H].
    - intros H. split; [eauto|]. split; [reflexivity|by right]. }
  split.
  { intros k Hk. subst c1. cbn [laneDocs]. by rewrite lookup_insert_ne. }
  split.
  { intros k updates Hk. unfold updateLane. by rewrite Hk. }
  unfold updateLane. rewrite H1. eexists. split; [reflexivity|].
  set (c2 := mkCatalog _ _ _ _).
  assert (H2 : laneDocs c2 !! id
               = Some (Lane.mk id (Lane.profileId lane) (Lane.title lane)
                         (Lane.category lane) false (Lane.sortOrder lane)))
    by (subst c2; cbn [laneDocs]; apply lookup_insert_eq).
  split.
  { unfold getLaneWithItems. rewrite H2. reflexivity. }
  split.
  { intros p l (_ & _ & [H|H])%getLanesForProfile_In; [discriminate|].
    rewrite H2. intros [= <-]. discriminate. }
  split.
  { eexists. split; [exact H2|]. apply getLanesForProfile_In.
    split; [eauto|]. split; [reflexivity|by left]. }
  split; [|reflexivity].
  intros k Hk. subst c2. cbn [laneDocs]. by rewrite lookup_insert_ne.
Qed.

(** A lane made, filled, switched off and deleted; and three lanes listed
    by [sortOrder], a missing order counting 0. *)
Example catalogue_scenario :
  let created := createLane (Lane.mk "" "kid" "Space" Science true 1)
                            (emptyCatalog sampleUuids) in
  let c1 := snd created in
  let c2 := snd (createItem "lane-u0" (LaneItem.mk "" "Moon" "" youtube_video) c1) in
  let c3 := snd (createLane (Lane.mk "" "kid" "Songs" Music true nan) c2) in
  let c4 := snd (createLane (Lane.mk "" "kid" "Sums" Math false 0.5) c3) in
  Lane.id (fst created) = "lane-u0"
  /\ getLaneWithItems "lane-u0" c2
     = Some (LaneWithItems.mk "lane-u0" "kid" "Space" Science true 1
               [LaneItem.mk "item-u1" "Moon" "" youtube_video])
  /\ map Lane.title (getLanesForProfile "kid" true c4) = ["Songs"; "Sums"; "Space"]
  /\ map Lane.title (getLanesForProfile "kid" false c4) = ["Songs"; "Space"]
  /\ getLanesForProfile "dad" true c4 = []
  /\ getLaneWithItems "lane-u0" (deleteLane "lane-u0" c4) = None
  /\ getItemsForLane "lane-u0" (deleteLane "lane-u0" c4) = []
  /\ updateLane "lane-u9" (setActive false) c4 = Throws (NotFound "lane-u9").
Proof. repeat split; vm_compute; reflexivity. Qed.

(* ================================================================== *)
(** * Badges after an evaluation *)
(* ================================================================== *)

Lemma completedCount_pos h r :
  In r h -> WatchRecord.completed r = true -> 1 <= completedCount h.
Proof.
  intros Hin Hc. unfold completedCount.
  assert (H : In r (List.filter WatchRecord.completed h))
    by (apply filter_In; auto).
  destruct (List.filter WatchRecord.completed h); [destruct H|cbn; lia].
Qed.


Lemma evaluation_holds p h lanes w newBadges w' b :
  checkAndAwardBadges p h lanes w = Ok newBadges w' ->
  badgeDue b h lanes ->
  is_Some (earnedBadges w' !! badgeDocId p b)
  /\ (earnedBadges w !! badgeDocId p b = None ->
      exists e, In e newBadges /\ EarnedBadge.badgeType e = b).
Proof.
  intros Hrun Hdue.
  destruct (checkAndAwardBadges_run p h lanes w)
    as (nb & w2 & Hrun' & Htypes & Hnew & Hstore & _).
  rewrite Hrun in Hrun'. injection Hrun' as <- <-.
  apply attempts_badgeDue in Hdue.
  destruct (earnedBadges w !! badgeDocId p b) as [e|] eqn:E.
  - split; [|discriminate]. exists e. apply Hstore. by left.
  - assert (Hb : In b (map EarnedBadge.badgeType newBadges)).
    { rewrite Htypes. apply filter_In. split; [exact Hdue|].
      unfold notEarned. by apply bool_decide_eq_true. }
    apply in_map_iff in Hb as (e & Hb & He).
    rewrite List.Forall_forall in Hnew. destruct (Hnew e He) as (Hid & _).
    split; [|eauto]. exists e. apply Hstore. right. split; [exact He|].
    by rewrite Hid, Hb.
Qed.


Lemma updatedHistoryOf_In i r h : In r (updatedHistoryOf i r h).
Proof.
  destruct (updatedHistoryOf_shape i r h)
    as [(l1 & x & l2 & _ & _ & _ & ->)|[_ ->]];
    apply in_or_app; right; left; reflexivity.
Qed.

(** X27.  Completing a video earns the first badge.  Whenever a report
    through [saveWatchProgress] newly completes an item, the profile holds
    [first_watch] afterwards, and when it did not hold it before, the
    badge is among the badges the call returns - whatever the local
    history and the lane catalogue hold.  A report that does not newly
    complete its item returns no badge. *)
Theorem saveWatchProgress_first_watch p l i pos dur lanes w :
  exists r nc w1 newBadges w',
    updateWatchProgress p l i pos dur w = Ok (r, nc) w1
    /\ saveWatchProgress p l i pos dur lanes w = Ok newBadges w'
    /\ (nc = true ->
        is_Some (earnedBadges w' !! badgeDocId p first_watch)
        /\ (earnedBadges w !! badgeDocId p first_watch = None ->
            exists e, In e newBadges
                      /\ EarnedBadge.badgeType e = first_watch
                      /\ EarnedBadge.profileId e = p))
    /\ (nc = false -> newBadges = [] /\ earnedBadges w' = earnedBadges w).
Proof.
  destruct (updateWatchProgress_world p l i pos dur w)
    as (r & nc & d' & Hrun0 & _ & _ & _ & _ & _ & _ & _ & Hc & _ & Hold).
  destruct (saveWatchProgress_run p l i pos dur lanes w)
    as (r1 & nc1 & w1 & Hrun & Hsave).
  rewrite Hrun0 in Hrun. injection Hrun as E1 E2 E3. subst r1 nc1 w1.
  set (w1 := withWatchHistory _ (tick w)) in *.
  change (progressStore w1) with (progressStore w) in Hsave.
  cbv zeta in Hsave.
  set (h' := updatedHistoryOf i r (atom_watchHistory (progressStore w))) in *.
  set (w2 := withProgressStore _ w1) in *.
  exists r, nc, w1. rewrite Hsave. destruct nc.
  - assert (Hr : WatchRecord.completed r = true).
    { rewrite Hc. destruct (watchHistory w !! watchDocId p i).
      - destruct Hold as (_ & _ & _ & _ & _ & H). symmetry in H.
        by apply andb_true_iff in H as [H _].
      - by destruct Hold as (_ & _ & <-). }
    assert (Hdue : badgeDue first_watch h' lanes).
    { cbn [badgeDue]. apply (completedCount_pos h' r); [|exact Hr].
      apply updatedHistoryOf_In. }
    destruct (checkAndAwardBadges_run p h' lanes w2)
      as (nb & w3 & Hrun3 & _ & Hnew & _).
    destruct (evaluation_holds p h' lanes w2 nb w3 first_watch Hrun3 Hdue)
      as [Hheld Hnewly].
    rewrite Hrun3. eexists _, _. split; [exact Hrun0|]. split; [reflexivity|].
    split; [|discriminate]. intros _. split.
    + by destruct (0 <? length nb)%nat.
    + intros Hnone. destruct (Hnewly Hnone) as (e & He & Hb).
      exists e. split; [exact He|]. split; [exact Hb|].
      rewrite List.Forall_forall in Hnew. by destruct (Hnew e He) as (_ & H & _).
  - eexists _, _. split; [exact Hrun0|]. split; [reflexivity|].
    split; [discriminate|]. intros _. split; reflexivity.
Qed.

(* ================================================================== *)
(** * The views of a profile's history *)
(* ================================================================== *)

Lemma NoDup_map_on {A B} (f : A -> B) (l : list A) :
  List.NoDup l ->
  (forall x y, In x l -> In y l -> f x = f y -> x = y) ->
  List.NoDup (map f l).
Proof.
  induction 1 as [|x l Hx Hl IH]; intros Hinj; cbn; constructor.
  - intros (y & Hy & Hin)%in_map_iff. apply Hx.
    rewrite <- (Hinj y x); auto; [by right|by left].
  - apply IH. intros a b Ha Hb. apply Hinj; by right.
Qed.

Lemma getWatchHistory_NoDup p w :
  keyedByWatch (watchHistory w) ->
  List.NoDup (map WatchRecord.itemId (default [] (valueOf (getWatchHistory p) w))).
Proof.
  intros Hkeyed. unfold valueOf. rewrite getWatchHistory_run.
  cbn [default from_option id]. rewrite map_map. cbn [WatchRecord.itemId watchRecordOf].
  apply NoDup_map_on.
  - apply List.NoDup_filter, NoDup_ListNoDup, NoDup_map_to_list.
  - intros [k1 d1] [k2 d2] [H1 P1]%whereProfileId_In [H2 P2]%whereProfileId_In.
    cbn [snd]. intros Hi.
    pose proof (Hkeyed _ _ H1) as K1. pose proof (Hkeyed _ _ H2) as K2.
    assert (k1 = k2) by congruence. subst k2. congruence.
Qed.

(** X28.  The views of a profile's history agree.  In a store whose watch
    documents sit under their own ids, [getWatchHistory] lists at most one
    record per item; so the number of completed records
    ([$totalCompleted]) is the number of completed items
    ([getCompletedItemIds]), and what the progress map holds for an item
    is, when the document under the pair's id is the pair's own, the
    record [getWatchRecord] returns for it. *)
Theorem watch_views_agree p i w :
  keyedByWatch (watchHistory w) ->
  ownsWatchDoc (watchHistory w) p i ->
  exists history progressMap record completed,
    getWatchHistory p w = Ok history w
    /\ getWatchProgressMap p w = Ok progressMap w
    /\ getWatchRecord p i w = Ok record w
    /\ getCompletedItemIds p w = Ok completed w
    /\ NoDup (map WatchRecord.itemId history)
    /\ progressMap !! i = record
    /\ size completed = totalCompleted history
    /\ (i ∈ completed
        <-> exists r, record = Some r /\ WatchRecord.completed r = true).
Proof.
  intros Hkeyed Howns.
  pose proof (getWatchHistory_NoDup p w Hkeyed) as Hnd.
  pose proof (getWatchHistory_In p w) as Hin.
  set (history := default [] (valueOf (getWatchHistory p) w)) in *.
  assert (Hh : getWatchHistory p w = Ok history w) by reflexivity.
  set (record := option_map (watchRecordOf (watchDocId p i))
                            (watchHistory w !! watchDocId p i)).
  assert (Hrec : getWatchRecord p i w = Ok record w).
  { unfold getWatchRecord, bind, getWatchDoc, ret. subst record.
    by destruct (watchHistory w !! watchDocId p i). }
  assert (Hmap : watchProgressMap history !! i = record).
  { apply option_eq. intros r. rewrite watchProgressMap_lookup by exact Hnd.
    rewrite Hin. subst record. split.
    - intros [(k & d & H1 & H2 & ->) H3]. cbn in H3.
      pose proof (Hkeyed _ _ H1) as Hk. rewrite H2, H3 in Hk. subst k.
      by rewrite H1.
    - destruct (watchHistory w !! watchDocId p i) as [d|] eqn:E; [|discriminate].
      cbn [option_map]. intros [= <-]. destruct (Howns d E) as [H2 H3].
      split; [|exact H3]. eauto. }
  exists history, (watchProgressMap history), record, (completedItemIds history).
  split; [exact Hh|]. split; [reflexivity|]. split; [exact Hrec|].
  split; [reflexivity|]. split; [by apply NoDup_ListNoDup|].
  split; [exact Hmap|]. split.
  - unfold completedItemIds, totalCompleted.
    rewrite size_list_to_set, length_map; [reflexivity|].
    by apply NoDup_ListNoDup, NoDup_map_filter.
  - unfold completedItemIds. rewrite completedItemIds_spec.
    unfold hasCompletedRecord. rewrite <- Hmap. split.
    + intros (r & H1 & H2 & H3). exists r. split; [|exact H2].
      by apply watchProgressMap_lookup.
    + intros (r & [H1 H3]%watchProgressMap_lookup & H2); eauto.
Qed.

Lemma watch_views_agree_witness :
  let w := worldAfter (updateWatchProgress "kid" "lane-1" "item-1" 95 100)
                      (emptyWorld secondsClock) in
  keyedByWatch (watchHistory w)
  /\ ownsWatchDoc (watchHistory w) "kid" "item-1"
  /\ exists history progressMap record completed,
       getWatchHistory "kid" w = Ok history w
       /\ getWatchProgressMap "kid" w = Ok progressMap w
       /\ getWatchRecord "kid" "item-1" w = Ok record w
       /\ getCompletedItemIds "kid" w = Ok completed w
       /\ NoDup (map WatchRecord.itemId history)
       /\ progressMap !! "item-1" = record
       /\ size completed = totalCompleted history
       /\ ("item-1" ∈ completed
           <-> exists r, record = Some r /\ WatchRecord.completed r = true).
Proof.
  intros w.
  destruct (updateWatchProgress_keeps_keyed "kid" "lane-1" "item-1" 95 100
              (emptyWorld secondsClock)
              (keyedByWatch_empty _) (ownsWatchDoc_empty _ _ _)) as [Hk Ho].
  fold w in Hk, Ho.
  split; [exact Hk|]. split; [exact Ho|].
  exact (watch_views_agree "kid" "item-1" w Hk Ho).
Defined.

Lemma explorer_needs_two_records r lanes :
  ~ badgeDue explorer [r] lanes.
Proof.
  cbn [badgeDue]. intros (cs & Hnd & Hlen & Hall).
  destruct cs as [|c1 [|c2 cs]]; [cbn in Hlen; lia|cbn in Hlen; lia|].
  assert (Hc : forall c, In c (c1 :: c2 :: cs) ->
                         option_map LaneWithItems.category
                           (findLane lanes (WatchRecord.laneId r)) = Some c).
  { intros c Hin. destruct (Hall c Hin) as (r' & lane & [<-|[]] & _ & Hl & Hcat).
    by rewrite Hl, <- Hcat. }
  pose proof (Hc c1 (or_introl eq_refl)) as H1.
  pose proof (Hc c2 (or_intror (or_introl eq_refl))) as H2.
  assert (c1 = c2) by congruence. subst c2.
  apply NoDup_ListNoDup in Hnd. inversion Hnd as [|? ? Hx _]; subst.
  apply Hx. by left.
Qed.

(** X29.  What [saveWatchProgress] awards.  When the report newly
    completes its item, the badges handed back are exactly the badges
    whose trigger the local history meets - the atom [$watchHistory] with
    the new record put in - and that the profile does not hold, each once;
    the watch documents of the store are not consulted.  Right after
    [clearProgress], which empties the three atoms and touches no
    document, the local history is the new record alone, and nothing but
    [first_watch] and [lane_master] can be awarded. *)
Theorem saveWatchProgress_awards p l i pos dur lanes w :
  exists r nc w1 newBadges w',
    updateWatchProgress p l i pos dur w = Ok (r, nc) w1
    /\ saveWatchProgress p l i pos dur lanes w = Ok newBadges w'
    /\ NoDup (map EarnedBadge.badgeType newBadges)
    /\ (nc = true ->
        forall b, In b (map EarnedBadge.badgeType newBadges)
                  <-> badgeDue b (updatedHistoryOf i r
                                    (atom_watchHistory (progressStore w)))
                               lanes
                      /\ earnedBadges w !! badgeDocId p b = None)
    /\ (forall w0, w = worldAfter clearProgress w0 ->
          progressStore w = mkProgressStore [] [] []
          /\ watchHistory w = watchHistory w0
          /\ earnedBadges w = earnedBadges w0
          /\ atom_watchHistory (progressStore w') = [r]
          /\ forall b, In b (map EarnedBadge.badgeType newBadges) ->
                       b = first_watch \/ b = lane_master).
Proof.
  destruct (updateWatchProgress_world p l i pos dur w)
    as (r & nc & d' & Hrun0 & _ & _ & _ & _ & _ & _ & _ & Hc & _ & Hold).
  destruct (saveWatchProgress_run p l i pos dur lanes w)
    as (r1 & nc1 & w1 & Hrun & Hsave).
  rewrite Hrun0 in Hrun. injection Hrun as E1 E2 E3. subst r1 nc1 w1.
  set (w1 := withWatchHistory _ (tick w)) in *.
  change (progressStore w1) with (progressStore w) in Hsave.
  cbv zeta in Hsave.
  set (h' := updatedHistoryOf i r (atom_watchHistory (progressStore w))) in *.
  set (w2 := withProgressStore _ w1) in *.
  assert (Hmain : exists newBadges w',
            saveWatchProgress p l i pos dur lanes w = Ok newBadges w'
            /\ atom_watchHistory (progressStore w') = h'
            /\ map EarnedBadge.badgeType newBadges
               = (if nc then List.filter (notEarned w p) (map fst (attempts h' lanes))
                  else [])).
  { rewrite Hsave. destruct nc; [|eexists _, _; repeat split; reflexivity].
    destruct (checkAndAwardBadges_run p h' lanes w2)
      as (nb & w3 & -> & Htypes & _ & _ & _ & Hps & _).
    eexists _, _. split; [reflexivity|]. split; [|exact Htypes].
    destruct (0 <? length nb)%nat; cbn [progressStore withProgressStore
      atom_watchHistory]; by rewrite Hps. }
  destruct Hmain as (newBadges & w' & Hsave' & Hh' & Htypes).
  assert (Hchar : nc = true ->
            forall b, In b (map EarnedBadge.badgeType newBadges)
                      <-> badgeDue b h' lanes
                          /\ earnedBadges w !! badgeDocId p b = None).
  { intros ->. intros b. rewrite Htypes, filter_In, attempts_badgeDue.
    unfold notEarned. by rewrite bool_decide_eq_true. }
  exists r, nc, w1, newBadges, w'.
  split; [exact Hrun0|]. split; [exact Hsave'|]. split.
  { rewrite Htypes. destruct nc; [|constructor].
    apply NoDup_ListNoDup, List.NoDup_filter, NoDup_ListNoDup, attempts_NoDup. }
  split; [exact Hchar|].
  intros w0 ->.
  assert (Hempty : progressStore (worldAfter clearProgress w0)
                   = mkProgressStore [] [] []) by reflexivity.
  split; [exact Hempty|]. split; [reflexivity|]. split; [reflexivity|].
  assert (Hone : h' = [r]) by (subst h'; by rewrite Hempty).
  split; [by rewrite Hh'|].
  intros b Hb. destruct nc; [|rewrite Htypes in Hb; destruct Hb].
  apply (Hchar eq_refl) in Hb as [Hdue _]. rewrite Hone in Hdue.
  destruct b; auto; exfalso.
  - by apply (explorer_needs_two_records r lanes).
  - cbn in Hdue. unfold completedCount in Hdue. cbn in Hdue.
    destruct (WatchRecord.completed r); cbn in Hdue; lia.
  - cbn in Hdue. unfold completedCount in Hdue. cbn in Hdue.
    destruct (WatchRecord.completed r); cbn in Hdue; lia.
  - cbn in Hdue. unfold completedCount in Hdue. cbn in Hdue.
    destruct (WatchRecord.completed r); cbn in Hdue; lia.
Qed.

(* ================================================================== *)
(** * The order of the lanes *)
(* ================================================================== *)

Lemma sortOrderFacts_small :
  forallb (fun a => forallb (sortOrderFacts a) smallIndices) smallIndices = true.
Proof. vm_compute. reflexivity. Qed.

Lemma sortOrderFacts_In a b :
  (-100 <= a <= 100)%Z -> (-100 <= b <= 100)%Z ->
  (0 <? orZero (Z2F a) - orZero (Z2F b))%float = (b <? a)%Z
  /\ integerValue (Z2F a) = Some a.
Proof.
  intros Ha%smallIndices_In Hb%smallIndices_In.
  pose proof sortOrderFacts_small as F. rewrite forallb_forall in F.
  specialize (F a Ha). rewrite forallb_forall in F. specialize (F b Hb).
  unfold sortOrderFacts in F. apply andb_true_iff in F as [F1 F2].
  apply Bool.eqb_prop in F1. split; [exact F1|].
  destruct (integerValue (Z2F a)) as [z|]; [|discriminate].
  apply Z.eqb_eq in F2. by subst z.
Qed.

(** Insertion keeps a list sorted, for a comparator that is positive
    exactly when the key of its first argument is the greater one. *)
(** X30.  The lanes come in the order of their [sortOrder].  When the
    sort orders of the profile's lanes are integers (between -100 and
    100), the list [getLanesForProfile] returns is sorted: the sort order
    of a lane is at most that of the lane after it, and so at most that of
    every lane behind it. *)
Theorem getLanesForProfile_sorted p includeInactive c :
  (forall k lane, laneDocs c !! k = Some lane -> Lane.profileId lane = p ->
     exists z, (-100 <= z <= 100)%Z /\ Lane.sortOrder lane = Z2F z) ->
  Sorted (fun a b => (sortKey a <= sortKey b)%Z)
         (getLanesForProfile p includeInactive c)
  /\ StronglySorted (fun a b => (sortKey a <= sortKey b)%Z)
       (getLanesForProfile p includeInactive c)
  /\ (forall lane, In lane (getLanesForProfile p includeInactive c) ->
        (-100 <= sortKey lane <= 100)%Z
        /\ Lane.sortOrder lane = Z2F (sortKey lane)).
Proof.
  intros Hint.
  set (P := fun lane : Lane.t =>
              (-100 <= sortKey lane <= 100)%Z
              /\ Lane.sortOrder lane = Z2F (sortKey lane)).
  assert (HP : forall lane z, (-100 <= z <= 100)%Z ->
                 Lane.sortOrder lane = Z2F z -> P lane).
  { intros lane z Hz Hs. unfold P, sortKey. rewrite Hs.
    destruct (sortOrderFacts_In z z Hz Hz) as [_ ->]. cbn. auto. }
  assert (Hcmp : forall x y, P x -> P y ->
            (0 <? orZero (Lane.sortOrder x) - orZero (Lane.sortOrder y))%float
            = (sortKey y <? sortKey x)%Z).
  { intros x y [Hx ->] [Hy ->]. by apply sortOrderFacts_In. }
  assert (Hall : Forall P
            (if negb includeInactive
             then List.filter Lane.isActive
                    (map snd (whereProfileId Lane.profileId p (laneDocs c)))
             else map snd (whereProfileId Lane.profileId p (laneDocs c)))).
  { apply Forall_forall. intros lane Hl%list_elem_of_In.
    assert (Hin : In lane
              (map snd (whereProfileId Lane.profileId p (laneDocs c)))).
    { destruct (negb includeInactive); [|exact Hl].
      by apply filter_In in Hl as [Hl _]. }
    apply in_map_iff in Hin as [[k d] [<- [H1 H2]%whereProfileId_In]].
    destruct (Hint k d H1 H2) as (z & Hz & Hs). by apply (HP d z). }
  destruct (Array_sort_Sorted
              (fun a b => (orZero (Lane.sortOrder a)
                           - orZero (Lane.sortOrder b))%float)
              sortKey P _ Hcmp Hall) as [Hs Hp].
  split; [exact Hs|]. split.
  - apply Sorted_StronglySorted; [|exact Hs]. intros a b d. lia.
  - intros lane Hl. rewrite Forall_forall in Hp. by apply Hp, list_elem_of_In.
Qed.

Lemma getLanesForProfile_sorted_witness :
  let c := snd (createLane (Lane.mk "" "kid" "Sums" Math false 2)
             (snd (createLane (Lane.mk "" "kid" "Songs" Music true 3)
                (snd (createLane (Lane.mk "" "kid" "Space" Science true 1)
                        (emptyCatalog sampleUuids)))))) in
  (forall k lane, laneDocs c !! k = Some lane -> Lane.profileId lane = "kid" ->
     exists z, (-100 <= z <= 100)%Z /\ Lane.sortOrder lane = Z2F z)
  /\ map Lane.title (getLanesForProfile "kid" true c) = ["Space"; "Sums"; "Songs"]
  /\ Sorted (fun a b => (sortKey a <= sortKey b)%Z)
            (getLanesForProfile "kid" true c).
Proof.
  intros c.
  assert (H : forall k lane,
            laneDocs c !! k = Some lane -> Lane.profileId lane = "kid" ->
            exists z, (-100 <= z <= 100)%Z /\ Lane.sortOrder lane = Z2F z).
  { intros k lane Hk _. subst c. cbn [createLane snd fst laneDocs emptyCatalog
      uuids drawn Lane.profileId Lane.title Lane.category Lane.isActive
      Lane.sortOrder] in Hk.
    apply lookup_insert_Some in Hk as [[_ <-]|[_ Hk]];
      [exists 2%Z; split; [lia|vm_compute; reflexivity]|].
    apply lookup_insert_Some in Hk as [[_ <-]|[_ Hk]];
      [exists 3%Z; split; [lia|vm_compute; reflexivity]|].
    apply lookup_insert_Some in Hk as [[_ <-]|[_ Hk]];
      [exists 1%Z; split; [lia|vm_compute; reflexivity]|].
    by rewrite lookup_empty in Hk. }
  split; [exact H|]. split; [vm_compute; reflexivity|].
  exact (proj1 (getLanesForProfile_sorted "kid" true c H)).
Defined.
